(** * folly/io/coro/Socket.cpp: the coroutine adapter over AsyncSocket

    A shallow embedding of the three completion callbacks (connect, read,
    write), of [CallbackBase::wait] and of [Socket::connect], [Socket::read]
    and [Socket::write], followed by the properties of the adapter.

    The transport ([folly::AsyncSocket]), the timer wheel, the cancellation
    token and the coroutine engine are collaborators of the adapter.  They
    are represented by what the adapter can observe of them: which callback
    slots of the transport are occupied, whether the timer is armed, whether
    cancellation was requested, and the sequence of callbacks the reactor
    invokes (an [Env]).  Every call the adapter makes on a collaborator is
    appended to a chronological [trace]. *)

From Stdlib Require Import List NArith ZArith Bool Lia String.
From Stdlib Require Import Init.Byte.
Import ListNotations.
Open Scope N_scope.

(** ** size_t *)

Definition SIZE_MOD : N := 2 ^ 64.

(** [size_t] arithmetic wraps around. *)
Definition size_add (a b : N) : N := (a + b) mod SIZE_MOD.
Definition size_sub (a b : N) : N := (SIZE_MOD + a - b) mod SIZE_MOD.

(** The size of a byte range, as [buf.size()] reports it. *)
Definition size (r : list byte) : N := N.of_nat (List.length r).

(** ** Errors and results *)

(** Modelled from the spec: the exception type of the transport is declared
    outside the sources at hand ("all transport-level errors are captured
    inside the Callback").  [AsyncSocketExceptionType] lists kinds of
    failure; the adapter itself constructs only [TIMED_OUT]. *)
Inductive AsyncSocketExceptionType : Type :=
| UNKNOWN | NOT_OPEN | ALREADY_OPEN | TIMED_OUT | END_OF_FILE
| INTERRUPTED | BAD_ARGS | CORRUPTED_DATA | INTERNAL_ERROR
| NOT_SUPPORTED | INVALID_STATE.

Record AsyncSocketException : Type := mkEx {
  exType : AsyncSocketExceptionType;
  exMessage : string;
  exErrno : Z
}.

(** What a task of the adapter can end with, besides a value. *)
Inductive exception : Type :=
| SocketError (ex : AsyncSocketException)
| OperationCancelled.

(** [folly::exception_wrapper]: empty, or holding an exception. *)
Definition exception_wrapper : Type := option exception.

(** [folly::Try<T>]. *)
Inductive Try (T : Type) : Type :=
| Value (t : T)
| Exception (e : exception).
Arguments Value {T} t.
Arguments Exception {T} e.

Definition hasException {T} (t : Try T) : bool :=
  match t with Value _ => false | Exception _ => true end.

(** ** The chronological trace *)

Inductive Action : Type :=
| CallConnect (timeoutMs : Z)        (* socket->connect(&cb, addr, ms) *)
| CallCancelConnect                  (* socket->cancelConnect() *)
| CallSetReadCB (install : bool)     (* socket->setReadCB(&cb / nullptr) *)
| CallScheduleTimeout (ms : Z)       (* timer().scheduleTimeout(this, ms) *)
| CallCancelTimeout                  (* cancelTimeout() *)
| CallSetSendTimeout (ms : Z)        (* socket->setSendTimeout(ms) *)
| CallWrite (len : N)                (* socket->write(&cb, p, len) *)
| CallWritev (count : N)             (* socket->writev(&cb, iov, count) *)
| CallCloseWithReset                 (* socket->closeWithReset() *)
| Post                               (* baton_.post() *)
| Cancel                             (* the callback's cancel() is entered *)
| Suspend.                           (* co_await baton_ suspends *)

Definition Action_eqb (a b : Action) : bool :=
  match a, b with
  | CallConnect x, CallConnect y => Z.eqb x y
  | CallCancelConnect, CallCancelConnect => true
  | CallSetReadCB x, CallSetReadCB y => Bool.eqb x y
  | CallScheduleTimeout x, CallScheduleTimeout y => Z.eqb x y
  | CallCancelTimeout, CallCancelTimeout => true
  | CallSetSendTimeout x, CallSetSendTimeout y => Z.eqb x y
  | CallWrite x, CallWrite y => N.eqb x y
  | CallWritev x, CallWritev y => N.eqb x y
  | CallCloseWithReset, CallCloseWithReset => true
  | Post, Post => true
  | Cancel, Cancel => true
  | Suspend, Suspend => true
  | _, _ => false
  end.

(** How often an action occurs in a trace. *)
Definition occurrences (a : Action) (tr : list Action) : nat :=
  List.length (filter (Action_eqb a) tr).

(** The calls that hand a callback object to the transport. *)
Definition isRegistration (a : Action) : bool :=
  match a with
  | CallConnect _ | CallSetReadCB true | CallWrite _ | CallWritev _ => true
  | _ => false
  end.

(** Everything that is a call on the transport or on its timer. *)
Definition isTransportCall (a : Action) : bool :=
  match a with
  | Post | Cancel | Suspend => false
  | _ => true
  end.

(** ** The transport as the adapter sees it *)

(** Modelled from the spec: [folly::AsyncSocket] is declared outside the
    sources at hand; it is "the underlying callback-driven socket
    implementation", with a "single-notification-per-registration
    contract", and a callback that has unregistered itself is one "no
    further events can reach".  Of the transport only its callback slots
    are kept.  The callbacks of this file hold the socket through a
    [shared_ptr], and so does [Socket]: all of them see this one state. *)
Record AsyncSocket : Type := mkAsyncSocket {
  connectCallback_ : bool;   (* a connect callback is installed *)
  readCallback_ : bool;      (* a read callback is installed *)
  writePending_ : bool       (* a write request holds a callback *)
}.

Definition newSocket : AsyncSocket := mkAsyncSocket false false false.

(** ** CallbackBase *)

Record CallbackBase : Type := mkBase {
  baton_ : bool;                 (* the baton has been posted *)
  error_ : exception_wrapper
}.

Definition CallbackBase_init : CallbackBase := mkBase false None.

(** The state of one operation in flight: the shared transport, the timer
    entry of the callback, the cancellation token and its observer, the
    callback object itself, and the trace so far. *)
Record Machine (C : Type) : Type := mkMachine {
  sock : AsyncSocket;
  timer : bool;                (* this callback is scheduled on the wheel *)
  cancelRequested : bool;      (* cancelToken.isCancellationRequested() *)
  observer : bool;             (* the CancellationCallback is alive *)
  cb : C;
  trace : list Action
}.
Arguments mkMachine {C}.
Arguments sock {C}.
Arguments timer {C}.
Arguments cancelRequested {C}.
Arguments observer {C}.
Arguments cb {C}.
Arguments trace {C}.

Section MachineUpdates.
Context {C : Type}.

Definition set_sock (s : AsyncSocket) (m : Machine C) : Machine C :=
  mkMachine s (timer m) (cancelRequested m) (observer m) (cb m) (trace m).
Definition set_timer (b : bool) (m : Machine C) : Machine C :=
  mkMachine (sock m) b (cancelRequested m) (observer m) (cb m) (trace m).
Definition set_cancelRequested (b : bool) (m : Machine C) : Machine C :=
  mkMachine (sock m) (timer m) b (observer m) (cb m) (trace m).
Definition set_observer (b : bool) (m : Machine C) : Machine C :=
  mkMachine (sock m) (timer m) (cancelRequested m) b (cb m) (trace m).
Definition set_cb (c : C) (m : Machine C) : Machine C :=
  mkMachine (sock m) (timer m) (cancelRequested m) (observer m) c (trace m).
Definition log (a : Action) (m : Machine C) : Machine C :=
  mkMachine (sock m) (timer m) (cancelRequested m) (observer m) (cb m)
            (trace m ++ [a]).

(** Calls on the transport. *)
Definition setReadCB (install : bool) (m : Machine C) : Machine C :=
  log (CallSetReadCB install)
      (set_sock (mkAsyncSocket (connectCallback_ (sock m)) install
                               (writePending_ (sock m))) m).
Definition cancelConnect (m : Machine C) : Machine C :=
  log CallCancelConnect
      (set_sock (mkAsyncSocket false (readCallback_ (sock m))
                               (writePending_ (sock m))) m).
(** [closeWithReset] is recorded as a call.  The callbacks the transport
    invokes while it closes are the [closeEvents] of the environment;
    what the close does to the callbacks of other operations on the same
    transport is the transport's own, and nothing is stated about the
    connect and read slots of a socket after this call. *)
Definition closeWithReset (m : Machine C) : Machine C :=
  log CallCloseWithReset m.
Definition scheduleTimeout (ms : Z) (m : Machine C) : Machine C :=
  log (CallScheduleTimeout ms) (set_timer true m).
Definition cancelTimeout (m : Machine C) : Machine C :=
  log CallCancelTimeout (set_timer false m).
End MachineUpdates.

(** ** What the reactor can do to a callback *)

Inductive Event : Type :=
| EvConnectSuccess
| EvConnectErr (ex : AsyncSocketException)
| EvReadData (data : list byte)   (* getReadBuffer, fill, readDataAvailable *)
| EvReadEOF
| EvReadErr (ex : AsyncSocketException)
| EvTimeoutExpired (errno : Z)    (* the wheel fires; errno as it then is *)
| EvWriteSuccess
| EvWriteErr (bytes : N) (ex : AsyncSocketException)
| EvCancellation.                 (* cancellation is requested on the token *)

Definition isCancellation (e : Event) : bool :=
  match e with EvCancellation => true | _ => false end.

(** The part every callback class inherits from [CallbackBase]. *)
Class CallbackState (C : Type) : Type := {
  base : C -> CallbackBase;
  set_base : CallbackBase -> C -> C
}.

Section Base.
Context {C : Type} `{CallbackState C}.

(** [void post() noexcept { baton_.post(); }] *)
Definition post (m : Machine C) : Machine C :=
  log Post (set_cb (set_base (mkBase true (error_ (base (cb m)))) (cb m)) m).

(** [error_ = folly::exception_wrapper(ex);] *)
Definition set_error (e : exception) (m : Machine C) : Machine C :=
  set_cb (set_base (mkBase (baton_ (base (cb m))) (Some e)) (cb m)) m.

Definition error (m : Machine C) : exception_wrapper := error_ (base (cb m)).
Definition posted (m : Machine C) : bool := baton_ (base (cb m)).
End Base.

(** The virtual part: [cancel()] and the transport's callback interface the
    class overrides.  [dispatch] is [None] when the transport cannot invoke
    that callback in that state. *)
Class Callback (C : Type) `{CallbackState C} : Type := {
  cancel : Machine C -> Machine C;
  dispatch : Event -> Machine C -> option (Machine C)
}.

(** ** ConnectCallback *)

Record ConnectCallback : Type := mkConnectCallback {
  cbase : CallbackBase
}.

#[export] Instance ConnectCallback_state : CallbackState ConnectCallback := {
  base := cbase;
  set_base := fun b _ => mkConnectCallback b
}.

Definition ConnectCallback_cancel (m : Machine ConnectCallback) :=
  cancelConnect m.

Definition connectSuccess (m : Machine ConnectCallback) := post m.

Definition connectErr (ex : AsyncSocketException) (m : Machine ConnectCallback) :=
  post (set_error (SocketError ex) m).

(** The transport empties its connect slot before it reports the outcome. *)
Definition takeConnectCallback {C} (m : Machine C) : Machine C :=
  set_sock (mkAsyncSocket false (readCallback_ (sock m))
                          (writePending_ (sock m))) m.

Definition ConnectCallback_dispatch (e : Event) (m : Machine ConnectCallback)
  : option (Machine ConnectCallback) :=
  match e with
  | EvConnectSuccess =>
      if connectCallback_ (sock m)
      then Some (connectSuccess (takeConnectCallback m)) else None
  | EvConnectErr ex =>
      if connectCallback_ (sock m)
      then Some (connectErr ex (takeConnectCallback m)) else None
  | _ => None
  end.

#[export] Instance ConnectCallback_callback : Callback ConnectCallback := {
  cancel := ConnectCallback_cancel;
  dispatch := ConnectCallback_dispatch
}.

(** ** IOBufQueue *)

(** Modelled from the spec: [folly::IOBufQueue] is declared outside the
    sources at hand; the read callback "delegates the allocation policy to
    the buffer" through a minimum read size and an allocation size.  The
    queue is its readable [chain] and the writable room behind it:
    [preallocate] offers the existing room when it holds the minimum, a
    fresh block of the larger of the two sizes otherwise; [postallocate]
    turns the first [n] bytes of the room into content. *)
Record IOBufQueue : Type := mkQueue {
  chain : list byte;
  tailroom : list byte
}.

Definition preallocate (min newAllocationSize : N) (q : IOBufQueue)
  : IOBufQueue * N :=
  if negb (size (tailroom q) =? 0) && (min <=? size (tailroom q))
  then (q, size (tailroom q))
  else let n := N.max min newAllocationSize in
       (mkQueue (chain q) (repeat x00 (N.to_nat n)), n).

Definition postallocate (n : N) (q : IOBufQueue) : IOBufQueue :=
  mkQueue (chain q ++ firstn (N.to_nat n) (tailroom q))
          (skipn (N.to_nat n) (tailroom q)).

(** The transport copies what it received to the address it was offered. *)
Definition store (off : N) (data region : list byte) : list byte :=
  firstn (N.to_nat off) region ++ data
    ++ skipn (N.to_nat off + List.length data) region.

(** ** ReadCallback *)

Record ReadCallback : Type := mkReadCallback {
  rbase : CallbackBase;
  buf_ : list byte;                 (* the caller's range *)
  readBuf_ : option IOBufQueue;     (* nullptr is None *)
  minReadSize_ : N;
  newAllocationSize_ : N;
  length : N;
  eof : bool
}.

#[export] Instance ReadCallback_state : CallbackState ReadCallback := {
  base := rbase;
  set_base := fun b c =>
    mkReadCallback b (buf_ c) (readBuf_ c) (minReadSize_ c)
                   (newAllocationSize_ c) (length c) (eof c)
}.

Definition set_buf (r : list byte) (c : ReadCallback) : ReadCallback :=
  mkReadCallback (rbase c) r (readBuf_ c) (minReadSize_ c)
                 (newAllocationSize_ c) (length c) (eof c).
Definition set_readBuf (q : option IOBufQueue) (c : ReadCallback) :=
  mkReadCallback (rbase c) (buf_ c) q (minReadSize_ c)
                 (newAllocationSize_ c) (length c) (eof c).
Definition set_length (n : N) (c : ReadCallback) : ReadCallback :=
  mkReadCallback (rbase c) (buf_ c) (readBuf_ c) (minReadSize_ c)
                 (newAllocationSize_ c) n (eof c).
Definition set_eof (b : bool) (c : ReadCallback) : ReadCallback :=
  mkReadCallback (rbase c) (buf_ c) (readBuf_ c) (minReadSize_ c)
                 (newAllocationSize_ c) (length c) b.

(** The two constructors; each arms the timer when [timeout.count() > 0]. *)
Definition armTimer {C} (timeout : Z) (m : Machine C) : Machine C :=
  if (0 <? timeout)%Z then scheduleTimeout timeout m else m.

Definition ReadCallback_range (buf : list byte) (timeout : Z)
  (m : Machine unit) : Machine ReadCallback :=
  armTimer timeout
    (mkMachine (sock m) (timer m) (cancelRequested m) (observer m)
       (mkReadCallback CallbackBase_init buf None 0 0 0 false) (trace m)).

Definition ReadCallback_queue (readBuf : IOBufQueue)
  (minReadSize newAllocationSize : N) (timeout : Z)
  (m : Machine unit) : Machine ReadCallback :=
  armTimer timeout
    (mkMachine (sock m) (timer m) (cancelRequested m) (observer m)
       (mkReadCallback CallbackBase_init [] (Some readBuf) minReadSize
                       newAllocationSize 0 false) (trace m)).

Definition ReadCallback_cancel (m : Machine ReadCallback) :=
  cancelTimeout (setReadCB false m).

(** [getReadBuffer]: the address is given as an offset, into the caller's
    range or into the room of the queue, together with the length offered. *)
Definition getReadBuffer (c : ReadCallback) : ReadCallback * (N * N) :=
  match readBuf_ c with
  | Some q =>
      let (q', len) := preallocate (minReadSize_ c) (newAllocationSize_ c) q in
      (set_readBuf (Some q') c, (0, len))
  | None => (c, (length c, size_sub (size (buf_ c)) (length c)))
  end.

Definition fill (off : N) (data : list byte) (c : ReadCallback) : ReadCallback :=
  match readBuf_ c with
  | Some q => set_readBuf (Some (mkQueue (chain q) (store off data (tailroom q)))) c
  | None => set_buf (store off data (buf_ c)) c
  end.

Definition readDataAvailable (len : N) (m : Machine ReadCallback) :=
  let m1 := set_cb (set_length (size_add (length (cb m)) len) (cb m)) m in
  let m2 :=
    match readBuf_ (cb m1) with
    | Some q => set_cb (set_readBuf (Some (postallocate len q)) (cb m1)) m1
    | None =>
        if length (cb m1) =? size (buf_ (cb m1))
        then cancelTimeout (setReadCB false m1)
        else m1
    end in
  post m2.

Definition readEOF (m : Machine ReadCallback) :=
  let m1 := cancelTimeout (setReadCB false m) in
  post (set_cb (set_eof true (cb m1)) m1).

Definition readErr (ex : AsyncSocketException) (m : Machine ReadCallback) :=
  let m1 := cancelTimeout (setReadCB false m) in
  post (set_error (SocketError ex) m1).

Definition timedOut (errno : Z) : AsyncSocketException :=
  mkEx TIMED_OUT "Timed out waiting for data" errno.

Definition timeoutExpired (errno : Z) (m : Machine ReadCallback) :=
  let m1 := setReadCB false m in
  if length (cb m1) =? 0
  then post (set_error (SocketError (timedOut errno)) m1)
  else m1.

(** What the transport and the wheel do before they enter the callback:
    read callbacks are invoked only on the installed callback, a data event
    carries between one byte and the length [getReadBuffer] offered, and the
    wheel fires an entry once and only while it is scheduled. *)
Definition ReadCallback_dispatch (e : Event) (m : Machine ReadCallback)
  : option (Machine ReadCallback) :=
  match e with
  | EvReadData data =>
      if readCallback_ (sock m) then
        let '(c1, (off, avail)) := getReadBuffer (cb m) in
        let len := size data in
        if (0 <? len) && (len <=? avail) && (len <? SIZE_MOD)
        then Some (readDataAvailable len (set_cb (fill off data c1) m))
        else None
      else None
  | EvReadEOF => if readCallback_ (sock m) then Some (readEOF m) else None
  | EvReadErr ex => if readCallback_ (sock m) then Some (readErr ex m) else None
  | EvTimeoutExpired errno =>
      if timer m then Some (timeoutExpired errno (set_timer false m)) else None
  | _ => None
  end.

#[export] Instance ReadCallback_callback : Callback ReadCallback := {
  cancel := ReadCallback_cancel;
  dispatch := ReadCallback_dispatch
}.

(** ** WriteCallback *)

Record WriteCallback : Type := mkWriteCallback {
  wbase : CallbackBase;
  bytesWritten : N;
  WriteCallback_error : option AsyncSocketException  (* the member [error] *)
}.

#[export] Instance WriteCallback_state : CallbackState WriteCallback := {
  base := wbase;
  set_base := fun b c => mkWriteCallback b (bytesWritten c) (WriteCallback_error c)
}.

Definition WriteCallback_cancel (m : Machine WriteCallback) := closeWithReset m.

Definition writeSuccess (m : Machine WriteCallback) := post m.

Definition writeErr (bytes : N) (ex : AsyncSocketException)
  (m : Machine WriteCallback) :=
  post (set_cb (mkWriteCallback (wbase (cb m)) bytes (Some ex)) m).

(** The transport drops a write request before it reports its outcome. *)
Definition takeWriteRequest {C} (m : Machine C) : Machine C :=
  set_sock (mkAsyncSocket (connectCallback_ (sock m)) (readCallback_ (sock m))
                          false) m.

Definition WriteCallback_dispatch (e : Event) (m : Machine WriteCallback)
  : option (Machine WriteCallback) :=
  match e with
  | EvWriteSuccess =>
      if writePending_ (sock m)
      then Some (writeSuccess (takeWriteRequest m)) else None
  | EvWriteErr bytes ex =>
      if writePending_ (sock m) && (bytes <? SIZE_MOD)
      then Some (writeErr bytes ex (takeWriteRequest m)) else None
  | _ => None
  end.

#[export] Instance WriteCallback_callback : Callback WriteCallback := {
  cancel := WriteCallback_cancel;
  dispatch := WriteCallback_dispatch
}.

(** ** The environment of one call *)

(** What happens around one call of the adapter: the state of the
    cancellation token when the call starts, the callbacks the transport
    invokes from inside the registering call, those the reactor invokes
    while the coroutine is suspended (a cancellation request among them, if
    any), and those the transport invokes from inside [cancel()].  Events
    scripted for a phase the call does not reach are not consumed. *)
Record Env : Type := mkEnv {
  tokenCancelled : bool;
  inlineEvents : list Event;
  loopEvents : list Event;
  closeEvents : list Event
}.

(** A call ends ([Done]), stays suspended for ever because nothing posts
    the baton ([Pending]), or the environment is not one the collaborators
    can produce ([Refused]). *)
Inductive Run (A : Type) : Type :=
| Done (a : A)
| Pending
| Refused.
Arguments Done {A} a.
Arguments Pending {A}.
Arguments Refused {A}.

Definition bind {A B} (r : Run A) (k : A -> Run B) : Run B :=
  match r with
  | Done a => k a
  | Pending => Pending
  | Refused => Refused
  end.

Notation "x <- r ;; k" := (bind r (fun x => k))
  (at level 61, r at next level, right associativity).

Section Wait.
Context {C : Type} `{Callback C}.

(** One event reaches the callback.  A cancellation request fires once;
    the observer registered by [wait] answers it with [post()]. *)
Definition deliver (e : Event) (m : Machine C) : option (Machine C) :=
  match e with
  | EvCancellation =>
      if cancelRequested m then None
      else let m1 := set_cancelRequested true m in
           Some (if observer m1 then post m1 else m1)
  | _ => dispatch e m
  end.

Fixpoint deliverAll (es : list Event) (m : Machine C) : option (Machine C) :=
  match es with
  | [] => Some m
  | e :: es' =>
      match deliver e m with
      | Some m' => deliverAll es' m'
      | None => None
      end
  end.

Definition reactor (es : list Event) (m : Machine C) : Run (Machine C) :=
  match deliverAll es m with
  | Some m' => Done m'
  | None => Refused
  end.

(** [cancel()] as [wait] calls it. *)
Definition callCancel (env : Env) (m : Machine C) : Run (Machine C) :=
  reactor (closeEvents env) (cancel (log Cancel m)).

(** [Task<void> wait() { co_await baton_; }]: a posted baton does not
    suspend; otherwise the coroutine resumes after the reactor's run,
    provided the baton was posted in it. *)
Definition await (env : Env) (m : Machine C) : Run (Machine C) :=
  if posted m then Done m
  else
    m' <- reactor (loopEvents env) (log Suspend m) ;;
    if posted m' then Done m' else Pending.

(** [Task<folly::Unit> wait(folly::CancellationToken cancelToken)] *)
Definition wait (env : Env) (m : Machine C) : Run (Try unit * Machine C) :=
  if cancelRequested m then
    m1 <- callCancel env m ;;
    Done (Exception OperationCancelled, m1)
  else
    let m1 := set_observer true m in
    m2 <- await env m1 ;;
    if cancelRequested m2 then
      m3 <- callCancel env m2 ;;
      Done (Exception OperationCancelled, set_observer false m3)
    else Done (Value tt, set_observer false m2).
End Wait.

(** ** Socket *)

(** Modelled from the spec: the members of [Socket] are declared in
    Socket.h, outside the sources at hand: the shared transport handle and
    "one bit of adapter-local state", the deferred end of stream. *)
Record Socket : Type := mkSocket {
  socket_ : AsyncSocket;
  deferredReadEOF_ : bool
}.

(** Modelled from the spec: [WriteInfo] is declared in Socket.h, outside
    the sources at hand; it "records bytes actually written so far when a
    write fails partway". *)
Record WriteInfo : Type := mkWriteInfo {
  info_bytesWritten : N
}.

(** What a member call leaves behind: its result, the socket afterwards,
    the caller's memory it may have written, and what it did. *)
Record Outcome (T B : Type) : Type := mkOutcome {
  result : Try T;
  self : Socket;
  memory : B;
  actions : list Action
}.
Arguments mkOutcome {T B}.
Arguments result {T B}.
Arguments self {T B}.
Arguments memory {T B}.
Arguments actions {T B}.

Definition start {C} (env : Env) (a : AsyncSocket) (c : C) : Machine C :=
  mkMachine a false (tokenCancelled env) false c [].

(** [socket->connect(&cb, destAddr, connectTimeout.count())] *)
Definition socketConnect {C} (ms : Z) (m : Machine C) : Machine C :=
  log (CallConnect ms)
      (set_sock (mkAsyncSocket true (readCallback_ (sock m))
                               (writePending_ (sock m))) m).

(** [Socket::connect]; the event base and the address do not influence the
    adapter and are left out.  The callback object is part of the machine
    from the start: its constructor does nothing but keep the socket. *)
Definition connect (connectTimeout : Z) (env : Env)
  : Run (Try Socket * list Action) :=
  let m0 := setReadCB false
              (start env newSocket (mkConnectCallback CallbackBase_init)) in
  let m1 := socketConnect connectTimeout m0 in
  m2 <- reactor (inlineEvents env) m1 ;;
  r <- wait env m2 ;;
  let (waitRet, m3) := r in
  match waitRet with
  | Exception e => Done (Exception e, trace m3)
  | Value _ =>
      match error m3 with
      | Some e => Done (Exception e, trace m3)
      | None => Done (Value (mkSocket (sock m3) false), trace m3)
      end
  end.

(** The caller's buffers of a read: the fixed range and the queue. *)
Definition ReadBuffers : Type := (list byte * option IOBufQueue)%type.

Definition buffers (c : ReadCallback) : ReadBuffers := (buf_ c, readBuf_ c).

(** The body the two overloads of [Socket::read] share, after the
    construction of their callback. *)
Definition readWith (construct : Machine unit -> Machine ReadCallback)
  (untouched : ReadBuffers) (env : Env) (s : Socket)
  : Run (Outcome N ReadBuffers) :=
  if deferredReadEOF_ s then
    Done (mkOutcome (Value 0) (mkSocket (socket_ s) false) untouched [])
  else
    let m1 := setReadCB true (construct (start env (socket_ s) tt)) in
    m2 <- reactor (inlineEvents env) m1 ;;
    r <- wait env m2 ;;
    let (waitRet, m3) := r in
    match waitRet with
    | Exception e =>
        Done (mkOutcome (Exception e)
                (mkSocket (sock m3) (deferredReadEOF_ s))
                (buffers (cb m3)) (trace m3))
    | Value _ =>
        match error m3 with
        | Some e =>
            Done (mkOutcome (Exception e)
                    (mkSocket (sock m3) (deferredReadEOF_ s))
                    (buffers (cb m3)) (trace m3))
        | None =>
            let m4 := setReadCB false m3 in
            Done (mkOutcome (Value (length (cb m4)))
                    (mkSocket (sock m4)
                       (eof (cb m4) && (0 <? length (cb m4))))
                    (buffers (cb m4)) (trace m4))
        end
    end.

(** [Socket::read(MutableByteRange, milliseconds)] *)
Definition read (buf : list byte) (timeout : Z) (env : Env) (s : Socket) :=
  readWith (ReadCallback_range buf timeout) (buf, None) env s.

(** [Socket::read(IOBufQueue&, size_t, size_t, milliseconds)] *)
Definition read_queue (readBuf : IOBufQueue) (minReadSize newAllocationSize : N)
  (timeout : Z) (env : Env) (s : Socket) :=
  readWith (ReadCallback_queue readBuf minReadSize newAllocationSize timeout)
           ([], Some readBuf) env s.

(** [if (writeInfo) { writeInfo->bytesWritten = cb.bytesWritten; }] *)
Definition populate (writeInfo : option WriteInfo) (c : WriteCallback)
  : option WriteInfo :=
  match writeInfo with
  | Some _ => Some (mkWriteInfo (bytesWritten c))
  | None => None
  end.

(** [socket_->write(&cb, ...)] and [socket_->writev(&cb, ...)] *)
Definition submitWrite {C} (call : Action) (m : Machine C) : Machine C :=
  log call
      (set_sock (mkAsyncSocket (connectCallback_ (sock m))
                               (readCallback_ (sock m)) true) m).

(** The body the two overloads of [Socket::write] share. *)
Definition writeWith (call : Action) (timeout : Z)
  (writeInfo : option WriteInfo) (env : Env) (s : Socket)
  : Run (Outcome unit (option WriteInfo)) :=
  let m0 := log (CallSetSendTimeout timeout)
              (start env (socket_ s) (mkWriteCallback CallbackBase_init 0 None)) in
  let m1 := submitWrite call m0 in
  m2 <- reactor (inlineEvents env) m1 ;;
  r <- wait env m2 ;;
  let (waitRet, m3) := r in
  let s' := mkSocket (sock m3) (deferredReadEOF_ s) in
  match waitRet with
  | Exception e =>
      Done (mkOutcome (Exception e) s' (populate writeInfo (cb m3)) (trace m3))
  | Value _ =>
      match WriteCallback_error (cb m3) with
      | Some ex =>
          Done (mkOutcome (Exception (SocketError ex)) s'
                  (populate writeInfo (cb m3)) (trace m3))
      | None => Done (mkOutcome (Value tt) s' writeInfo (trace m3))
      end
  end.

(** [Socket::write(ByteRange, milliseconds, WriteInfo* )] *)
Definition write (buf : list byte) (timeout : Z) (writeInfo : option WriteInfo)
  (env : Env) (s : Socket) :=
  writeWith (CallWrite (size buf)) timeout writeInfo env s.

(** [Socket::write(IOBufQueue&, milliseconds, WriteInfo* )]; [iovec] is
    [ioBufQueue.front()->getIov()]. *)
Definition write_queue (iovec : list (list byte)) (timeout : Z)
  (writeInfo : option WriteInfo) (env : Env) (s : Socket) :=
  writeWith (CallWritev (N.of_nat (List.length iovec))) timeout writeInfo env s.

(** ** Vocabulary of the properties *)

(** What a callback does from inside a handler or from [cancel()]: it
    revokes registrations and posts; it never registers, never suspends and
    never enters [cancel()]. *)
Definition passive (a : Action) : bool :=
  match a with
  | CallCancelConnect | CallSetReadCB false | CallCancelTimeout
  | CallCloseWithReset | Post => true
  | _ => false
  end.

(** Besides passive actions a call may suspend. *)
Definition quiet (a : Action) : bool :=
  passive a || match a with Suspend => true | _ => false end.

(** A machine [m'] continues [m] passively: same token and observer, the
    baton stays posted, and the trace grows by passive actions only. *)
Definition continues {C} `{CallbackState C} (m m' : Machine C) : Prop :=
  cancelRequested m' = cancelRequested m /\
  observer m' = observer m /\
  (posted m = true -> posted m' = true) /\
  exists l, trace m' = trace m ++ l /\ forallb passive l = true.

(** A posted baton has its [Post] in the trace. *)
Definition postLogged {C} `{CallbackState C} (m : Machine C) : Prop :=
  posted m = true -> In Post (trace m).

(** The laws the three callback classes share. *)
Class CallbackLaws (C : Type) `{Callback C} : Prop := {
  base_set_base : forall b c, base (set_base b c) = b;
  cancel_cb : forall m, cb (cancel m) = cb m;
  dispatch_postLogged :
    forall e m m', dispatch e m = Some m' -> postLogged m -> postLogged m';
  dispatch_continues :
    forall e m m', dispatch e m = Some m' -> continues m m';
  cancel_continues : forall m, continues m (cancel m)
}.

(** ** The operations, uniformly *)

Inductive Operation : Type :=
| OpConnect (connectTimeout : Z)
| OpRead (buf : list byte) (timeout : Z)
| OpReadQueue (readBuf : IOBufQueue) (minReadSize newAllocationSize : N)
              (timeout : Z)
| OpWrite (buf : list byte) (timeout : Z) (writeInfo : option WriteInfo)
| OpWriteQueue (iovec : list (list byte)) (timeout : Z)
               (writeInfo : option WriteInfo).

Definition failure {T} (t : Try T) : option exception :=
  match t with
  | Value _ => None
  | Exception e => Some e
  end.

(** An operation reduced to how it ended and what it did. *)
Definition perform (op : Operation) (env : Env) (s : Socket)
  : Run (option exception * list Action) :=
  match op with
  | OpConnect t =>
      r <- connect t env ;; Done (failure (fst r), snd r)
  | OpRead buf t =>
      o <- read buf t env s ;; Done (failure (result o), actions o)
  | OpReadQueue q a b t =>
      o <- read_queue q a b t env s ;; Done (failure (result o), actions o)
  | OpWrite buf t w =>
      o <- write buf t w env s ;; Done (failure (result o), actions o)
  | OpWriteQueue iov t w =>
      o <- write_queue iov t w env s ;; Done (failure (result o), actions o)
  end.

(** A read is issued to the transport unless a deferred end of stream is
    pending; connects and writes always are. *)
Definition issues (op : Operation) (s : Socket) : bool :=
  match op with
  | OpRead _ _ | OpReadQueue _ _ _ _ => negb (deferredReadEOF_ s)
  | _ => true
  end.

(** The two ways to read. *)
Inductive ReadMode : Type :=
| Fixed (buf : list byte)
| Growing (readBuf : IOBufQueue) (minReadSize newAllocationSize : N).

Definition readIn (mode : ReadMode) (timeout : Z) (env : Env) (s : Socket)
  : Run (Outcome N ReadBuffers) :=
  match mode with
  | Fixed buf => read buf timeout env s
  | Growing q a b => read_queue q a b timeout env s
  end.

(** The machine of a read at the moment its callback is installed. *)
Definition construct (mode : ReadMode) (timeout : Z)
  : Machine unit -> Machine ReadCallback :=
  match mode with
  | Fixed buf => ReadCallback_range buf timeout
  | Growing q a b => ReadCallback_queue q a b timeout
  end.

Definition issued (mode : ReadMode) (timeout : Z) (env : Env) (s : Socket)
  : Machine ReadCallback :=
  setReadCB true (construct mode timeout (start env (socket_ s) tt)).

Definition untouched (mode : ReadMode) : ReadBuffers :=
  match mode with
  | Fixed buf => (buf, None)
  | Growing q _ _ => ([], Some q)
  end.

(** The result of a read, from the machine [wait] leaves behind. *)
Definition readResult (s : Socket) (waitRet : Try unit)
  (m3 : Machine ReadCallback) : Outcome N ReadBuffers :=
  match waitRet with
  | Exception e =>
      mkOutcome (Exception e) (mkSocket (sock m3) (deferredReadEOF_ s))
                (buffers (cb m3)) (trace m3)
  | Value _ =>
      match error m3 with
      | Some e =>
          mkOutcome (Exception e) (mkSocket (sock m3) (deferredReadEOF_ s))
                    (buffers (cb m3)) (trace m3)
      | None =>
          let m4 := setReadCB false m3 in
          mkOutcome (Value (length (cb m4)))
                    (mkSocket (sock m4) (eof (cb m4) && (0 <? length (cb m4))))
                    (buffers (cb m4)) (trace m4)
      end
  end.

(** The machines of a connect and of a write once the transport has been
    handed the callback. *)
Definition connectIssued (connectTimeout : Z) (env : Env)
  : Machine ConnectCallback :=
  socketConnect connectTimeout
    (setReadCB false
       (start env newSocket (mkConnectCallback CallbackBase_init))).

Definition writeIssued (call : Action) (timeout : Z) (env : Env) (s : Socket)
  : Machine WriteCallback :=
  submitWrite call
    (log (CallSetSendTimeout timeout)
       (start env (socket_ s) (mkWriteCallback CallbackBase_init 0 None))).

(** From the registration to the resumption: the callbacks invoked from
    inside the registering call, then [wait]. *)
Definition conduct {C} `{Callback C} (env : Env) (m : Machine C)
  : Run (Try unit * Machine C) :=
  m2 <- reactor (inlineEvents env) m ;; wait env m2.

Definition connectResult (r : Try unit * Machine ConnectCallback)
  : Try Socket * list Action :=
  match fst r with
  | Exception e => (Exception e, trace (snd r))
  | Value _ =>
      match error (snd r) with
      | Some e => (Exception e, trace (snd r))
      | None => (Value (mkSocket (sock (snd r)) false), trace (snd r))
      end
  end.

Definition writeResult (writeInfo : option WriteInfo) (s : Socket)
  (r : Try unit * Machine WriteCallback) : Outcome unit (option WriteInfo) :=
  let m3 := snd r in
  let s' := mkSocket (sock m3) (deferredReadEOF_ s) in
  match fst r with
  | Exception e =>
      mkOutcome (Exception e) s' (populate writeInfo (cb m3)) (trace m3)
  | Value _ =>
      match WriteCallback_error (cb m3) with
      | Some ex =>
          mkOutcome (Exception (SocketError ex)) s'
                    (populate writeInfo (cb m3)) (trace m3)
      | None => mkOutcome (Value tt) s' writeInfo (trace m3)
      end
  end.

(** The call that submits the write of an operation. *)
Definition writeCall (op : Operation) : Action :=
  match op with
  | OpWriteQueue iov _ _ => CallWritev (N.of_nat (List.length iov))
  | OpWrite buf _ _ => CallWrite (size buf)
  | _ => CallWrite 0
  end.

(** ** Concrete scenarios *)

Definition fresh_socket : Socket := mkSocket newSocket false.

(** Data, then a cancellation request, then end of stream, in one run. *)
Definition cancel_env : Env :=
  mkEnv false []
        [EvReadData ["h"; "i"]%byte; EvCancellation; EvReadEOF] [].

(** The token is cancelled before the call; the transport stays silent. *)
Definition precancelled_env : Env := mkEnv true [] [] [].

(** The peer closes without sending anything. *)
Definition eof_env : Env := mkEnv false [] [EvReadEOF] [].

(** A read callback the transport and the wheel can no longer reach. *)
Definition finished (m : Machine ReadCallback) : bool :=
  negb (readCallback_ (sock m)) && negb (timer m).

(** The events that end a read whatever the buffer holds. *)
Definition terminal (e : Event) : bool :=
  match e with
  | EvReadEOF | EvReadErr _ | EvTimeoutExpired _ => true
  | _ => false
  end.

Definition isData (e : Event) : bool :=
  match e with EvReadData _ => true | _ => false end.

(** The bytes a sequence of events delivers. *)
Fixpoint bytesDelivered (es : list Event) : N :=
  match es with
  | [] => 0
  | EvReadData data :: es' => size data + bytesDelivered es'
  | _ :: es' => bytesDelivered es'
  end.

(** What [wait] makes of the machine the reactor leaves behind when the
    coroutine was suspended. *)
Definition resume {C} `{Callback C} (env : Env) (m2 : Machine C)
  : Run (Try unit * Machine C) :=
  if posted m2 then
    if cancelRequested m2 then
      m3 <- callCancel env m2 ;;
      Done (Exception OperationCancelled, set_observer false m3)
    else Done (Value tt, set_observer false m2)
  else Pending.

(** Four bytes and the end of the stream, delivered in one run. *)
Definition data_eof_env : Env :=
  mkEnv false [] [EvReadData ["d"; "a"; "t"; "a"]%byte; EvReadEOF] [].

(** The invariant of a fixed-buffer read into a range of [S] bytes. *)
Definition FixedInv (S : N) (c : ReadCallback) : Prop :=
  readBuf_ c = None /\ size (buf_ c) = S /\ length c <= S.

(** A read into a range of four bytes, with a timer, just installed. *)
Definition four_byte_read : Machine ReadCallback :=
  issued (Fixed (repeat x00 4)) 50%Z data_eof_env fresh_socket.

(** The timer fires on a read that has received nothing. *)
Definition timeout_env : Env := mkEnv false [] [EvTimeoutExpired 110%Z] [].

(** Three bytes arrive, then the timer fires before the read resumes. *)
Definition late_timer_env : Env :=
  mkEnv false []
        [EvReadData ["a"; "b"; "c"]%byte; EvTimeoutExpired 110%Z] [].

(** The two ways to write. *)
Inductive WriteForm : Type :=
| Single (buf : list byte)
| Vectored (iovec : list (list byte)).

Definition writeIn (form : WriteForm) (timeout : Z)
  (writeInfo : option WriteInfo) (env : Env) (s : Socket)
  : Run (Outcome unit (option WriteInfo)) :=
  match form with
  | Single buf => write buf timeout writeInfo env s
  | Vectored iovec => write_queue iovec timeout writeInfo env s
  end.

Definition submitCall (form : WriteForm) : Action :=
  match form with
  | Single buf => CallWrite (size buf)
  | Vectored iovec => CallWritev (N.of_nat (List.length iovec))
  end.

(** Every event the environment holds. *)
Definition allEvents (env : Env) : list Event :=
  inlineEvents env ++ loopEvents env ++ closeEvents env.

(** The byte count is the initial 0 or the one a write-error event of the
    environment reported. *)
Definition reportedBy (env : Env) (n : N) : Prop :=
  n = 0 \/ exists ex, In (EvWriteErr n ex) (allEvents env).

(** A write fails after 30 bytes, while suspended or at once. *)
Definition write_failure : AsyncSocketException :=
  mkEx NOT_OPEN "write failed" 32%Z.

Definition write_fails_env : Env :=
  mkEnv false [] [EvWriteErr 30 write_failure] [].

(** A read of ten bytes, without timer, just installed. *)
Definition ten_byte_read : Machine ReadCallback :=
  issued (Fixed (repeat x00 10)) 0%Z data_eof_env fresh_socket.

(** The transport reports a read error. *)
Definition read_error : AsyncSocketException :=
  mkEx END_OF_FILE "connection reset" 104%Z.

Definition read_fails_env : Env := mkEnv false [] [EvReadErr read_error] [].

(** ** Registration and cancellation, call by call *)

(** The calls an operation makes on the transport and on the timer wheel
    up to and including the one that hands its callback over. *)
Definition issueCalls (op : Operation) : list Action :=
  match op with
  | OpConnect t => [CallSetReadCB false; CallConnect t]
  | OpRead _ t | OpReadQueue _ _ _ t =>
      (if (0 <? t)%Z then [CallScheduleTimeout t] else [])
      ++ [CallSetReadCB true]
  | OpWrite buf t _ => [CallSetSendTimeout t; CallWrite (size buf)]
  | OpWriteQueue iov t _ =>
      [CallSetSendTimeout t; CallWritev (N.of_nat (List.length iov))]
  end.

(** The call that hands the callback of an operation to the transport. *)
Definition registrationCall (op : Operation) : Action :=
  match op with
  | OpConnect t => CallConnect t
  | OpRead _ _ | OpReadQueue _ _ _ _ => CallSetReadCB true
  | OpWrite buf _ _ => CallWrite (size buf)
  | OpWriteQueue iov _ _ => CallWritev (N.of_nat (List.length iov))
  end.

(** The calls [cancel()] makes, by the class of the callback:
    [ConnectCallback::cancel], [ReadCallback::cancel],
    [WriteCallback::cancel]. *)
Definition cancelCalls (op : Operation) : list Action :=
  match op with
  | OpConnect _ => [CallCancelConnect]
  | OpRead _ _ | OpReadQueue _ _ _ _ => [CallSetReadCB false; CallCancelTimeout]
  | OpWrite _ _ _ | OpWriteQueue _ _ _ => [CallCloseWithReset]
  end.

(** ** Vocabulary of the further properties *)

(** A socket on which no callback of the adapter is installed. *)
Definition idle (a : AsyncSocket) : Prop :=
  connectCallback_ a = false /\ readCallback_ a = false.

(** How often a trace hands a callback to the transport. *)
Definition registrations (tr : list Action) : nat :=
  List.length (filter isRegistration tr).

(** The bytes a sequence of events carries, in order. *)
Fixpoint payload (es : list Event) : list byte :=
  match es with
  | [] => []
  | EvReadData data :: es' => data ++ payload es'
  | _ :: es' => payload es'
  end.

(** What holds of a read callback with timeout [timeout] under [env] at
    every moment: a recorded error is one the transport reported or the
    time-out of an armed timer, and the callback is then deregistered; a
    cancelled token was cancelled by the environment; the timer is armed
    only for a positive timeout; a recorded end of stream was delivered. *)
Definition ReadInv (timeout : Z) (env : Env) (m : Machine ReadCallback) : Prop :=
  (error m = None \/
   exists ex, error m = Some (SocketError ex) /\
     (In (EvReadErr ex) (allEvents env) \/
      exists errno, ex = timedOut errno /\
        In (EvTimeoutExpired errno) (allEvents env) /\ (0 < timeout)%Z)) /\
  (error m <> None -> readCallback_ (sock m) = false) /\
  (cancelRequested m = true ->
   tokenCancelled env = true \/ In EvCancellation (allEvents env)) /\
  (timer m = true -> (0 < timeout)%Z) /\
  (eof (cb m) = true -> In EvReadEOF (allEvents env)).

(** Three bytes arrive and then the transport reports an error, in one
    run. *)
Definition data_then_error_env : Env :=
  mkEnv false []
        [EvReadData ["a"; "b"; "c"]%byte; EvReadErr read_error] [].

(** Two data events reach a read before it resumes. *)
Definition two_chunks_env : Env :=
  mkEnv false []
        [EvReadData ["a"; "b"]%byte; EvReadData ["c"; "d"; "e"]%byte] [].

(** A posted baton of a read callback has a cause the callback shows. *)
Definition PostCause (m : Machine ReadCallback) : Prop :=
  posted m = true ->
  length (cb m) <> 0 \/ eof (cb m) = true \/ error m <> None \/
  cancelRequested m = true.

(** What holds of a connect callback under [env] at every moment: a
    recorded error is one the transport reported; a posted baton comes from
    an error, from [connectSuccess] or from cancellation; a cancelled token
    was cancelled by the environment; no read callback is installed; and
    once the transport has notified the callback its connect slot is
    empty. *)
Definition ConnectInv (env : Env) (m : Machine ConnectCallback) : Prop :=
  (error m = None \/
   exists ex, error m = Some (SocketError ex) /\
              In (EvConnectErr ex) (allEvents env)) /\
  (posted m = true ->
   error m <> None \/ In EvConnectSuccess (allEvents env) \/
   cancelRequested m = true) /\
  (cancelRequested m = true ->
   tokenCancelled env = true \/ In EvCancellation (allEvents env)) /\
  readCallback_ (sock m) = false /\
  (posted m = true ->
   cancelRequested m = true \/ connectCallback_ (sock m) = false).

(** What holds of a write callback on socket [s] under [env] at every
    moment up to [cancel()]: the callback holds no error and a count of 0,
    or the error and the count of one write-error event; a posted baton
    comes from an error, from [writeSuccess] or from cancellation; a
    cancelled token was cancelled by the environment; the write events and
    the cancellation request leave the connect and read slots of the
    transport as the call found them. *)
Definition WriteInv (env : Env) (s : Socket) (m : Machine WriteCallback)
  : Prop :=
  ((WriteCallback_error (cb m) = None /\ bytesWritten (cb m) = 0) \/
   exists k ex, WriteCallback_error (cb m) = Some ex /\
                bytesWritten (cb m) = k /\
                In (EvWriteErr k ex) (allEvents env)) /\
  (posted m = true ->
   WriteCallback_error (cb m) <> None \/ In EvWriteSuccess (allEvents env) \/
   cancelRequested m = true) /\
  (cancelRequested m = true ->
   tokenCancelled env = true \/ In EvCancellation (allEvents env)) /\
  readCallback_ (sock m) = readCallback_ (socket_ s) /\
  connectCallback_ (sock m) = connectCallback_ (socket_ s).

(** The transport refuses the connection. *)
Definition connect_refused : AsyncSocketException :=
  mkEx NOT_OPEN "connect failed" 111%Z.

Definition connect_fails_env : Env :=
  mkEnv false [] [EvConnectErr connect_refused] [].

(** The write completes inside the submitting call. *)
Definition write_inline_env : Env := mkEnv false [EvWriteSuccess] [] [].

(** The operation ended with [OperationCancelled]. *)
Definition endedCancelled (r : option exception) : bool :=
  match r with
  | Some OperationCancelled => true
  | _ => false
  end.

(** * Properties *)

(** ** The scenarios of the specification, run *)

(** Four bytes and then the close, into a range of ten: the read returns 4
    and defers the end of stream; the next read returns 0 untouched. *)
Example read_four_then_close :
  read (repeat x00 10) 0%Z data_eof_env fresh_socket =
  Done (mkOutcome (Value 4) (mkSocket newSocket true)
          (["d"; "a"; "t"; "a"; x00; x00; x00; x00; x00; x00]%byte, None)
          [CallSetReadCB true; Suspend; Post; CallSetReadCB false;
           CallCancelTimeout; Post; CallSetReadCB false]) /\
  read (repeat x00 10) 0%Z data_eof_env (mkSocket newSocket true) =
  Done (mkOutcome (Value 0) (mkSocket newSocket false)
          (repeat x00 10, None) []).
Proof. split; vm_compute; reflexivity. Qed.

(** A write of 100 bytes that fails after 30. *)
Example write_fails_after_thirty :
  write (repeat x00 100) 0%Z (Some (mkWriteInfo 0)) write_fails_env fresh_socket =
  Done (mkOutcome (Exception (SocketError write_failure)) fresh_socket
          (Some (mkWriteInfo 30))
          [CallSetSendTimeout 0%Z; CallWrite 100; Suspend; Post]).
Proof. vm_compute. reflexivity. Qed.

(** The timer fires on a read that has received nothing. *)
Example read_times_out :
  read (repeat x00 10) 50%Z timeout_env fresh_socket =
  Done (mkOutcome (Exception (SocketError (timedOut 110%Z))) fresh_socket
          (repeat x00 10, None)
          [CallScheduleTimeout 50%Z; CallSetReadCB true; Suspend;
           CallSetReadCB false; Post]).
Proof. vm_compute. reflexivity. Qed.

(** The timer fires after three bytes have arrived: no error. *)
Example read_timer_after_data :
  exists o,
    read (repeat x00 10) 50%Z late_timer_env fresh_socket = Done o /\
    result o = Value 3 /\ deferredReadEOF_ (self o) = false /\
    actions o = [CallScheduleTimeout 50%Z; CallSetReadCB true; Suspend; Post;
                 CallSetReadCB false; CallSetReadCB false].
Proof. eexists. split; [vm_compute; reflexivity|]. repeat split. Qed.

(** A connect that fails, and one that succeeds on the same transport. *)
Example connect_outcomes :
  connect 50%Z (mkEnv false [] [EvConnectErr (mkEx TIMED_OUT "connect" 110%Z)] [])
  = Done (Exception (SocketError (mkEx TIMED_OUT "connect" 110%Z)),
          [CallSetReadCB false; CallConnect 50%Z; Suspend; Post]) /\
  connect 50%Z (mkEnv false [] [EvConnectSuccess] [])
  = Done (Value fresh_socket,
          [CallSetReadCB false; CallConnect 50%Z; Suspend; Post]).
Proof. split; vm_compute; reflexivity. Qed.

(** Nothing happens: the read stays suspended.  More than was offered: not
    a behaviour of the transport. *)
Example read_pending_and_refused :
  read (repeat x00 10) 0%Z (mkEnv false [] [] []) fresh_socket = Pending /\
  read (repeat x00 2) 0%Z data_eof_env fresh_socket = Refused.
Proof. split; vm_compute; reflexivity. Qed.

(** ** Arithmetic of [size_t] *)

Lemma SIZE_MOD_pos : 0 < SIZE_MOD.
Proof. reflexivity. Qed.

Lemma size_add_small (a b : N) : a + b < SIZE_MOD -> size_add a b = a + b.
Proof. intros Hlt. unfold size_add. now apply N.mod_small. Qed.

Lemma size_sub_small (a b : N) :
  b <= a -> a < SIZE_MOD -> size_sub a b = a - b.
Proof.
  intros Hle Hlt. unfold size_sub. pose proof SIZE_MOD_pos as Hpos.
  replace (SIZE_MOD + a - b) with ((a - b) + 1 * SIZE_MOD) by lia.
  rewrite N.Div0.mod_add. apply N.mod_small. lia.
Qed.

Lemma size_add_assoc_mod (a b c : N) :
  size_add (size_add a b) c = size_add a (b + c).
Proof.
  unfold size_add. rewrite N.Div0.add_mod_idemp_l. now rewrite N.add_assoc.
Qed.

(** ** Traces *)

Lemma occurrences_app (a : Action) (l1 l2 : list Action) :
  occurrences a (l1 ++ l2) = (occurrences a l1 + occurrences a l2)%nat.
Proof. unfold occurrences. now rewrite filter_app, length_app. Qed.

Lemma passive_occurrences (a : Action) (l : list Action) :
  passive a = false -> forallb passive l = true -> occurrences a l = 0%nat.
Proof.
  intros Ha. induction l as [|b l IH]; [reflexivity|].
  cbn [forallb]. intros Hl. apply andb_prop in Hl as [Hb Hl].
  unfold occurrences in *. cbn [filter].
  destruct (Action_eqb a b) eqn:Hab; [|now apply IH].
  destruct a, b; cbn in Hab, Ha, Hb; try discriminate;
    try destruct install; try destruct install0; discriminate.
Qed.

Lemma passive_no_registration (l : list Action) :
  forallb passive l = true -> existsb isRegistration l = false.
Proof.
  induction l as [|b l IH]; [reflexivity|].
  cbn [forallb existsb]. intros Hl. apply andb_prop in Hl as [Hb Hl].
  rewrite (IH Hl), orb_false_r.
  destruct b; try reflexivity; try discriminate.
  now destruct install.
Qed.

Lemma passive_quiet (l : list Action) :
  forallb passive l = true -> forallb quiet l = true.
Proof.
  induction l as [|b l IH]; [reflexivity|].
  cbn [forallb]. intros Hl. apply andb_prop in Hl as [Hb Hl].
  unfold quiet at 1. now rewrite Hb, IH.
Qed.

Lemma quiet_occurrences_Cancel (l : list Action) :
  forallb quiet l = true -> occurrences Cancel l = 0%nat.
Proof.
  induction l as [|b l IH]; [reflexivity|].
  cbn [forallb]. intros Hl. apply andb_prop in Hl as [Hb Hl].
  unfold occurrences in *. cbn [filter].
  destruct b; cbn in Hb |- *; try discriminate; now apply IH.
Qed.

Lemma quiet_no_registration (l : list Action) :
  forallb quiet l = true -> existsb isRegistration l = false.
Proof.
  induction l as [|b l IH]; [reflexivity|].
  cbn [forallb existsb]. intros Hl. apply andb_prop in Hl as [Hb Hl].
  rewrite (IH Hl), orb_false_r.
  destruct b; try reflexivity; try discriminate.
  now destruct install.
Qed.

Lemma continues_refl {C} `{CallbackState C} (m : Machine C) : continues m m.
Proof.
  repeat split; auto. exists []. now rewrite app_nil_r.
Qed.

Lemma continues_trans {C} `{CallbackState C} (m1 m2 m3 : Machine C) :
  continues m1 m2 -> continues m2 m3 -> continues m1 m3.
Proof.
  intros (Hc1 & Ho1 & Hp1 & l1 & Ht1 & Hl1) (Hc2 & Ho2 & Hp2 & l2 & Ht2 & Hl2).
  repeat split; try congruence; auto.
  exists (l1 ++ l2). rewrite Ht2, Ht1, app_assoc. split; [reflexivity|].
  rewrite forallb_app. now rewrite Hl1, Hl2.
Qed.

(** Reduction that leaves arithmetic tests and [size_t] operations folded. *)
Ltac red_model :=
  cbn -[N.ltb N.leb N.eqb Z.ltb N.add N.sub N.modulo SIZE_MOD size_add
        size_sub size store firstn skipn repeat] in *.

Ltac passive_step :=
  repeat split; cbn; auto;
  eexists; split; [rewrite <- ?app_assoc; reflexivity | reflexivity].

#[export] Instance ConnectCallback_laws : CallbackLaws ConnectCallback.
Proof.
  split.
  - reflexivity.
  - reflexivity.
  - intros e m m' Hd Hlog. destruct e; cbn in Hd; try discriminate;
      destruct (connectCallback_ (sock m)); try discriminate;
      injection Hd as <-; intros _; cbn; rewrite in_app_iff; cbn; auto.
  - intros e m m' Hd. destruct e; cbn in Hd; try discriminate;
      destruct (connectCallback_ (sock m)); try discriminate;
      injection Hd as <-; passive_step.
  - intros m. passive_step.
Qed.

#[export] Instance WriteCallback_laws : CallbackLaws WriteCallback.
Proof.
  split.
  - reflexivity.
  - reflexivity.
  - intros e m m' Hd Hlog. destruct e; red_model; try discriminate;
      destruct (writePending_ (sock m)); red_model; try discriminate;
      try destruct (bytes <? SIZE_MOD); try discriminate;
      injection Hd as <-; intros _; cbn; rewrite in_app_iff; cbn; auto.
  - intros e m m' Hd. destruct e; red_model; try discriminate;
      destruct (writePending_ (sock m)); red_model; try discriminate;
      try destruct (bytes <? SIZE_MOD); try discriminate;
      injection Hd as <-; passive_step.
  - intros m. passive_step.
Qed.

#[export] Instance ReadCallback_laws : CallbackLaws ReadCallback.
Proof.
  split.
  - reflexivity.
  - reflexivity.
  - intros e m m' Hd Hlog. unfold postLogged, posted in *.
    destruct e; red_model; try discriminate.
    + destruct (readCallback_ (sock m)); [|discriminate].
      destruct (getReadBuffer (cb m)) as [c1 [off avail]].
      destruct ((0 <? size data) && (size data <=? avail)
                && (size data <? SIZE_MOD)); [|discriminate].
      injection Hd as <-. unfold readDataAvailable, fill.
      destruct (readBuf_ c1) as [q|] eqn:Hq; red_model; rewrite ?Hq.
      * intros _. cbn. rewrite in_app_iff. cbn. auto.
      * destruct (N.eqb _ _); intros _; cbn; rewrite !in_app_iff; cbn; auto.
    + destruct (readCallback_ (sock m)); [|discriminate].
      injection Hd as <-. intros _. cbn. rewrite !in_app_iff. cbn. auto.
    + destruct (readCallback_ (sock m)); [|discriminate].
      injection Hd as <-. intros _. cbn. rewrite !in_app_iff. cbn. auto.
    + destruct (timer m); [|discriminate].
      injection Hd as <-. unfold timeoutExpired. red_model.
      destruct (N.eqb _ _); cbn; rewrite !in_app_iff; cbn; auto.
  - intros e m m' Hd. destruct e; red_model; try discriminate.
    + destruct (readCallback_ (sock m)); [|discriminate].
      destruct (getReadBuffer (cb m)) as [c1 [off avail]].
      destruct ((0 <? size data) && (size data <=? avail)
                && (size data <? SIZE_MOD)); [|discriminate].
      injection Hd as <-. unfold readDataAvailable, fill.
      destruct (readBuf_ c1) as [q|] eqn:Hq; red_model; rewrite ?Hq.
      * passive_step.
      * destruct (N.eqb _ _); passive_step.
    + destruct (readCallback_ (sock m)); [|discriminate].
      injection Hd as <-. passive_step.
    + destruct (readCallback_ (sock m)); [|discriminate].
      injection Hd as <-. passive_step.
    + destruct (timer m); [|discriminate].
      injection Hd as <-. unfold timeoutExpired. red_model.
      destruct (N.eqb _ _); passive_step.
  - intros m. passive_step.
Qed.

Section WaitFacts.
Context {C : Type} `{CallbackLaws C}.

Lemma deliver_passive (e : Event) (m m' : Machine C) :
  isCancellation e = false -> deliver e m = Some m' -> continues m m'.
Proof.
  destruct e; try discriminate; intros _ Hd;
    exact (dispatch_continues _ _ _ Hd).
Qed.

Lemma requestCancellation_inv (m m' : Machine C) :
  deliver EvCancellation m = Some m' ->
  cancelRequested m = false /\
  m' = (if observer m then post (set_cancelRequested true m)
        else set_cancelRequested true m).
Proof.
  cbn. destruct (cancelRequested m); [discriminate|].
  now intros [= <-].
Qed.

Lemma posted_post (m : Machine C) : posted (post m) = true.
Proof. unfold posted, post. cbn. now rewrite base_set_base. Qed.

Lemma deliver_posted_mono (e : Event) (m m' : Machine C) :
  deliver e m = Some m' -> posted m = true -> posted m' = true.
Proof.
  destruct (isCancellation e) eqn:He.
  - destruct e; try discriminate. intros Hd.
    apply requestCancellation_inv in Hd as [_ ->].
    destruct (observer m); [intros _; apply posted_post | auto].
  - intros Hd. now destruct (deliver_passive _ _ _ He Hd) as (_ & _ & Hp & _).
Qed.

Lemma deliver_trace (e : Event) (m m' : Machine C) :
  deliver e m = Some m' ->
  exists l, trace m' = trace m ++ l /\ forallb passive l = true.
Proof.
  destruct (isCancellation e) eqn:He.
  - destruct e; try discriminate. intros Hd.
    apply requestCancellation_inv in Hd as [_ ->].
    destruct (observer m); cbn.
    + now exists [Post].
    + exists []. now rewrite app_nil_r.
  - intros Hd. now destruct (deliver_passive _ _ _ He Hd) as (_ & _ & _ & Hl).
Qed.

Lemma deliver_observer (e : Event) (m m' : Machine C) :
  deliver e m = Some m' -> observer m' = observer m.
Proof.
  destruct (isCancellation e) eqn:He.
  - destruct e; try discriminate. intros Hd.
    apply requestCancellation_inv in Hd as [_ ->].
    destruct (observer m) eqn:Ho; cbn; exact Ho.
  - intros Hd. now destruct (deliver_passive _ _ _ He Hd) as (_ & Ho & _).
Qed.

(** Cancellation is never withdrawn. *)
Lemma deliver_cancelRequested_mono (e : Event) (m m' : Machine C) :
  deliver e m = Some m' -> cancelRequested m = true ->
  cancelRequested m' = true.
Proof.
  destruct (isCancellation e) eqn:He.
  - destruct e; try discriminate. intros Hd.
    apply requestCancellation_inv in Hd as [Hc _]. congruence.
  - intros Hd. destruct (deliver_passive _ _ _ He Hd) as (Hc & _). congruence.
Qed.

(** Without a cancellation event the token keeps its state. *)
Lemma deliver_cancelRequested_same (e : Event) (m m' : Machine C) :
  isCancellation e = false -> deliver e m = Some m' ->
  cancelRequested m' = cancelRequested m.
Proof.
  intros He Hd. now destruct (deliver_passive _ _ _ He Hd) as (Hc & _).
Qed.

Lemma deliverAll_app (es1 es2 : list Event) (m : Machine C) :
  deliverAll (es1 ++ es2) m =
  match deliverAll es1 m with
  | Some m1 => deliverAll es2 m1
  | None => None
  end.
Proof.
  revert m. induction es1 as [|e es1 IH]; intros m; [reflexivity|].
  cbn [app deliverAll]. destruct (deliver e m); [apply IH|reflexivity].
Qed.

Lemma deliverAll_posted_mono (es : list Event) (m m' : Machine C) :
  deliverAll es m = Some m' -> posted m = true -> posted m' = true.
Proof.
  revert m. induction es as [|e es IH]; intros m; cbn [deliverAll].
  - now intros [= <-].
  - destruct (deliver e m) as [m1|] eqn:Hd; [|discriminate].
    intros Hr Hp. apply (IH _ Hr). eapply deliver_posted_mono; eauto.
Qed.

Lemma deliverAll_trace (es : list Event) (m m' : Machine C) :
  deliverAll es m = Some m' ->
  exists l, trace m' = trace m ++ l /\ forallb passive l = true.
Proof.
  revert m. induction es as [|e es IH]; intros m; cbn [deliverAll].
  - intros [= <-]. exists []. now rewrite app_nil_r.
  - destruct (deliver e m) as [m1|] eqn:Hd; [|discriminate].
    intros Hr. destruct (deliver_trace _ _ _ Hd) as (l1 & Ht1 & Hl1).
    destruct (IH _ Hr) as (l2 & Ht2 & Hl2).
    exists (l1 ++ l2). rewrite Ht2, Ht1, app_assoc. split; [reflexivity|].
    now rewrite forallb_app, Hl1, Hl2.
Qed.

Lemma deliverAll_observer (es : list Event) (m m' : Machine C) :
  deliverAll es m = Some m' -> observer m' = observer m.
Proof.
  revert m. induction es as [|e es IH]; intros m; cbn [deliverAll].
  - now intros [= <-].
  - destruct (deliver e m) as [m1|] eqn:Hd; [|discriminate].
    intros Hr. rewrite (IH _ Hr). eapply deliver_observer; eauto.
Qed.

Lemma deliverAll_cancelRequested_mono (es : list Event) (m m' : Machine C) :
  deliverAll es m = Some m' -> cancelRequested m = true ->
  cancelRequested m' = true.
Proof.
  revert m. induction es as [|e es IH]; intros m; cbn [deliverAll].
  - now intros [= <-].
  - destruct (deliver e m) as [m1|] eqn:Hd; [|discriminate].
    intros Hr Hc. apply (IH _ Hr).
    eapply deliver_cancelRequested_mono; eauto.
Qed.

Lemma deliverAll_cancelRequested_same (es : list Event) (m m' : Machine C) :
  existsb isCancellation es = false -> deliverAll es m = Some m' ->
  cancelRequested m' = cancelRequested m.
Proof.
  revert m. induction es as [|e es IH]; intros m; cbn [deliverAll existsb].
  - now intros _ [= <-].
  - intros Hn. apply orb_false_elim in Hn as [He Hn].
    destruct (deliver e m) as [m1|] eqn:Hd; [|discriminate].
    intros Hr. rewrite (IH _ Hn Hr).
    eapply deliver_cancelRequested_same; eauto.
Qed.

(** A delivered cancellation request leaves the token cancelled and, when
    the observer is alive, the baton posted. *)
Lemma deliverAll_cancellation (es : list Event) (m m' : Machine C) :
  In EvCancellation es -> deliverAll es m = Some m' ->
  cancelRequested m' = true /\ (observer m = true -> posted m' = true).
Proof.
  revert m. induction es as [|e es IH]; intros m; [intros []|].
  cbn [In deliverAll]. intros [-> | Hin].
  - destruct (deliver EvCancellation m) as [m1|] eqn:Hd; [|discriminate].
    apply requestCancellation_inv in Hd as [_ ->].
    intros Hr. split.
    + eapply deliverAll_cancelRequested_mono; [exact Hr|].
      destruct (observer m); reflexivity.
    + intros Ho. eapply deliverAll_posted_mono; [exact Hr|].
      rewrite Ho. apply posted_post.
  - destruct (deliver e m) as [m1|] eqn:Hd; [|discriminate].
    intros Hr. destruct (IH _ Hin Hr) as [Hc Hp]. split; [exact Hc|].
    intros Ho. apply Hp. now rewrite (deliver_observer _ _ _ Hd).
Qed.
End WaitFacts.

Section WaitResults.
Context {C : Type} `{CallbackLaws C}.

Lemma reactor_Done (es : list Event) (m m' : Machine C) :
  reactor es m = Done m' <-> deliverAll es m = Some m'.
Proof.
  unfold reactor. destruct (deliverAll es m); split; congruence.
Qed.

Lemma reactor_not_Pending (es : list Event) (m : Machine C) :
  reactor es m <> Pending.
Proof. unfold reactor. destruct (deliverAll es m); discriminate. Qed.

(** [cancel()] as called by [wait]: one [Cancel], then passive actions. *)
Lemma callCancel_Done (env : Env) (m m' : Machine C) :
  callCancel env m = Done m' ->
  cancelRequested m' = cancelRequested m \/ cancelRequested m' = true.
Proof.
  unfold callCancel. intros Hr. apply reactor_Done in Hr.
  destruct (cancelRequested m) eqn:Hc.
  - right. eapply deliverAll_cancelRequested_mono; [exact Hr|].
    now rewrite (proj1 (cancel_continues _)).
  - destruct (cancelRequested m'); auto.
Qed.

Lemma callCancel_trace (env : Env) (m m' : Machine C) :
  callCancel env m = Done m' ->
  exists l, trace m' = trace m ++ Cancel :: l /\ forallb passive l = true.
Proof.
  unfold callCancel. intros Hr. apply reactor_Done in Hr.
  destruct (deliverAll_trace _ _ _ Hr) as (l2 & Ht2 & Hl2).
  destruct (cancel_continues (log Cancel m)) as (_ & _ & _ & l1 & Ht1 & Hl1).
  exists (l1 ++ l2). rewrite Ht2, Ht1. cbn [log trace].
  rewrite <- !app_assoc. split; [reflexivity|].
  now rewrite forallb_app, Hl1, Hl2.
Qed.

(** [wait] ends with a value or with [OperationCancelled], and never stays
    suspended once the baton is posted. *)
Lemma wait_result (env : Env) (m m' : Machine C) (r : Try unit) :
  wait env m = Done (r, m') ->
  r = Value tt \/ r = Exception OperationCancelled.
Proof.
  unfold wait. destruct (cancelRequested m).
  - destruct (callCancel env m); cbn; [|discriminate..].
    intros [= <- _]. now right.
  - destruct (await env (set_observer true m)) as [m2| |]; cbn;
      [|discriminate..].
    destruct (cancelRequested m2).
    + destruct (callCancel env m2); cbn; [|discriminate..].
      intros [= <- _]. now right.
    + intros [= <- _]. now left.
Qed.

Lemma await_trace (env : Env) (m m' : Machine C) :
  await env m = Done m' ->
  exists l, trace m' = trace m ++ l /\ forallb quiet l = true.
Proof.
  unfold await. destruct (posted m).
  - intros [= <-]. exists []. now rewrite app_nil_r.
  - destruct (reactor (loopEvents env) _) as [m2| |] eqn:Hr; cbn [bind];
      [|discriminate..].
    apply reactor_Done in Hr.
    destruct (deliverAll_trace _ _ _ Hr) as (l1 & Ht1 & Hl1).
    destruct (posted m2); [|discriminate]. intros [= <-].
    exists (Suspend :: l1). cbn [log trace] in Ht1.
    rewrite Ht1, <- app_assoc. split; [reflexivity|].
    cbn [forallb quiet passive orb]. now apply passive_quiet.
Qed.

(** The trace of [wait]: it enters [cancel()] exactly when it ends with
    [OperationCancelled], and then exactly once; it never registers. *)
Lemma wait_trace (env : Env) (m m' : Machine C) (r : Try unit) :
  wait env m = Done (r, m') ->
  exists l, trace m' = trace m ++ l /\
    occurrences Cancel l = (if hasException r then 1 else 0)%nat /\
    existsb isRegistration l = false.
Proof.
  unfold wait. destruct (cancelRequested m).
  - destruct (callCancel env m) as [m1| |] eqn:Hc; cbn; [|discriminate..].
    intros [= <- <-]. destruct (callCancel_trace _ _ _ Hc) as (l & Ht & Hl).
    exists (Cancel :: l). split; [exact Ht|]. split.
    + change (Cancel :: l) with ([Cancel] ++ l). rewrite occurrences_app.
      now rewrite (passive_occurrences Cancel l).
    + cbn [existsb isRegistration]. now apply passive_no_registration.
  - destruct (await env (set_observer true m)) as [m2| |] eqn:Ha;
      cbn [bind]; [|discriminate..].
    destruct (await_trace _ _ _ Ha) as (l1 & Ht1 & Hl1).
    cbn [set_observer trace] in Ht1.
    destruct (cancelRequested m2).
    + destruct (callCancel env m2) as [m3| |] eqn:Hcc; cbn [bind];
        [|discriminate..].
      intros [= <- <-]. destruct (callCancel_trace _ _ _ Hcc) as (l & Ht & Hl).
      exists (l1 ++ Cancel :: l). cbn [set_observer trace].
      rewrite Ht, Ht1, <- !app_assoc. split; [reflexivity|]. split.
      * change (Cancel :: l) with ([Cancel] ++ l).
        rewrite !occurrences_app, (quiet_occurrences_Cancel l1 Hl1).
        now rewrite (passive_occurrences Cancel l).
      * rewrite existsb_app. cbn [existsb isRegistration].
        now rewrite (quiet_no_registration l1 Hl1), passive_no_registration.
    + intros [= <- <-]. exists l1. cbn [set_observer trace hasException].
      split; [exact Ht1|]. split.
      * now apply quiet_occurrences_Cancel.
      * now apply quiet_no_registration.
Qed.

(** A token that is cancelled on entry: no suspension. *)
Lemma wait_precancelled (env : Env) (m : Machine C) :
  cancelRequested m = true ->
  wait env m <> Refused ->
  exists m' l, wait env m = Done (Exception OperationCancelled, m') /\
    trace m' = trace m ++ Cancel :: l /\ forallb passive l = true.
Proof.
  intros Hc Hnr. unfold wait in *. rewrite Hc in *.
  destruct (callCancel env m) as [m1| |] eqn:Hcc; cbn in *.
  - destruct (callCancel_trace _ _ _ Hcc) as (l & Ht & Hl).
    now exists m1, l.
  - unfold callCancel in Hcc. now apply reactor_not_Pending in Hcc.
  - congruence.
Qed.

(** A cancellation request that arrives while the coroutine is suspended
    always ends [wait] with [OperationCancelled]. *)
Lemma wait_cancelled_while_suspended (env : Env) (m : Machine C) :
  cancelRequested m = false -> posted m = false ->
  In EvCancellation (loopEvents env) ->
  wait env m <> Refused ->
  exists m', wait env m = Done (Exception OperationCancelled, m').
Proof.
  intros Hc Hp Hin Hnr. unfold wait, await in *. rewrite Hc in *.
  change (posted (set_observer true m)) with (posted m) in *.
  rewrite Hp in *.
  destruct (reactor (loopEvents env) _) as [m2| |] eqn:Hr; cbn [bind] in *.
  - apply reactor_Done in Hr.
    destruct (deliverAll_cancellation _ _ _ Hin Hr) as [Hc2 Hp2].
    rewrite Hp2 in * by reflexivity. cbn [bind] in *. rewrite Hc2 in *.
    destruct (callCancel env m2) as [m3| |] eqn:Hcc; cbn [bind] in *.
    + eauto.
    + unfold callCancel in Hcc. now apply reactor_not_Pending in Hcc.
    + congruence.
  - now apply reactor_not_Pending in Hr.
  - congruence.
Qed.
End WaitResults.

Lemma readIn_readWith mode timeout env s :
  readIn mode timeout env s =
  readWith (construct mode timeout) (untouched mode) env s.
Proof. now destruct mode. Qed.

(** The facts about a freshly installed read callback. *)
Lemma issued_facts mode timeout env s :
  let m := issued mode timeout env s in
  cancelRequested m = tokenCancelled env /\ observer m = false /\
  posted m = false /\ error m = None /\ readCallback_ (sock m) = true /\
  length (cb m) = 0 /\ eof (cb m) = false /\
  timer m = (0 <? timeout)%Z /\
  trace m = (if (0 <? timeout)%Z then [CallScheduleTimeout timeout] else [])
            ++ [CallSetReadCB true].
Proof.
  unfold issued, construct, ReadCallback_range, ReadCallback_queue, armTimer.
  destruct mode, (0 <? timeout)%Z; cbn; repeat split; reflexivity.
Qed.

Lemma readIn_issued mode timeout env s :
  deferredReadEOF_ s = false ->
  readIn mode timeout env s =
  (m2 <- reactor (inlineEvents env) (issued mode timeout env s) ;;
   r <- wait env m2 ;;
   Done (readResult s (fst r) (snd r))).
Proof.
  rewrite readIn_readWith. unfold readWith, issued, readResult.
  destruct (deferredReadEOF_ s); [discriminate|intros _].
  destruct (reactor _ _) as [m2| |]; cbn [bind]; try reflexivity.
  destruct (wait env m2) as [[w m3]| |]; cbn [bind fst snd]; try reflexivity.
  destruct w; [|reflexivity].
  destruct (error m3); reflexivity.
Qed.

Lemma readIn_deferred mode timeout env s :
  deferredReadEOF_ s = true ->
  readIn mode timeout env s =
  Done (mkOutcome (Value 0) (mkSocket (socket_ s) false) (untouched mode) []).
Proof.
  intros Hd. rewrite readIn_readWith. unfold readWith. now rewrite Hd.
Qed.

(** C10: a read that ends with an error or with cancellation leaves the
    deferred end-of-stream bit of the socket as it found it; the bit is
    assigned on the success path only. *)
Theorem read_failure_keeps_deferredReadEOF :
  forall (mode : ReadMode) (timeout : Z) (env : Env) (s : Socket)
         (o : Outcome N ReadBuffers) (e : exception),
    readIn mode timeout env s = Done o ->
    result o = Exception e ->
    deferredReadEOF_ (self o) = deferredReadEOF_ s.
Proof.
  intros mode timeout env s o e Hrun Hres.
  destruct (deferredReadEOF_ s) eqn:Hd.
  - rewrite (readIn_deferred _ _ _ _ Hd) in Hrun.
    injection Hrun as <-. discriminate.
  - rewrite (readIn_issued _ _ _ _ Hd) in Hrun.
    destruct (reactor _ _) as [m2| |]; cbn [bind] in Hrun; try discriminate.
    destruct (wait env m2) as [[w m3]| |]; cbn [bind fst snd] in Hrun;
      try discriminate.
    injection Hrun as <-. unfold readResult in *.
    destruct w as [u|e'].
    + destruct (error m3); cbn in *; [assumption | discriminate].
    + cbn. assumption.
Qed.

Lemma read_failure_keeps_deferredReadEOF_witness :
  exists o,
    readIn (Fixed (repeat x00 10)) 0%Z read_fails_env fresh_socket = Done o /\
    result o = Exception (SocketError read_error) /\
    deferredReadEOF_ (self o) = deferredReadEOF_ fresh_socket.
Proof.
  eexists. split; [vm_compute; reflexivity|]. split; [reflexivity|].
  apply (read_failure_keeps_deferredReadEOF
           (Fixed (repeat x00 10)) 0%Z read_fails_env fresh_socket _
           (SocketError read_error)); [vm_compute; reflexivity | reflexivity].
Defined.

(** ** The operations as registration, [conduct], result *)

Lemma connect_conduct (t : Z) (env : Env) :
  connect t env =
  (r <- conduct env (connectIssued t env) ;; Done (connectResult r)).
Proof.
  unfold connect, conduct, connectIssued, connectResult.
  destruct (reactor _ _) as [m2| |]; cbn [bind]; try reflexivity.
  destruct (wait env m2) as [[w m3]| |]; cbn [bind fst snd]; try reflexivity.
  destruct w; [|reflexivity]. destruct (error m3); reflexivity.
Qed.

Lemma readIn_conduct mode timeout env s :
  deferredReadEOF_ s = false ->
  readIn mode timeout env s =
  (r <- conduct env (issued mode timeout env s) ;;
   Done (readResult s (fst r) (snd r))).
Proof.
  intros Hd. rewrite (readIn_issued _ _ _ _ Hd). unfold conduct.
  destruct (reactor _ _); reflexivity.
Qed.

Lemma writeWith_conduct call timeout writeInfo env s :
  writeWith call timeout writeInfo env s =
  (r <- conduct env (writeIssued call timeout env s) ;;
   Done (writeResult writeInfo s r)).
Proof.
  unfold writeWith, conduct, writeIssued, writeResult.
  destruct (reactor _ _) as [m2| |]; cbn [bind]; try reflexivity.
  destruct (wait env m2) as [[w m3]| |]; cbn [bind fst snd]; try reflexivity.
  destruct w; [|reflexivity]. destruct (WriteCallback_error (cb m3)); reflexivity.
Qed.

Lemma bind_not_Refused {A B} (r : Run A) (k : A -> Run B) :
  bind r k <> Refused -> r <> Refused.
Proof. destruct r; cbn; congruence. Qed.

Section ConductFacts.
Context {C : Type} `{CallbackLaws C}.

Lemma conduct_result (env : Env) (m m' : Machine C) (r : Try unit) :
  conduct env m = Done (r, m') ->
  r = Value tt \/ r = Exception OperationCancelled.
Proof.
  unfold conduct. destruct (reactor _ _) as [m2| |]; cbn [bind];
    try discriminate.
  apply wait_result.
Qed.

(** Between registration and resumption nothing registers, and [cancel()]
    is entered once if the wait ends cancelled, never otherwise. *)
Lemma conduct_trace (env : Env) (m m' : Machine C) (r : Try unit) :
  conduct env m = Done (r, m') ->
  exists l, trace m' = trace m ++ l /\
    occurrences Cancel l = (if hasException r then 1 else 0)%nat /\
    existsb isRegistration l = false.
Proof.
  unfold conduct. destruct (reactor _ _) as [m2| |] eqn:Hr; cbn [bind];
    try discriminate.
  apply reactor_Done in Hr. intros Hw.
  destruct (deliverAll_trace _ _ _ Hr) as (l0 & Ht0 & Hl0).
  destruct (wait_trace _ _ _ _ Hw) as (l & Ht & Hc & Hg).
  exists (l0 ++ l). rewrite Ht, Ht0, <- app_assoc. split; [reflexivity|].
  rewrite occurrences_app, existsb_app, Hc, Hg.
  now rewrite (passive_occurrences Cancel l0), (passive_no_registration l0).
Qed.

Lemma conduct_cancelled_while_suspended (env : Env) (m : Machine C) :
  inlineEvents env = [] ->
  cancelRequested m = false -> posted m = false ->
  In EvCancellation (loopEvents env) ->
  conduct env m <> Refused ->
  exists m', conduct env m = Done (Exception OperationCancelled, m').
Proof.
  unfold conduct. intros -> Hc Hp Hin. cbn [reactor deliverAll bind].
  now apply wait_cancelled_while_suspended.
Qed.

Lemma conduct_precancelled (env : Env) (m : Machine C) :
  cancelRequested m = true ->
  conduct env m <> Refused ->
  exists m' l0 l, conduct env m = Done (Exception OperationCancelled, m') /\
    trace m' = trace m ++ l0 ++ Cancel :: l /\
    forallb passive l0 = true /\ forallb passive l = true.
Proof.
  unfold conduct. intros Hc Hnr.
  destruct (reactor _ _) as [m2| |] eqn:Hr; cbn [bind] in *;
    try congruence.
  - apply reactor_Done in Hr.
    destruct (deliverAll_trace _ _ _ Hr) as (l0 & Ht0 & Hl0).
    pose proof (deliverAll_cancelRequested_mono _ _ _ Hr Hc) as Hc2.
    destruct (wait_precancelled env m2 Hc2 Hnr) as (m' & l & Hw & Ht & Hl).
    exists m', l0, l. rewrite Hw, Ht, Ht0, <- app_assoc. auto.
  - now apply reactor_not_Pending in Hr.
Qed.
(** The same run, with the machine on which [cancel()] is entered: the
    callbacks invoked from inside the registering call come first, those
    invoked from inside [cancel()] last, and nothing else is done. *)
Lemma conduct_precancelled_run (env : Env) (m : Machine C) :
  cancelRequested m = true ->
  conduct env m <> Refused ->
  exists m2 m' inl post,
    conduct env m = Done (Exception OperationCancelled, m') /\
    trace m2 = trace m ++ inl /\ forallb passive inl = true /\
    trace m' = trace (cancel (log Cancel m2)) ++ post /\
    forallb passive post = true /\
    (inlineEvents env = [] -> inl = []) /\
    (closeEvents env = [] -> post = []).
Proof.
  unfold conduct. intros Hc Hnr.
  destruct (reactor _ _) as [m2| |] eqn:Hr; cbn [bind] in *;
    try congruence.
  - apply reactor_Done in Hr.
    destruct (deliverAll_trace _ _ _ Hr) as (inl & Ht0 & Hl0).
    pose proof (deliverAll_cancelRequested_mono _ _ _ Hr Hc) as Hc2.
    unfold wait in *. rewrite Hc2 in *. unfold callCancel in *.
    destruct (reactor (closeEvents env) _) as [m3| |] eqn:Hr3;
      cbn [bind] in *; try congruence.
    + apply reactor_Done in Hr3.
      destruct (deliverAll_trace _ _ _ Hr3) as (post & Ht3 & Hl3).
      exists m2, m3, inl, post.
      repeat (split; [reflexivity || assumption|]). split.
      * intros Hnil. rewrite Hnil in Hr. injection Hr as <-.
        apply (app_inv_head (trace m)). now rewrite app_nil_r.
      * intros Hnil. rewrite Hnil in Hr3. injection Hr3 as <-.
        apply (app_inv_head (trace (cancel (log Cancel m2)))).
        now rewrite app_nil_r.
    + now apply reactor_not_Pending in Hr3.
  - now apply reactor_not_Pending in Hr.
Qed.

(** A property of the callback object that the deliveries of the
    environment keep is kept from the registration to the resumption. *)
Lemma conduct_cb_invariant (P : C -> Prop) (env : Env)
  (m m' : Machine C) (r : Try unit) :
  (forall es m1 m2,
      es = inlineEvents env \/ es = loopEvents env \/ es = closeEvents env ->
      P (cb m1) -> deliverAll es m1 = Some m2 -> P (cb m2)) ->
  P (cb m) -> conduct env m = Done (r, m') -> P (cb m').
Proof.
  intros Hstep Hm. unfold conduct.
  destruct (reactor _ m) as [m2| |] eqn:Hr; cbn [bind]; try discriminate.
  apply reactor_Done in Hr.
  pose proof (Hstep _ _ _ (or_introl eq_refl) Hm Hr) as Hm2.
  assert (Hcancel : forall m3 m4, P (cb m3) -> callCancel env m3 = Done m4 ->
                                  P (cb m4)).
  { intros m3 m4 Hm3 Hcc. unfold callCancel in Hcc.
    apply reactor_Done in Hcc.
    apply (Hstep _ (cancel (log Cancel m3)) _ (or_intror (or_intror eq_refl)));
      [|exact Hcc].
    rewrite cancel_cb. exact Hm3. }
  unfold wait. destruct (cancelRequested m2).
  - destruct (callCancel env m2) as [m3| |] eqn:Hcc; cbn [bind];
      try discriminate.
    intros [= _ <-]. eauto.
  - unfold await. change (posted (set_observer true m2)) with (posted m2).
    destruct (posted m2); cbn [bind].
    + change (cancelRequested (set_observer true m2))
        with (cancelRequested m2).
      destruct (cancelRequested m2).
      * destruct (callCancel env _) as [m3| |] eqn:Hcc; cbn [bind];
          try discriminate.
        intros [= _ <-]. exact (Hcancel (set_observer true m2) _ Hm2 Hcc).
      * intros [= _ <-]. exact Hm2.
    + destruct (reactor _ _) as [m3| |] eqn:Hr3; cbn [bind]; try discriminate.
      apply reactor_Done in Hr3.
      pose proof (Hstep _ (log Suspend (set_observer true m2)) _
                    (or_intror (or_introl eq_refl)) Hm2 Hr3) as Hm3.
      destruct (posted m3); cbn [bind]; try discriminate.
      destruct (cancelRequested m3).
      * destruct (callCancel env m3) as [m4| |] eqn:Hcc; cbn [bind];
          try discriminate.
        intros [= _ <-]. exact (Hcancel _ _ Hm3 Hcc).
      * intros [= _ <-]. exact Hm3.
Qed.
End ConductFacts.

(** How an operation starts: the trace at registration and the state of the
    token and of the baton. *)
Lemma connectIssued_facts t env :
  let m := connectIssued t env in
  cancelRequested m = tokenCancelled env /\ posted m = false /\
  trace m = [CallSetReadCB false; CallConnect t].
Proof. repeat split. Qed.

Lemma writeIssued_facts call timeout env s :
  let m := writeIssued call timeout env s in
  cancelRequested m = tokenCancelled env /\ posted m = false /\
  trace m = [CallSetSendTimeout timeout; call].
Proof. repeat split. Qed.

(** [perform] through [conduct]: every issued operation is a registration
    trace followed by [conduct], and fails exactly as its result says. *)
Lemma perform_conduct (op : Operation) (env : Env) (s : Socket) :
  issues op s = true ->
  exists (C : Type) (HS : CallbackState C) (HC : Callback C)
         (HL : CallbackLaws C) (m : Machine C)
         (k : Try unit * Machine C -> option exception * list Action),
    perform op env s = (r <- conduct env m ;; Done (k r)) /\
    cancelRequested m = tokenCancelled env /\ posted m = false /\
    existsb isRegistration (trace m) = true /\
    occurrences Cancel (trace m) = 0%nat /\
    occurrences Suspend (trace m) = 0%nat /\
    (forall m', k (Exception OperationCancelled, m')
                = (Some OperationCancelled, trace m')) /\
    (forall r, exists l, snd (k r) = trace (snd r) ++ l /\
                         forallb passive l = true).
Proof.
  intros Hi. destruct op; cbn [perform issues] in *.
  - exists ConnectCallback, _, _, _, (connectIssued connectTimeout env),
      (fun r => (failure (fst (connectResult r)), snd (connectResult r))).
    split; [|repeat (split; [reflexivity|])].
    + rewrite connect_conduct. destruct (conduct _ _); reflexivity.
    + intros [w m3]. exists []. unfold connectResult. cbn [fst snd].
      rewrite app_nil_r. destruct w; [destruct (error m3)|]; now split.
  - apply negb_true_iff in Hi.
    exists ReadCallback, _, _, _, (issued (Fixed buf) timeout env s),
      (fun r => (failure (result (readResult s (fst r) (snd r))),
                 actions (readResult s (fst r) (snd r)))).
    destruct (issued_facts (Fixed buf) timeout env s)
      as (Hc & _ & Hp & _ & _ & _ & _ & _ & Ht).
    split; [|repeat (split;
               [auto; rewrite Ht; now destruct (0 <? timeout)%Z|])].
    + change (read buf timeout env s) with (readIn (Fixed buf) timeout env s).
      rewrite (readIn_conduct _ _ _ _ Hi). destruct (conduct _ _); reflexivity.
    + intros [w m3]. unfold readResult. cbn [fst snd].
      destruct w; [destruct (error m3)|]; cbn [actions snd];
        try (exists []; now rewrite app_nil_r).
      exists [CallSetReadCB false]. now split.
  - apply negb_true_iff in Hi.
    set (mode := Growing readBuf minReadSize newAllocationSize).
    exists ReadCallback, _, _, _, (issued mode timeout env s),
      (fun r => (failure (result (readResult s (fst r) (snd r))),
                 actions (readResult s (fst r) (snd r)))).
    destruct (issued_facts mode timeout env s)
      as (Hc & _ & Hp & _ & _ & _ & _ & _ & Ht).
    split; [|repeat (split;
               [auto; rewrite Ht; now destruct (0 <? timeout)%Z|])].
    + change (read_queue readBuf minReadSize newAllocationSize timeout env s)
        with (readIn mode timeout env s).
      rewrite (readIn_conduct _ _ _ _ Hi). destruct (conduct _ _); reflexivity.
    + intros [w m3]. unfold readResult. cbn [fst snd].
      destruct w; [destruct (error m3)|]; cbn [actions snd];
        try (exists []; now rewrite app_nil_r).
      exists [CallSetReadCB false]. now split.
  - exists WriteCallback, _, _, _,
      (writeIssued (CallWrite (size buf)) timeout env s),
      (fun r => (failure (result (writeResult writeInfo s r)),
                 actions (writeResult writeInfo s r))).
    split; [|repeat (split; [reflexivity|])].
    + unfold write. rewrite writeWith_conduct.
      destruct (conduct _ _); reflexivity.
    + intros [w m3]. exists []. unfold writeResult. cbn [fst snd].
      rewrite app_nil_r.
      destruct w; [destruct (WriteCallback_error (cb m3))|]; now split.
  - exists WriteCallback, _, _, _,
      (writeIssued (CallWritev (N.of_nat (List.length iovec))) timeout env s),
      (fun r => (failure (result (writeResult writeInfo s r)),
                 actions (writeResult writeInfo s r))).
    split; [|repeat (split; [reflexivity|])].
    + unfold write_queue. rewrite writeWith_conduct.
      destruct (conduct _ _); reflexivity.
    + intros [w m3]. exists []. unfold writeResult. cbn [fst snd].
      rewrite app_nil_r.
      destruct w; [destruct (WriteCallback_error (cb m3))|]; now split.
Qed.

(** ** Cancellation *)

(** C2: when cancellation is requested after an operation was issued and
    while its coroutine is suspended, the operation ends with
    [OperationCancelled] and has entered [cancel()] exactly once, whatever
    else the reactor delivered in the same run, a transport outcome
    included. *)
Theorem cancellation_while_suspended_wins :
  forall (op : Operation) (env : Env) (s : Socket),
    issues op s = true ->
    tokenCancelled env = false ->
    inlineEvents env = [] ->
    In EvCancellation (loopEvents env) ->
    perform op env s <> Refused ->
    exists tr, perform op env s = Done (Some OperationCancelled, tr) /\
               occurrences Cancel tr = 1%nat.
Proof.
  intros op env s Hi Htok Hinl Hin Hnr.
  destruct (perform_conduct op env s Hi)
    as (C & HS & HC & HL & m & k & Heq & Hc & Hp & _ & Hn & _ & Hk & _).
  rewrite Heq in *. apply bind_not_Refused in Hnr.
  rewrite Htok in Hc.
  destruct (conduct_cancelled_while_suspended env m Hinl Hc Hp Hin Hnr)
    as (m' & Hrun).
  destruct (conduct_trace _ _ _ _ Hrun) as (l & Ht & Hcl & _).
  rewrite Hrun. cbn [bind]. rewrite Hk. exists (trace m').
  split; [reflexivity|].
  rewrite Ht, occurrences_app, Hn, Hcl. reflexivity.
Qed.

Lemma cancellation_while_suspended_wins_witness :
  exists tr,
    perform (OpRead (repeat x00 8) 50%Z) cancel_env (mkSocket newSocket false)
    = Done (Some OperationCancelled, tr) /\ occurrences Cancel tr = 1%nat.
Proof.
  apply cancellation_while_suspended_wins.
  - reflexivity.
  - reflexivity.
  - reflexivity.
  - cbn. auto.
  - vm_compute. discriminate.
Defined.

(** A run that found the token cancelled on entry, operation by operation:
    the calls of the registration, the callbacks the transport invoked from
    inside it, [cancel()] with the calls of the callback class, and the
    callbacks invoked from inside [cancel()]. *)
Lemma precancelled_trace (op : Operation) (env : Env) (s : Socket) :
  issues op s = true ->
  tokenCancelled env = true ->
  perform op env s <> Refused ->
  exists inl post,
    perform op env s
    = Done (Some OperationCancelled,
            (issueCalls op ++ inl) ++ Cancel :: cancelCalls op ++ post) /\
    forallb passive inl = true /\ forallb passive post = true /\
    (inlineEvents env = [] -> inl = []) /\
    (closeEvents env = [] -> post = []).
Proof.
  intros Hi Htok Hnr.
  destruct op as [t | buf t | q a b t | buf t w | iov t w];
    cbn [perform issues issueCalls cancelCalls] in *.
  - rewrite connect_conduct in *. do 2 apply bind_not_Refused in Hnr.
    destruct (conduct_precancelled_run env (connectIssued t env) Htok Hnr)
      as (m2 & m' & inl & post & Hrun & Ht2 & Hl2 & Ht & Hl & Hinl & Hcl).
    exists inl, post. rewrite Hrun. cbn [bind]. unfold connectResult.
    cbn [fst snd failure]. rewrite Ht.
    change (trace (cancel (log Cancel m2)))
      with ((trace m2 ++ [Cancel]) ++ [CallCancelConnect]).
    rewrite Ht2.
    change (trace (connectIssued t env))
      with [CallSetReadCB false; CallConnect t].
    rewrite <- !app_assoc. cbn [app]. auto.
  - apply negb_true_iff in Hi.
    change (read buf t env s) with (readIn (Fixed buf) t env s) in *.
    rewrite (readIn_conduct _ _ _ _ Hi) in *.
    do 2 apply bind_not_Refused in Hnr.
    destruct (issued_facts (Fixed buf) t env s)
      as (Hc & _ & _ & _ & _ & _ & _ & _ & Htr).
    rewrite Htok in Hc.
    destruct (conduct_precancelled_run env _ Hc Hnr)
      as (m2 & m' & inl & post & Hrun & Ht2 & Hl2 & Ht & Hl & Hinl & Hcl).
    exists inl, post. rewrite Hrun. cbn [bind]. unfold readResult.
    cbn [fst snd failure result actions]. rewrite Ht.
    change (trace (cancel (log Cancel m2)))
      with (((trace m2 ++ [Cancel]) ++ [CallSetReadCB false])
            ++ [CallCancelTimeout]).
    rewrite Ht2, Htr. rewrite <- !app_assoc. cbn [app]. auto.
  - apply negb_true_iff in Hi.
    change (read_queue q a b t env s)
      with (readIn (Growing q a b) t env s) in *.
    rewrite (readIn_conduct _ _ _ _ Hi) in *.
    do 2 apply bind_not_Refused in Hnr.
    destruct (issued_facts (Growing q a b) t env s)
      as (Hc & _ & _ & _ & _ & _ & _ & _ & Htr).
    rewrite Htok in Hc.
    destruct (conduct_precancelled_run env _ Hc Hnr)
      as (m2 & m' & inl & post & Hrun & Ht2 & Hl2 & Ht & Hl & Hinl & Hcl).
    exists inl, post. rewrite Hrun. cbn [bind]. unfold readResult.
    cbn [fst snd failure result actions]. rewrite Ht.
    change (trace (cancel (log Cancel m2)))
      with (((trace m2 ++ [Cancel]) ++ [CallSetReadCB false])
            ++ [CallCancelTimeout]).
    rewrite Ht2, Htr. rewrite <- !app_assoc. cbn [app]. auto.
  - unfold write in *. rewrite writeWith_conduct in *.
    do 2 apply bind_not_Refused in Hnr.
    destruct (conduct_precancelled_run env
                (writeIssued (CallWrite (size buf)) t env s) Htok Hnr)
      as (m2 & m' & inl & post & Hrun & Ht2 & Hl2 & Ht & Hl & Hinl & Hcl).
    exists inl, post. rewrite Hrun. cbn [bind]. unfold writeResult.
    cbn [fst snd failure result actions]. rewrite Ht.
    change (trace (cancel (log Cancel m2)))
      with ((trace m2 ++ [Cancel]) ++ [CallCloseWithReset]).
    rewrite Ht2.
    change (trace (writeIssued (CallWrite (size buf)) t env s))
      with [CallSetSendTimeout t; CallWrite (size buf)].
    rewrite <- !app_assoc. cbn [app]. auto.
  - unfold write_queue in *. rewrite writeWith_conduct in *.
    do 2 apply bind_not_Refused in Hnr.
    destruct (conduct_precancelled_run env
                (writeIssued (CallWritev (N.of_nat (List.length iov))) t env s)
                Htok Hnr)
      as (m2 & m' & inl & post & Hrun & Ht2 & Hl2 & Ht & Hl & Hinl & Hcl).
    exists inl, post. rewrite Hrun. cbn [bind]. unfold writeResult.
    cbn [fst snd failure result actions]. rewrite Ht.
    change (trace (cancel (log Cancel m2)))
      with ((trace m2 ++ [Cancel]) ++ [CallCloseWithReset]).
    rewrite Ht2.
    change (trace (writeIssued (CallWritev (N.of_nat (List.length iov)))
                               t env s))
      with [CallSetSendTimeout t; CallWritev (N.of_nat (List.length iov))].
    rewrite <- !app_assoc. cbn [app]. auto.
Qed.

Lemma issueCalls_facts (op : Operation) :
  existsb isRegistration (issueCalls op) = true /\
  In (registrationCall op) (issueCalls op) /\
  occurrences Cancel (issueCalls op) = 0%nat /\
  occurrences Suspend (issueCalls op) = 0%nat.
Proof.
  destruct op; cbn [issueCalls registrationCall];
    try destruct (0 <? timeout)%Z; cbn; auto.
Qed.

Lemma cancelCalls_passive (op : Operation) :
  forallb passive (cancelCalls op) = true.
Proof. now destruct op. Qed.

(** C3, as the adapter does it: with cancellation already requested when
    the operation is called, an issued operation still registers with the
    transport ([connect], [setReadCB(&cb)], [write] or [writev]), then finds
    the token cancelled on entering [wait], enters [cancel()] once, which
    calls [cancelConnect] for a connect, [setReadCB(nullptr)] and
    [cancelTimeout] for a read and [closeWithReset] for a write, and ends
    with [OperationCancelled] without ever suspending.  The trace is the
    calls of the registration, what the callbacks invoked from inside it
    did ([inl]), [cancel()] with its calls, and what the callbacks invoked
    from inside [cancel()] did ([post]); the last two are empty when the
    transport invokes nothing. *)
Theorem precancelled_operation_registers_then_cancels :
  forall (op : Operation) (env : Env) (s : Socket),
    issues op s = true ->
    tokenCancelled env = true ->
    perform op env s <> Refused ->
    exists inl post,
      let pre := issueCalls op ++ inl in
      perform op env s
      = Done (Some OperationCancelled,
              pre ++ Cancel :: cancelCalls op ++ post) /\
      In (registrationCall op) pre /\
      existsb isRegistration pre = true /\
      occurrences Cancel pre = 0%nat /\
      occurrences Cancel (cancelCalls op ++ post) = 0%nat /\
      occurrences Suspend (pre ++ Cancel :: cancelCalls op ++ post) = 0%nat /\
      forallb passive inl = true /\
      forallb passive (cancelCalls op ++ post) = true /\
      (inlineEvents env = [] -> inl = []) /\
      (closeEvents env = [] -> post = []).
Proof.
  intros op env s Hi Htok Hnr.
  destruct (precancelled_trace op env s Hi Htok Hnr)
    as (inl & post & Hrun & Hl0 & Hl & Hinl & Hcl).
  destruct (issueCalls_facts op) as (Hreg & Hin & Hn & Hsu).
  pose proof (cancelCalls_passive op) as Hcp.
  assert (Hpost : forallb passive (cancelCalls op ++ post) = true)
    by now rewrite forallb_app, Hcp, Hl.
  exists inl, post. cbn zeta.
  split; [exact Hrun|].
  split; [apply in_or_app; now left|].
  split; [now rewrite existsb_app, Hreg|].
  split; [now rewrite occurrences_app, Hn, (passive_occurrences Cancel inl)|].
  split; [now apply passive_occurrences|].
  split; [|auto].
  pose proof (passive_occurrences Suspend _ eq_refl Hpost) as Hs2.
  change (Cancel :: cancelCalls op ++ post)
    with ([Cancel] ++ (cancelCalls op ++ post)).
  rewrite (occurrences_app _ (issueCalls op ++ inl)).
  rewrite (occurrences_app _ [Cancel]), Hs2.
  now rewrite occurrences_app, Hsu, (passive_occurrences Suspend inl).
Qed.

Lemma precancelled_operation_registers_then_cancels_witness :
  exists inl post,
    let op := OpRead (repeat x00 8) 50%Z in
    let pre := issueCalls op ++ inl in
    perform op precancelled_env (mkSocket newSocket false)
    = Done (Some OperationCancelled,
            pre ++ Cancel :: cancelCalls op ++ post) /\
    In (registrationCall op) pre /\
    existsb isRegistration pre = true /\
    occurrences Cancel pre = 0%nat /\
    occurrences Cancel (cancelCalls op ++ post) = 0%nat /\
    occurrences Suspend (pre ++ Cancel :: cancelCalls op ++ post) = 0%nat /\
    forallb passive inl = true /\
    forallb passive (cancelCalls op ++ post) = true /\
    (inlineEvents precancelled_env = [] -> inl = []) /\
    (closeEvents precancelled_env = [] -> post = []).
Proof.
  apply (precancelled_operation_registers_then_cancels
           (OpRead (repeat x00 8) 50%Z) precancelled_env
           (mkSocket newSocket false)).
  - reflexivity.
  - reflexivity.
  - vm_compute. discriminate.
Defined.

(** C3 as it is written fails: with the token cancelled beforehand each of
    the three operations still hands its callback to the transport. *)
Lemma precancelled_operation_reaches_transport :
  perform (OpConnect 50%Z) precancelled_env (mkSocket newSocket false)
  = Done (Some OperationCancelled,
          [CallSetReadCB false; CallConnect 50%Z; Cancel; CallCancelConnect])
  /\
  perform (OpRead (repeat x00 8) 0%Z) precancelled_env (mkSocket newSocket false)
  = Done (Some OperationCancelled,
          [CallSetReadCB true; Cancel; CallSetReadCB false; CallCancelTimeout])
  /\
  perform (OpWrite ["h"; "i"]%byte 0%Z None) precancelled_env
          (mkSocket newSocket false)
  = Done (Some OperationCancelled,
          [CallSetSendTimeout 0%Z; CallWrite 2; Cancel; CallCloseWithReset])
  /\
  existsb isRegistration
    [CallSetReadCB true; Cancel; CallSetReadCB false; CallCancelTimeout] = true.
Proof. repeat split. Qed.

(** ** Reads that go to the transport *)

Lemma readIn_actions mode timeout env s o :
  deferredReadEOF_ s = false ->
  readIn mode timeout env s = Done o ->
  exists l, actions o = trace (issued mode timeout env s) ++ l.
Proof.
  intros Hd. rewrite (readIn_conduct _ _ _ _ Hd).
  destruct (conduct _ _) as [[w m3]| |] eqn:Hc; cbn [bind fst snd];
    try discriminate.
  intros [= <-]. destruct (conduct_trace _ _ _ _ Hc) as (l & Ht & _).
  unfold readResult. destruct w.
  - destruct (error m3).
    + exists l. exact Ht.
    + exists (l ++ [CallSetReadCB false]). cbn [actions setReadCB log trace set_sock].
      now rewrite Ht, app_assoc.
  - exists l. exact Ht.
Qed.

Lemma readIn_registers mode timeout env s o :
  deferredReadEOF_ s = false ->
  readIn mode timeout env s = Done o ->
  In (CallSetReadCB true) (actions o).
Proof.
  intros Hd Hrun. destruct (readIn_actions _ _ _ _ _ Hd Hrun) as (l & ->).
  destruct (issued_facts mode timeout env s)
    as (_ & _ & _ & _ & _ & _ & _ & _ & ->).
  rewrite !in_app_iff. left. right. now left.
Qed.

(** With nothing delivered and no cancellation the read stays suspended. *)
Lemma readIn_silent_pending mode timeout s :
  deferredReadEOF_ s = false ->
  readIn mode timeout (mkEnv false [] [] []) s = Pending.
Proof.
  intros Hd. rewrite (readIn_conduct _ _ _ _ Hd).
  unfold conduct, wait, await, issued, construct, ReadCallback_range,
    ReadCallback_queue, armTimer.
  destruct mode, (0 <? timeout)%Z; reflexivity.
Qed.

(** ** End of stream *)

(** C7: end of stream with no data makes the read return 0 and leaves the
    deferred end-of-stream bit clear, so the next read goes to the
    transport: it installs its callback and, with nothing delivered, stays
    suspended. *)
Theorem read_eof_without_data :
  forall (mode : ReadMode) (timeout : Z) (env : Env) (s : Socket),
    deferredReadEOF_ s = false ->
    tokenCancelled env = false ->
    inlineEvents env = [] ->
    loopEvents env = [EvReadEOF] ->
    exists o,
      readIn mode timeout env s = Done o /\
      result o = Value 0 /\
      deferredReadEOF_ (self o) = false /\
      (forall mode' timeout' env' o',
          readIn mode' timeout' env' (self o) = Done o' ->
          In (CallSetReadCB true) (actions o')) /\
      (forall mode' timeout',
          readIn mode' timeout' (mkEnv false [] [] []) (self o) = Pending).
Proof.
  intros mode timeout env s Hd Htok Hinl Hloop.
  rewrite (readIn_conduct _ _ _ _ Hd).
  destruct env as [tok inl loop close]. cbn in Htok, Hinl, Hloop. subst.
  unfold conduct, wait, await, issued, construct, ReadCallback_range,
    ReadCallback_queue, armTimer.
  destruct mode, (0 <? timeout)%Z; red_model.
  all: eexists; split; [reflexivity|]; red_model.
  all: repeat split.
  all: try (intros mode' timeout' env' o'; now apply readIn_registers).
  all: intros mode' timeout'; now apply readIn_silent_pending.
Qed.

Lemma read_eof_without_data_witness :
  exists o,
    readIn (Fixed (repeat x00 10)) 50%Z eof_env fresh_socket = Done o /\
    result o = Value 0 /\
    deferredReadEOF_ (self o) = false /\
    (forall mode' timeout' env' o',
        readIn mode' timeout' env' (self o) = Done o' ->
        In (CallSetReadCB true) (actions o')) /\
    (forall mode' timeout',
        readIn mode' timeout' (mkEnv false [] [] []) (self o) = Pending).
Proof.
  apply read_eof_without_data; reflexivity.
Defined.

(** ** The read callback, event by event *)

Lemma getReadBuffer_fixed (c : ReadCallback) :
  readBuf_ c = None ->
  getReadBuffer c = (c, (length c, size_sub (size (buf_ c)) (length c))).
Proof. unfold getReadBuffer. now intros ->. Qed.

Lemma deliver_EvReadData_inv (data : list byte) (m m' : Machine ReadCallback) :
  deliver (EvReadData data) m = Some m' ->
  readCallback_ (sock m) = true /\
  0 < size data /\ size data < SIZE_MOD /\
  size data <= snd (snd (getReadBuffer (cb m))) /\
  m' = readDataAvailable (size data)
         (set_cb (fill (fst (snd (getReadBuffer (cb m)))) data
                       (fst (getReadBuffer (cb m)))) m).
Proof.
  cbn [deliver dispatch ReadCallback_callback]. unfold ReadCallback_dispatch.
  destruct (readCallback_ (sock m)); [|discriminate].
  destruct (getReadBuffer (cb m)) as [c1 [off avail]]. cbn [fst snd].
  destruct (0 <? size data) eqn:H0; [|discriminate].
  destruct (size data <=? avail) eqn:H1; [|discriminate].
  destruct (size data <? SIZE_MOD) eqn:H2; [|discriminate].
  cbn [andb]. intros [= <-].
  apply N.ltb_lt in H0, H2. apply N.leb_le in H1. auto.
Qed.

(** A data event in fixed-buffer mode. *)
Lemma deliver_data_fixed (data : list byte) (m m' : Machine ReadCallback) :
  readBuf_ (cb m) = None ->
  deliver (EvReadData data) m = Some m' ->
  readCallback_ (sock m) = true /\
  0 < size data /\ size data < SIZE_MOD /\
  size data <= size_sub (size (buf_ (cb m))) (length (cb m)) /\
  readBuf_ (cb m') = None /\
  length (cb m') = size_add (length (cb m)) (size data) /\
  buf_ (cb m') = store (length (cb m)) data (buf_ (cb m)) /\
  eof (cb m') = eof (cb m) /\ error m' = error m /\ posted m' = true /\
  cancelRequested m' = cancelRequested m /\ observer m' = observer m /\
  (if length (cb m') =? size (buf_ (cb m'))
   then readCallback_ (sock m') = false /\ timer m' = false /\
        trace m' = trace m ++ [CallSetReadCB false; CallCancelTimeout; Post]
   else sock m' = sock m /\ timer m' = timer m /\
        trace m' = trace m ++ [Post]).
Proof.
  intros Hq Hd. apply deliver_EvReadData_inv in Hd as (Hr & H0 & H2 & H1 & ->).
  rewrite (getReadBuffer_fixed _ Hq) in *. cbn [fst snd] in *.
  unfold readDataAvailable, fill. rewrite Hq.
  destruct m as [sk tm cr ob c tr]. destruct c as [b bf rb mn na ln ef].
  red_model. subst rb. red_model.
  repeat (split; [assumption || reflexivity|]).
  destruct (N.eqb _ _) eqn:Hfull; red_model; rewrite Hfull;
    rewrite <- ?app_assoc; repeat split.
Qed.

(** A data event in growing-buffer mode: nothing is deregistered. *)
Lemma deliver_data_growing (data : list byte) (q : IOBufQueue)
  (m m' : Machine ReadCallback) :
  readBuf_ (cb m) = Some q ->
  deliver (EvReadData data) m = Some m' ->
  readCallback_ (sock m) = true /\
  0 < size data /\ size data < SIZE_MOD /\
  (exists q', readBuf_ (cb m') = Some q' /\ chain q' = chain q ++ data) /\
  length (cb m') = size_add (length (cb m)) (size data) /\
  eof (cb m') = eof (cb m) /\ error m' = error m /\ posted m' = true /\
  cancelRequested m' = cancelRequested m /\ observer m' = observer m /\
  sock m' = sock m /\ timer m' = timer m /\ trace m' = trace m ++ [Post].
Proof.
  intros Hq Hd. apply deliver_EvReadData_inv in Hd as (Hr & H0 & H2 & H1 & ->).
  unfold getReadBuffer in *. rewrite Hq in *.
  destruct (preallocate _ _ q) as [q1 len] eqn:Hpre. cbn [fst snd] in *.
  unfold readDataAvailable, fill.
  destruct m as [sk tm cr ob c tr]. destruct c as [b bf rb mn na ln ef].
  red_model. subst rb. red_model.
  repeat (split; [assumption || reflexivity|]).
  split; [|repeat split].
  eexists. split; [reflexivity|]. red_model.
  assert (Hch : chain q1 = chain q /\ size (tailroom q1) = len).
  { unfold preallocate in Hpre.
    destruct (negb (size (tailroom q) =? 0) && (mn <=? size (tailroom q)));
      injection Hpre as <- <-; cbn [chain tailroom]; split; auto.
    unfold size. rewrite repeat_length. apply N2Nat.id. }
  destruct Hch as [-> Hlen]. f_equal.
  unfold store. cbn [N.to_nat firstn app Nat.add].
  unfold size in *. rewrite Nat2N.id.
  rewrite firstn_app, firstn_all, Nat.sub_diag. cbn [firstn].
  apply app_nil_r.
Qed.

Lemma deliver_EvReadEOF_inv (m m' : Machine ReadCallback) :
  deliver EvReadEOF m = Some m' ->
  readCallback_ (sock m) = true /\ m' = readEOF m.
Proof.
  cbn [deliver dispatch ReadCallback_callback ReadCallback_dispatch].
  destruct (readCallback_ (sock m)); [|discriminate]. now intros [= <-].
Qed.

Lemma deliver_EvReadErr_inv ex (m m' : Machine ReadCallback) :
  deliver (EvReadErr ex) m = Some m' ->
  readCallback_ (sock m) = true /\ m' = readErr ex m.
Proof.
  cbn [deliver dispatch ReadCallback_callback ReadCallback_dispatch].
  destruct (readCallback_ (sock m)); [|discriminate]. now intros [= <-].
Qed.

Lemma deliver_EvTimeoutExpired_inv errno (m m' : Machine ReadCallback) :
  deliver (EvTimeoutExpired errno) m = Some m' ->
  timer m = true /\ m' = timeoutExpired errno (set_timer false m).
Proof.
  cbn [deliver dispatch ReadCallback_callback ReadCallback_dispatch].
  destruct (timer m); [|discriminate]. now intros [= <-].
Qed.

(** Only read events, the timer and cancellation reach a read callback. *)
Lemma deliver_read_event (e : Event) (m m' : Machine ReadCallback) :
  deliver e m = Some m' ->
  match e with
  | EvReadData _ | EvReadEOF | EvReadErr _ | EvTimeoutExpired _
  | EvCancellation => True
  | _ => False
  end.
Proof. destruct e; cbn; auto; discriminate. Qed.

(** ** Finished read callbacks *)

Lemma finished_deliver (e : Event) (m m' : Machine ReadCallback) :
  finished m = true -> deliver e m = Some m' ->
  e = EvCancellation /\ finished m' = true.
Proof.
  unfold finished. intros Hf. apply andb_prop in Hf as [Hr Ht].
  apply negb_true_iff in Hr, Ht.
  destruct e; cbn [deliver dispatch ReadCallback_callback ReadCallback_dispatch];
    rewrite ?Hr, ?Ht; try discriminate.
  destruct (cancelRequested m); [discriminate|]. intros [= <-].
  split; [reflexivity|]. destruct (observer m); cbn; now rewrite Hr, Ht.
Qed.

(** No transport event is delivered to a finished read callback. *)
Lemma finished_deliverAll (es : list Event) (m m' : Machine ReadCallback) :
  finished m = true -> existsb isCancellation es = false ->
  deliverAll es m = Some m' -> es = [] /\ m' = m.
Proof.
  intros Hf Hn. destruct es as [|e es]; cbn [deliverAll].
  - now intros [= <-].
  - destruct (deliver e m) as [m1|] eqn:Hd; [|discriminate].
    destruct (finished_deliver _ _ _ Hf Hd) as [-> _]. discriminate.
Qed.

(** End of stream, an error and the expiry of the timer deregister first
    and leave the callback finished. *)
Lemma terminal_deliver (e : Event) (m m' : Machine ReadCallback) :
  terminal e = true -> deliver e m = Some m' ->
  finished m' = true /\
  exists rest, trace m' = trace m ++ CallSetReadCB false :: rest.
Proof.
  destruct e; try discriminate; intros _ Hd.
  - apply deliver_EvReadEOF_inv in Hd as [_ ->]. split; [reflexivity|].
    eexists. cbn. rewrite <- !app_assoc. reflexivity.
  - apply deliver_EvReadErr_inv in Hd as [_ ->]. split; [reflexivity|].
    eexists. cbn. rewrite <- !app_assoc. reflexivity.
  - apply deliver_EvTimeoutExpired_inv in Hd as [_ ->].
    unfold timeoutExpired. red_model.
    destruct (N.eqb _ _); split; try reflexivity.
    + eexists. cbn. rewrite <- !app_assoc. reflexivity.
    + eexists. cbn. reflexivity.
Qed.

(** ** Suspension *)

Section Suspension.
Context {C : Type} `{CallbackLaws C}.

Lemma conduct_suspends (env : Env) (m : Machine C) :
  inlineEvents env = [] ->
  cancelRequested m = false -> posted m = false ->
  conduct env m =
  (m2 <- reactor (loopEvents env) (log Suspend (set_observer true m)) ;;
   resume env m2).
Proof.
  intros Hinl Hc Hp. unfold conduct, wait, await, resume. rewrite Hinl.
  cbn [reactor deliverAll bind]. rewrite Hc.
  change (posted (set_observer true m)) with (posted m). rewrite Hp.
  destruct (reactor _ _) as [m2| |]; cbn [bind]; try reflexivity.
  destruct (posted m2); reflexivity.
Qed.

Lemma conduct_suspends_delivered (env : Env) (m : Machine C) :
  inlineEvents env = [] ->
  cancelRequested m = false -> posted m = false ->
  conduct env m <> Refused ->
  exists m2,
    deliverAll (loopEvents env) (log Suspend (set_observer true m)) = Some m2
    /\ conduct env m = resume env m2.
Proof.
  intros Hinl Hc Hp Hnr. rewrite (conduct_suspends _ _ Hinl Hc Hp) in *.
  unfold reactor in *.
  destruct (deliverAll _ _) as [m2|]; cbn [bind] in *; [|congruence].
  now exists m2.
Qed.
End Suspension.

(** ** Data and end of stream in one run *)

(** C1: when the reactor delivers N > 0 bytes and then end of stream
    before the read resumes, the read returns N and sets the deferred
    end-of-stream bit; the next read, in either mode and whatever the
    environment, returns 0 at once: it does nothing on the transport, does
    not suspend, and clears the bit. *)
Theorem read_data_and_eof_defers :
  forall (mode : ReadMode) (timeout : Z) (env : Env) (s : Socket)
         (data : list byte),
    deferredReadEOF_ s = false ->
    tokenCancelled env = false ->
    inlineEvents env = [] ->
    loopEvents env = [EvReadData data; EvReadEOF] ->
    readIn mode timeout env s <> Refused ->
    exists o,
      readIn mode timeout env s = Done o /\
      0 < size data /\
      result o = Value (size data) /\
      deferredReadEOF_ (self o) = true /\
      forall mode' timeout' env',
        readIn mode' timeout' env' (self o) =
        Done (mkOutcome (Value 0) (mkSocket (socket_ (self o)) false)
                        (untouched mode') []).
Proof.
  intros mode timeout env s data Hd Htok Hinl Hloop.
  rewrite (readIn_conduct _ _ _ _ Hd). intros Hnr.
  apply bind_not_Refused in Hnr.
  destruct (issued_facts mode timeout env s)
    as (Hc0 & Ho0 & Hp0 & He0 & Hr0 & Hl0 & Hf0 & _).
  rewrite Htok in Hc0.
  destruct (conduct_suspends_delivered env _ Hinl Hc0 Hp0 Hnr)
    as (m2 & Hdel & ->).
  rewrite Hloop in Hdel. cbn [deliverAll] in Hdel.
  destruct (deliver (EvReadData data) _) as [m1|] eqn:Hd1; [|discriminate].
  destruct (deliver EvReadEOF m1) as [m2'|] eqn:Hd2; [|discriminate].
  injection Hdel as ->.
  apply deliver_EvReadEOF_inv in Hd2 as [Hr1 ->].
  assert (Hm1 : 0 < size data /\ size data < SIZE_MOD /\
                length (cb m1) = size data /\ error m1 = None /\
                cancelRequested m1 = false).
  { destruct (readBuf_ (cb (issued mode timeout env s))) as [q|] eqn:Hq.
    - assert (Hq' : readBuf_ (cb (log Suspend (set_observer true
                       (issued mode timeout env s)))) = Some q) by exact Hq.
      destruct (deliver_data_growing _ _ _ _ Hq' Hd1)
        as (_ & H0 & H2 & _ & Hlen & _ & Herr & _ & Hc & _).
      cbn [log set_observer cb] in Hlen. rewrite Hl0 in Hlen.
      rewrite size_add_small in Hlen by (rewrite N.add_0_l; exact H2).
      rewrite N.add_0_l in Hlen. rewrite Herr, Hc.
      split; [exact H0|]. split; [exact H2|]. split; [exact Hlen|].
      split; [exact He0 | exact Hc0].
    - assert (Hq' : readBuf_ (cb (log Suspend (set_observer true
                       (issued mode timeout env s)))) = None) by exact Hq.
      destruct (deliver_data_fixed _ _ _ Hq' Hd1)
        as (_ & H0 & H2 & _ & _ & Hlen & _ & _ & Herr & _ & Hc & _).
      cbn [log set_observer cb] in Hlen. rewrite Hl0 in Hlen.
      rewrite size_add_small in Hlen by (rewrite N.add_0_l; exact H2).
      rewrite N.add_0_l in Hlen. rewrite Herr, Hc.
      split; [exact H0|]. split; [exact H2|]. split; [exact Hlen|].
      split; [exact He0 | exact Hc0]. }
  destruct Hm1 as (H0 & H2 & Hlen & Herr & Hc).
  unfold resume. cbn [bind]. red_model.
  rewrite Hc. cbn [bind fst snd]. unfold readResult. red_model.
  unfold error in Herr. cbn in Herr. rewrite Herr, Hlen.
  eexists. split; [reflexivity|]. red_model.
  apply N.ltb_lt in H0 as H0'. rewrite H0'.
  repeat split; auto.
  intros mode' timeout' env'. now rewrite readIn_deferred.
Qed.

Lemma read_data_and_eof_defers_witness :
  exists o,
    readIn (Fixed (repeat x00 10)) 0%Z data_eof_env fresh_socket = Done o /\
    0 < size ["d"; "a"; "t"; "a"]%byte /\
    result o = Value (size ["d"; "a"; "t"; "a"]%byte) /\
    deferredReadEOF_ (self o) = true /\
    forall mode' timeout' env',
      readIn mode' timeout' env' (self o) =
      Done (mkOutcome (Value 0) (mkSocket (socket_ (self o)) false)
                      (untouched mode') []).
Proof.
  apply read_data_and_eof_defers.
  - reflexivity.
  - reflexivity.
  - reflexivity.
  - reflexivity.
  - vm_compute. discriminate.
Defined.

(** ** The fixed buffer *)

Lemma store_length (off : N) (data region : list byte) :
  (N.to_nat off + List.length data <= List.length region)%nat ->
  List.length (store off data region) = List.length region.
Proof.
  intros Hle. unfold store.
  rewrite !length_app, length_firstn, length_skipn. lia.
Qed.

Lemma store_prefix (off : N) (data region : list byte) :
  (N.to_nat off <= List.length region)%nat ->
  firstn (N.to_nat off + List.length data) (store off data region) =
  firstn (N.to_nat off) region ++ data.
Proof.
  intros Hle. unfold store.
  assert (Hl : List.length (firstn (N.to_nat off) region) = N.to_nat off)
    by (rewrite length_firstn; lia).
  rewrite <- Hl at 1. rewrite firstn_app_2, firstn_app, firstn_all, Nat.sub_diag.
  cbn [firstn]. now rewrite app_nil_r.
Qed.

(** One data event on a fixed buffer that is within bounds. *)
Lemma fixed_step (S : N) (data : list byte) (m m' : Machine ReadCallback) :
  S < SIZE_MOD -> FixedInv S (cb m) ->
  deliver (EvReadData data) m = Some m' ->
  length (cb m') = length (cb m) + size data /\
  buf_ (cb m') = store (length (cb m)) data (buf_ (cb m)) /\
  FixedInv S (cb m').
Proof.
  intros HS (Hq & Hsz & Hle) Hd.
  destruct (deliver_data_fixed _ _ _ Hq Hd)
    as (_ & H0 & H2 & Hav & Hq' & Hlen & Hbuf & _).
  rewrite Hsz, size_sub_small in Hav by lia.
  rewrite size_add_small in Hlen by lia.
  split; [exact Hlen|]. split; [exact Hbuf|].
  split; [exact Hq'|]. split; [|lia].
  rewrite Hbuf. unfold size in *. rewrite store_length; [exact Hsz|lia].
Qed.

Lemma FixedInv_deliver (S : N) (e : Event) (m m' : Machine ReadCallback) :
  S < SIZE_MOD -> FixedInv S (cb m) -> deliver e m = Some m' ->
  FixedInv S (cb m').
Proof.
  intros HS Hinv Hd. destruct e; try (now apply deliver_read_event in Hd).
  - now apply (fixed_step S data m m').
  - apply deliver_EvReadEOF_inv in Hd as [_ ->]. exact Hinv.
  - apply deliver_EvReadErr_inv in Hd as [_ ->]. exact Hinv.
  - apply deliver_EvTimeoutExpired_inv in Hd as [_ ->].
    unfold timeoutExpired. red_model. now destruct (N.eqb _ _).
  - apply requestCancellation_inv in Hd as [_ ->].
    now destruct (observer m).
Qed.

Lemma FixedInv_deliverAll (S : N) (es : list Event)
  (m m' : Machine ReadCallback) :
  S < SIZE_MOD -> FixedInv S (cb m) -> deliverAll es m = Some m' ->
  FixedInv S (cb m').
Proof.
  intros HS. revert m. induction es as [|e es IH]; intros m Hinv;
    cbn [deliverAll].
  - now intros [= <-].
  - destruct (deliver e m) as [m1|] eqn:Hd; [|discriminate].
    apply IH. eapply FixedInv_deliver; eauto.
Qed.

(** C9: a fixed-buffer read into [S] bytes never returns more than [S] and
    leaves the extent of the caller's range as it was; at every data event
    the buffer offered to the transport is the unfilled remainder of the
    range, from the running length to its end. *)
Theorem fixed_read_stays_within_buffer :
  forall (buf : list byte) (timeout : Z) (env : Env) (s : Socket),
    size buf < SIZE_MOD ->
    (forall o n,
        read buf timeout env s = Done o -> result o = Value n ->
        n <= size buf /\ size (fst (memory o)) = size buf) /\
    (forall es m,
        deliverAll es (issued (Fixed buf) timeout env s) = Some m ->
        length (cb m) <= size buf /\
        getReadBuffer (cb m) =
        (cb m, (length (cb m), size buf - length (cb m)))).
Proof.
  intros buf timeout env s HS.
  assert (Hinit : FixedInv (size buf) (cb (issued (Fixed buf) timeout env s))).
  { unfold issued, construct, ReadCallback_range, armTimer.
    destruct (0 <? timeout)%Z; repeat split; apply N.le_0_l. }
  split.
  - intros o n Hrun Hres.
    destruct (deferredReadEOF_ s) eqn:Hd.
    + change (read buf timeout env s) with (readIn (Fixed buf) timeout env s)
        in Hrun.
      rewrite (readIn_deferred _ _ _ _ Hd) in Hrun. injection Hrun as <-.
      cbn in *. injection Hres as <-. split; [lia | reflexivity].
    + change (read buf timeout env s) with (readIn (Fixed buf) timeout env s)
        in Hrun.
      rewrite (readIn_conduct _ _ _ _ Hd) in Hrun.
      destruct (conduct _ _) as [[w m3]| |] eqn:Hc; cbn [bind fst snd] in Hrun;
        try discriminate.
      injection Hrun as <-.
      assert (Hinv : FixedInv (size buf) (cb m3)).
      { apply (conduct_cb_invariant (FixedInv (size buf)) env _ _ _
                 (fun es m1 m2 _ Hm => FixedInv_deliverAll _ es m1 m2 HS Hm)
                 Hinit Hc). }
      destruct Hinv as (_ & Hsz & Hle).
      unfold readResult in *. destruct w; [|discriminate].
      destruct (error m3); [discriminate|].
      cbn in Hres |- *. injection Hres as <-. auto.
  - intros es m Hdel.
    destruct (FixedInv_deliverAll _ _ _ _ HS Hinit Hdel) as (Hq & Hsz & Hle).
    split; [exact Hle|].
    rewrite (getReadBuffer_fixed _ Hq), Hsz, size_sub_small by lia.
    reflexivity.
Qed.

Lemma fixed_read_stays_within_buffer_witness :
  (forall o n,
      read (repeat x00 10) 0%Z data_eof_env fresh_socket = Done o ->
      result o = Value n ->
      n <= size (repeat x00 10) /\
      size (fst (memory o)) = size (repeat x00 10)) /\
  (forall es m,
      deliverAll es (issued (Fixed (repeat x00 10)) 0%Z data_eof_env
                            fresh_socket) = Some m ->
      length (cb m) <= size (repeat x00 10) /\
      getReadBuffer (cb m) =
      (cb m, (length (cb m), size (repeat x00 10) - length (cb m)))).
Proof.
  apply fixed_read_stays_within_buffer. reflexivity.
Defined.

(** ** Data events *)

(** C8: in fixed-buffer mode a data event puts the delivered bytes behind
    the bytes already read, advances the running length by their number,
    and deregisters the read callback and cancels the timer exactly when
    the range is then full; in growing-buffer mode it appends the bytes to
    the queue and never deregisters.  In both modes it posts. *)
Theorem data_event_accumulates :
  forall (data : list byte) (m m' : Machine ReadCallback),
    deliver (EvReadData data) m = Some m' ->
    (readBuf_ (cb m) = None ->
     length (cb m) <= size (buf_ (cb m)) /\ size (buf_ (cb m)) < SIZE_MOD) ->
    posted m' = true /\
    match readBuf_ (cb m) with
    | None =>
        length (cb m') = length (cb m) + size data /\
        length (cb m') <= size (buf_ (cb m)) /\
        size (buf_ (cb m')) = size (buf_ (cb m)) /\
        firstn (N.to_nat (length (cb m'))) (buf_ (cb m')) =
          firstn (N.to_nat (length (cb m))) (buf_ (cb m)) ++ data /\
        (length (cb m') = size (buf_ (cb m)) ->
         readCallback_ (sock m') = false /\ timer m' = false /\
         trace m' = trace m ++ [CallSetReadCB false; CallCancelTimeout; Post]) /\
        (length (cb m') <> size (buf_ (cb m)) ->
         sock m' = sock m /\ timer m' = timer m /\
         trace m' = trace m ++ [Post])
    | Some q =>
        sock m' = sock m /\ timer m' = timer m /\
        trace m' = trace m ++ [Post] /\
        length (cb m') = size_add (length (cb m)) (size data) /\
        exists q', readBuf_ (cb m') = Some q' /\ chain q' = chain q ++ data
    end.
Proof.
  intros data m m' Hd Hfix.
  destruct (readBuf_ (cb m)) as [q|] eqn:Hq.
  - destruct (deliver_data_growing _ _ _ _ Hq Hd)
      as (_ & _ & _ & Hq' & Hlen & _ & _ & Hp & _ & _ & Hs & Ht & Htr).
    auto 10.
  - destruct (Hfix eq_refl) as [Hle HS].
    destruct (fixed_step _ _ _ _ HS (conj Hq (conj eq_refl Hle)) Hd)
      as (Hlen & Hbuf & _ & Hsz & Hle').
    destruct (deliver_data_fixed _ _ _ Hq Hd)
      as (_ & _ & _ & _ & _ & _ & _ & _ & _ & Hp & _ & _ & Hfull).
    split; [exact Hp|]. split; [exact Hlen|]. split; [exact Hle'|].
    split; [exact Hsz|]. split.
    + rewrite Hbuf, Hlen. unfold size. rewrite N2Nat.inj_add, Nat2N.id.
      apply store_prefix. unfold size in Hle. lia.
    + rewrite Hsz in Hfull. split; intros Hcmp.
      * apply N.eqb_eq in Hcmp. now rewrite Hcmp in Hfull.
      * apply N.eqb_neq in Hcmp. now rewrite Hcmp in Hfull.
Qed.

Lemma data_event_accumulates_witness :
  exists m',
    deliver (EvReadData ["d"; "a"; "t"; "a"]%byte) four_byte_read = Some m' /\
    posted m' = true /\
    length (cb m') = length (cb four_byte_read) + 4 /\
    length (cb m') <= size (buf_ (cb four_byte_read)) /\
    size (buf_ (cb m')) = size (buf_ (cb four_byte_read)) /\
    firstn (N.to_nat (length (cb m'))) (buf_ (cb m')) =
      firstn (N.to_nat (length (cb four_byte_read))) (buf_ (cb four_byte_read))
      ++ ["d"; "a"; "t"; "a"]%byte /\
    (length (cb m') = size (buf_ (cb four_byte_read)) ->
     readCallback_ (sock m') = false /\ timer m' = false /\
     trace m' = trace four_byte_read
                ++ [CallSetReadCB false; CallCancelTimeout; Post]) /\
    (length (cb m') <> size (buf_ (cb four_byte_read)) ->
     sock m' = sock four_byte_read /\ timer m' = timer four_byte_read /\
     trace m' = trace four_byte_read ++ [Post]).
Proof.
  eexists. split; [reflexivity|].
  apply (data_event_accumulates ["d"; "a"; "t"; "a"]%byte four_byte_read
           _ eq_refl).
  intros _. split; [discriminate | reflexivity].
Defined.

(** ** The timer *)

Lemma size_add_lt (a b : N) : size_add a b < SIZE_MOD.
Proof. unfold size_add. apply N.mod_lt. discriminate. Qed.

(** Nothing arms the timer again. *)
Lemma timer_stays_off (e : Event) (m m' : Machine ReadCallback) :
  deliver e m = Some m' -> timer m = false -> timer m' = false.
Proof.
  intros Hd Ht. destruct e; try (now apply deliver_read_event in Hd).
  - destruct (readBuf_ (cb m)) as [q|] eqn:Hq.
    + destruct (deliver_data_growing _ _ _ _ Hq Hd)
        as (_ & _ & _ & _ & _ & _ & _ & _ & _ & _ & _ & -> & _). exact Ht.
    + destruct (deliver_data_fixed _ _ _ Hq Hd)
        as (_ & _ & _ & _ & _ & _ & _ & _ & _ & _ & _ & _ & Hfull).
      destruct (N.eqb _ _); [tauto|].
      destruct Hfull as (_ & -> & _). exact Ht.
  - apply deliver_EvReadEOF_inv in Hd as [_ ->]. reflexivity.
  - apply deliver_EvReadErr_inv in Hd as [_ ->]. reflexivity.
  - apply deliver_EvTimeoutExpired_inv in Hd as [Ht' _]. congruence.
  - apply requestCancellation_inv in Hd as [_ ->].
    destruct (observer m); exact Ht.
Qed.

Lemma timer_stays_off_all (es : list Event) (m m' : Machine ReadCallback) :
  deliverAll es m = Some m' -> timer m = false -> timer m' = false.
Proof.
  revert m. induction es as [|e es IH]; intros m; cbn [deliverAll].
  - now intros [= <-].
  - destruct (deliver e m) as [m1|] eqn:Hd; [|discriminate].
    intros Hr Ht. apply (IH _ Hr). eapply timer_stays_off; eauto.
Qed.

(** An event after which the timer is still armed was a data event that
    left the callback installed. *)
Lemma deliver_alive (e : Event) (m m' : Machine ReadCallback) :
  deliver e m = Some m' -> isCancellation e = false -> timer m' = true ->
  exists data, e = EvReadData data /\ 0 < size data /\
    length (cb m') = size_add (length (cb m)) (size data) /\
    error m' = error m /\ eof (cb m') = eof (cb m) /\ posted m' = true /\
    cancelRequested m' = cancelRequested m.
Proof.
  intros Hd Hn Ht.
  destruct (terminal e) eqn:Hterm.
  - destruct (terminal_deliver _ _ _ Hterm Hd) as [Hf _].
    unfold finished in Hf. rewrite Ht, andb_false_r in Hf. discriminate.
  - destruct e; try discriminate; try (now apply deliver_read_event in Hd).
    exists data. split; [reflexivity|].
    destruct (readBuf_ (cb m)) as [q|] eqn:Hq.
    + destruct (deliver_data_growing _ _ _ _ Hq Hd)
        as (_ & H0 & _ & _ & Hlen & Heof & Herr & Hp & Hc & _).
      auto 10.
    + destruct (deliver_data_fixed _ _ _ Hq Hd)
        as (_ & H0 & _ & _ & _ & Hlen & _ & Heof & Herr & Hp & Hc & _).
      auto 10.
Qed.

(** While the timer is armed only data has arrived. *)
Lemma armed_prefix (pre : list Event) (m m1 : Machine ReadCallback) :
  deliverAll pre m = Some m1 ->
  existsb isCancellation pre = false ->
  timer m1 = true ->
  length (cb m) < SIZE_MOD ->
  length (cb m1) = size_add (length (cb m)) (bytesDelivered pre) /\
  error m1 = error m /\ eof (cb m1) = eof (cb m) /\
  cancelRequested m1 = cancelRequested m /\
  ((pre = [] /\ m1 = m) \/ (0 < bytesDelivered pre /\ posted m1 = true)).
Proof.
  revert m. induction pre as [|e pre IH]; intros m; cbn [deliverAll existsb].
  - intros [= <-] _ _ Hlt. unfold size_add. cbn [bytesDelivered].
    rewrite N.add_0_r, N.mod_small by exact Hlt. auto 10.
  - destruct (deliver e m) as [M1|] eqn:Hd; [|discriminate].
    intros Hr Hn Ht Hlt. apply orb_false_elim in Hn as [He Hn].
    assert (HtM : timer M1 = true).
    { destruct (timer M1) eqn:HtM; [reflexivity|].
      rewrite (timer_stays_off_all _ _ _ Hr HtM) in Ht. discriminate. }
    destruct (deliver_alive _ _ _ Hd He HtM)
      as (data & -> & H0 & Hlen & Herr & Heof & Hp & Hc).
    assert (HltM : length (cb M1) < SIZE_MOD)
      by (rewrite Hlen; apply size_add_lt).
    destruct (IH _ Hr Hn Ht HltM) as (Hlen1 & Herr1 & Heof1 & Hc1 & Hcase).
    cbn [bytesDelivered].
    split; [now rewrite Hlen1, Hlen, size_add_assoc_mod|].
    split; [congruence|]. split; [congruence|]. split; [congruence|].
    right. split; [lia|].
    destruct Hcase as [[-> ->] | [_ Hp1]]; assumption.
Qed.

(** C4: let the timer of a read fire after the events [pre], with no
    cancellation requested.  The timer was armed, so the timeout is
    positive.  If no byte has been read by then, the expiry deregisters the
    read callback, records the timed-out error and posts, and the read ends
    with that error.  If bytes have been read, the expiry only deregisters:
    it records no error and does not post, and the read returns the number
    of bytes read. *)
Theorem read_timer_expiry :
  forall (mode : ReadMode) (timeout : Z) (env : Env) (s : Socket)
         (pre post : list Event) (errno : Z),
    deferredReadEOF_ s = false ->
    tokenCancelled env = false ->
    inlineEvents env = [] ->
    loopEvents env = pre ++ EvTimeoutExpired errno :: post ->
    existsb isCancellation (loopEvents env) = false ->
    bytesDelivered pre < SIZE_MOD ->
    readIn mode timeout env s <> Refused ->
    exists o m1 m1',
      readIn mode timeout env s = Done o /\
      (0 < timeout)%Z /\
      deliverAll pre (log Suspend (set_observer true
                        (issued mode timeout env s))) = Some m1 /\
      deliver (EvTimeoutExpired errno) m1 = Some m1' /\
      length (cb m1) = bytesDelivered pre /\
      if bytesDelivered pre =? 0 then
        trace m1' = trace m1 ++ [CallSetReadCB false; Post] /\
        readCallback_ (sock m1') = false /\
        error m1' = Some (SocketError (timedOut errno)) /\
        result o = Exception (SocketError (timedOut errno))
      else
        trace m1' = trace m1 ++ [CallSetReadCB false] /\
        error m1' = None /\
        result o = Value (bytesDelivered pre).
Proof.
  intros mode timeout env s pre post errno Hd Htok Hinl Hloop Hnc Hbytes.
  rewrite (readIn_conduct _ _ _ _ Hd). intros Hnr.
  apply bind_not_Refused in Hnr.
  destruct (issued_facts mode timeout env s)
    as (Hc0 & Ho0 & Hp0 & He0 & Hr0 & Hl0 & Hf0 & Ht0 & _).
  rewrite Htok in Hc0.
  destruct (conduct_suspends_delivered env _ Hinl Hc0 Hp0 Hnr)
    as (m2 & Hdel & ->).
  set (M0 := log Suspend (set_observer true (issued mode timeout env s))) in *.
  rewrite Hloop in Hdel, Hnc. rewrite deliverAll_app in Hdel.
  rewrite existsb_app in Hnc. apply orb_false_elim in Hnc as [Hnpre Hnpost].
  cbn [existsb isCancellation orb] in Hnpost.
  destruct (deliverAll pre M0) as [m1|] eqn:Hpre; [|discriminate].
  cbn [deliverAll] in Hdel.
  destruct (deliver (EvTimeoutExpired errno) m1) as [m1'|] eqn:Hfire;
    [|discriminate].
  pose proof Hfire as Hfire'.
  apply deliver_EvTimeoutExpired_inv in Hfire' as [Htimer Hm1'].
  assert (Hfin : finished m1' = true)
    by (apply (terminal_deliver (EvTimeoutExpired errno) m1 m1' eq_refl Hfire)).
  destruct (finished_deliverAll _ _ _ Hfin Hnpost Hdel) as [-> ->].
  assert (HltM0 : length (cb M0) < SIZE_MOD)
    by (change (length (cb M0)) with (length (cb (issued mode timeout env s)));
        rewrite Hl0; reflexivity).
  destruct (armed_prefix _ _ _ Hpre Hnpre Htimer HltM0)
    as (Hlen & Herr & Heof & Hc & Hcase).
  change (length (cb M0)) with (length (cb (issued mode timeout env s))) in Hlen.
  change (error M0) with (error (issued mode timeout env s)) in Herr.
  change (cancelRequested M0)
    with (cancelRequested (issued mode timeout env s)) in Hc.
  rewrite Hl0 in Hlen. rewrite He0 in Herr. rewrite Hc0 in Hc.
  rewrite size_add_small in Hlen by (rewrite N.add_0_l; exact Hbytes).
  rewrite N.add_0_l in Hlen.
  assert (Harmed : (0 < timeout)%Z).
  { apply Z.ltb_lt. rewrite <- Ht0.
    destruct (timer (issued mode timeout env s)) eqn:Hti; [reflexivity|].
    assert (HtM0 : timer M0 = false) by exact Hti.
    rewrite (timer_stays_off_all _ _ _ Hpre HtM0) in Htimer. discriminate. }
  unfold resume. subst m1'. unfold timeoutExpired in *.
  unfold error in Herr. destruct m1 as [sk tm cr ob c tr].
  destruct c as [b bf rb mn na ln ef]. red_model. subst ln cr.
  destruct (bytesDelivered pre =? 0) eqn:Hz; red_model.
  - eexists. exists {| sock := sk; timer := tm; cancelRequested := false;
                        observer := ob;
                        cb := mkReadCallback b bf rb mn na (bytesDelivered pre) ef;
                        trace := tr |}.
    eexists. split; [reflexivity|]. split; [exact Harmed|].
    split; [reflexivity|]. red_model. rewrite Htimer.
    split; [reflexivity|]. split; [reflexivity|].
    unfold timeoutExpired. red_model. rewrite Hz. red_model.
    rewrite <- ?app_assoc. repeat split.
  - destruct Hcase as [[-> _] | [_ Hp]]; [discriminate Hz|].
    unfold posted in *. red_model. rewrite Hp. cbn [bind fst snd].
    unfold readResult, error. red_model. rewrite Herr.
    eexists. exists {| sock := sk; timer := tm; cancelRequested := false;
                        observer := ob;
                        cb := mkReadCallback b bf rb mn na (bytesDelivered pre) ef;
                        trace := tr |}.
    eexists. split; [reflexivity|]. split; [exact Harmed|].
    split; [reflexivity|]. red_model. rewrite Htimer.
    split; [reflexivity|]. split; [reflexivity|].
    unfold timeoutExpired. red_model. rewrite Hz. red_model.
    rewrite ?Herr. repeat split.
Qed.

Lemma read_timer_expiry_witness :
  exists o m1 m1',
    readIn (Fixed (repeat x00 10)) 50%Z late_timer_env fresh_socket = Done o /\
    (0 < 50)%Z /\
    deliverAll [EvReadData ["a"; "b"; "c"]%byte]
      (log Suspend (set_observer true
         (issued (Fixed (repeat x00 10)) 50%Z late_timer_env fresh_socket)))
    = Some m1 /\
    deliver (EvTimeoutExpired 110%Z) m1 = Some m1' /\
    length (cb m1) = bytesDelivered [EvReadData ["a"; "b"; "c"]%byte] /\
    if bytesDelivered [EvReadData ["a"; "b"; "c"]%byte] =? 0 then
      trace m1' = trace m1 ++ [CallSetReadCB false; Post] /\
      readCallback_ (sock m1') = false /\
      error m1' = Some (SocketError (timedOut 110%Z)) /\
      result o = Exception (SocketError (timedOut 110%Z))
    else
      trace m1' = trace m1 ++ [CallSetReadCB false] /\
      error m1' = None /\
      result o = Value (bytesDelivered [EvReadData ["a"; "b"; "c"]%byte]).
Proof.
  apply (read_timer_expiry (Fixed (repeat x00 10)) 50%Z late_timer_env
           fresh_socket [EvReadData ["a"; "b"; "c"]%byte] [] 110%Z).
  - reflexivity.
  - reflexivity.
  - reflexivity.
  - reflexivity.
  - reflexivity.
  - reflexivity.
  - vm_compute. discriminate.
Defined.

(** ** Writes *)

Lemma writeIn_conduct form timeout writeInfo env s :
  writeIn form timeout writeInfo env s =
  (r <- conduct env (writeIssued (submitCall form) timeout env s) ;;
   Done (writeResult writeInfo s r)).
Proof. destruct form; apply writeWith_conduct. Qed.

Lemma deliver_write_bytes (env : Env) (es : list Event)
  (m m' : Machine WriteCallback) :
  incl es (allEvents env) ->
  reportedBy env (bytesWritten (cb m)) ->
  deliverAll es m = Some m' ->
  reportedBy env (bytesWritten (cb m')).
Proof.
  revert m. induction es as [|e es IH]; intros m Hincl Hm; cbn [deliverAll].
  - now intros [= <-].
  - destruct (deliver e m) as [m1|] eqn:Hd; [|discriminate].
    apply IH; [intros x Hx; apply Hincl; now right|].
    assert (He : In e (allEvents env)) by (apply Hincl; now left).
    destruct e; cbn [deliver dispatch WriteCallback_callback
                     WriteCallback_dispatch] in Hd; try discriminate.
    + destruct (writePending_ (sock m)); [|discriminate].
      injection Hd as <-. exact Hm.
    + destruct (writePending_ (sock m) && (bytes <? SIZE_MOD));
        [|discriminate].
      injection Hd as <-. right. exists ex. exact He.
    + destruct (cancelRequested m); [discriminate|]. injection Hd as <-.
      destruct (observer _); exact Hm.
Qed.

(** C5: a write that fails after [k] bytes ends with the error the
    transport reported, and a supplied [writeInfo] then holds [k]; this is
    so whether the failure is reported while the write is suspended or from
    inside the submitting call.  Whenever a write ends with an error,
    cancellation included, a supplied [writeInfo] has been set to the
    callback's byte count, which is 0 or the count a write-error event
    reported; when none is supplied there is nothing to set. *)
Theorem write_failure_populates_writeInfo :
  forall (form : WriteForm) (timeout : Z) (writeInfo : option WriteInfo)
         (env : Env) (s : Socket),
    (forall k ex,
        tokenCancelled env = false ->
        k < SIZE_MOD ->
        inlineEvents env = [EvWriteErr k ex] \/
        (inlineEvents env = [] /\ loopEvents env = [EvWriteErr k ex]) ->
        exists o,
          writeIn form timeout writeInfo env s = Done o /\
          result o = Exception (SocketError ex) /\
          memory o = match writeInfo with
                     | Some _ => Some (mkWriteInfo k)
                     | None => None
                     end) /\
    (forall o e,
        writeIn form timeout writeInfo env s = Done o ->
        result o = Exception e ->
        match writeInfo with
        | Some _ => exists n, memory o = Some (mkWriteInfo n) /\ reportedBy env n
        | None => memory o = None
        end).
Proof.
  intros form timeout writeInfo env s. rewrite writeIn_conduct. split.
  - intros k ex Htok Hk Hev. apply N.ltb_lt in Hk.
    destruct env as [tok inl loop close]. cbn in Htok, Hev. subst tok.
    unfold conduct, wait, await, writeIssued.
    destruct Hev as [-> | [-> ->]].
    + unfold reactor. red_model. rewrite Hk. red_model.
      eexists. split; [reflexivity|]. split; [reflexivity|].
      now destruct writeInfo.
    + unfold reactor. red_model. rewrite Hk. red_model.
      eexists. split; [reflexivity|]. split; [reflexivity|].
      now destruct writeInfo.
  - intros o e Hrun Hres.
    destruct (conduct _ _) as [[w m3]| |] eqn:Hc; cbn [bind] in Hrun;
      try discriminate.
    injection Hrun as <-.
    assert (Hrep : reportedBy env (bytesWritten (cb m3))).
    { apply (conduct_cb_invariant
               (fun c => reportedBy env (bytesWritten c)) env _ _ _)
        with (3 := Hc); [|now left].
      intros es m1 m2 Hes Hm1 Hdel.
      apply (deliver_write_bytes env es m1 m2); auto.
      unfold allEvents. intros x Hx. rewrite !in_app_iff.
      destruct Hes as [-> | [-> | ->]]; auto. }
    unfold writeResult in *. cbn [fst snd] in *.
    destruct w as [u|e'].
    + destruct (WriteCallback_error (cb m3)); [|discriminate].
      destruct writeInfo; cbn; eauto.
    + destruct writeInfo; cbn; eauto.
Qed.

Lemma write_failure_populates_writeInfo_witness :
  exists o,
    writeIn (Single (repeat x00 100)) 0%Z (Some (mkWriteInfo 0))
            write_fails_env fresh_socket = Done o /\
    result o = Exception (SocketError write_failure) /\
    memory o = Some (mkWriteInfo 30).
Proof.
  apply (proj1 (write_failure_populates_writeInfo
                  (Single (repeat x00 100)) 0%Z (Some (mkWriteInfo 0))
                  write_fails_env fresh_socket) 30 write_failure).
  - reflexivity.
  - reflexivity.
  - right. split; reflexivity.
Defined.

(** ** Posts *)

Lemma Action_eqb_refl (a : Action) : Action_eqb a a = true.
Proof.
  destruct a; cbn; auto using Z.eqb_refl, N.eqb_refl, Bool.eqb_reflx.
Qed.

Lemma no_occurrence_not_In (a : Action) (l : list Action) :
  occurrences a l = 0%nat -> ~ In a l.
Proof.
  unfold occurrences. intros Hz Hin. apply length_zero_iff_nil in Hz.
  assert (Hf : In a (filter (Action_eqb a) l))
    by (apply filter_In; split; [exact Hin | apply Action_eqb_refl]).
  rewrite Hz in Hf. exact Hf.
Qed.

Section PostFacts.
Context {C : Type} `{CallbackLaws C}.

Lemma postLogged_deliver (e : Event) (m m' : Machine C) :
  deliver e m = Some m' -> postLogged m -> postLogged m'.
Proof.
  destruct (isCancellation e) eqn:He.
  - destruct e; try discriminate. intros Hd Hlog.
    apply requestCancellation_inv in Hd as [_ ->].
    destruct (observer m).
    + intros _. cbn. rewrite in_app_iff. cbn. auto.
    + exact Hlog.
  - destruct e; try discriminate; apply dispatch_postLogged.
Qed.

Lemma postLogged_deliverAll (es : list Event) (m m' : Machine C) :
  deliverAll es m = Some m' -> postLogged m -> postLogged m'.
Proof.
  revert m. induction es as [|e es IH]; intros m; cbn [deliverAll].
  - now intros [= <-].
  - destruct (deliver e m) as [m1|] eqn:Hd; [|discriminate].
    intros Hr Hlog. apply (IH _ Hr). eapply postLogged_deliver; eauto.
Qed.

(** An operation that suspended has resumed on a post. *)
Lemma conduct_suspend_posted (env : Env) (m m' : Machine C) (r : Try unit) :
  postLogged m -> occurrences Suspend (trace m) = 0%nat ->
  conduct env m = Done (r, m') ->
  In Suspend (trace m') -> In Post (trace m').
Proof.
  intros Hlog Hns. unfold conduct.
  destruct (reactor _ m) as [m2| |] eqn:Hr; cbn [bind]; try discriminate.
  apply reactor_Done in Hr.
  pose proof (postLogged_deliverAll _ _ _ Hr Hlog) as Hlog2.
  destruct (deliverAll_trace _ _ _ Hr) as (l0 & Ht0 & Hl0).
  assert (Hns2 : occurrences Suspend (trace m2) = 0%nat).
  { rewrite Ht0, occurrences_app, Hns.
    now rewrite (passive_occurrences Suspend l0). }
  assert (Hcancel : forall m3 m4, callCancel env m3 = Done m4 ->
            (occurrences Suspend (trace m3) = 0%nat ->
             occurrences Suspend (trace m4) = 0%nat) /\
            (In Post (trace m3) -> In Post (trace m4))).
  { intros m3 m4 Hcc. destruct (callCancel_trace _ _ _ Hcc) as (l & -> & Hl).
    split.
    - intros Hz. change (Cancel :: l) with ([Cancel] ++ l).
      rewrite !occurrences_app, Hz.
      now rewrite (passive_occurrences Suspend l).
    - intros Hin. rewrite in_app_iff. now left. }
  unfold wait. destruct (cancelRequested m2).
  - destruct (callCancel env m2) as [m3| |] eqn:Hcc; cbn [bind];
      try discriminate.
    intros [= _ <-] Hin. exfalso.
    apply (no_occurrence_not_In _ _ (proj1 (Hcancel _ _ Hcc) Hns2) Hin).
  - unfold await. change (posted (set_observer true m2)) with (posted m2).
    destruct (posted m2) eqn:Hp2; cbn [bind].
    + change (cancelRequested (set_observer true m2))
        with (cancelRequested m2).
      destruct (cancelRequested m2).
      * destruct (callCancel env _) as [m3| |] eqn:Hcc; cbn [bind];
          try discriminate.
        intros [= _ <-] Hin. exfalso.
        apply (no_occurrence_not_In _ _
                 (proj1 (Hcancel (set_observer true m2) _ Hcc) Hns2) Hin).
      * intros [= _ <-] Hin. exfalso.
        apply (no_occurrence_not_In _ _ Hns2 Hin).
    + destruct (reactor _ _) as [m3| |] eqn:Hr3; cbn [bind]; try discriminate.
      apply reactor_Done in Hr3.
      assert (Hlog3 : postLogged m3).
      { apply (postLogged_deliverAll _ _ _ Hr3). intros Hp.
        change (posted (log Suspend (set_observer true m2)))
          with (posted m2) in Hp. congruence. }
      destruct (posted m3) eqn:Hp3; cbn [bind]; try discriminate.
      specialize (Hlog3 Hp3).
      destruct (cancelRequested m3).
      * destruct (callCancel env m3) as [m4| |] eqn:Hcc; cbn [bind];
          try discriminate.
        intros [= _ <-] _. exact (proj2 (Hcancel _ _ Hcc) Hlog3).
      * intros [= _ <-] _. exact Hlog3.
Qed.
End PostFacts.

(** The transport notifies a connect callback once. *)
Lemma connect_single_notification (es : list Event)
  (m m' : Machine ConnectCallback) :
  existsb isCancellation es = false -> deliverAll es m = Some m' ->
  (occurrences Post (trace m') <= occurrences Post (trace m) + 1)%nat.
Proof.
  intros Hn. destruct es as [|e es]; cbn [deliverAll].
  - intros [= <-]. lia.
  - cbn [existsb] in Hn. apply orb_false_elim in Hn as [He Hn].
    destruct (deliver e m) as [m1|] eqn:Hd; [|discriminate].
    assert (Hm1 : connectCallback_ (sock m1) = false /\
                  trace m1 = trace m ++ [Post]).
    { destruct e; cbn in Hd, He; try discriminate;
        destruct (connectCallback_ (sock m)); try discriminate;
        injection Hd as <-; now split. }
    destruct Hm1 as [Hslot Htr].
    destruct es as [|e2 es]; cbn [deliverAll].
    + intros [= <-]. rewrite Htr, occurrences_app. cbn. lia.
    + cbn [existsb] in Hn. apply orb_false_elim in Hn as [He2 _].
      destruct e2; cbn in He2 |- *; rewrite ?Hslot; discriminate.
Qed.

(** The transport notifies a write callback once. *)
Lemma write_single_notification (es : list Event)
  (m m' : Machine WriteCallback) :
  existsb isCancellation es = false -> deliverAll es m = Some m' ->
  (occurrences Post (trace m') <= occurrences Post (trace m) + 1)%nat.
Proof.
  intros Hn. destruct es as [|e es]; cbn [deliverAll].
  - intros [= <-]. lia.
  - cbn [existsb] in Hn. apply orb_false_elim in Hn as [He Hn].
    destruct (deliver e m) as [m1|] eqn:Hd; [|discriminate].
    assert (Hm1 : writePending_ (sock m1) = false /\
                  trace m1 = trace m ++ [Post]).
    { destruct e; red_model; try discriminate;
        destruct (writePending_ (sock m)); red_model; try discriminate;
        try destruct (bytes <? SIZE_MOD); try discriminate;
        injection Hd as <-; now split. }
    destruct Hm1 as [Hslot Htr].
    destruct es as [|e2 es]; cbn [deliverAll].
    + intros [= <-]. rewrite Htr, occurrences_app. cbn. lia.
    + cbn [existsb] in Hn. apply orb_false_elim in Hn as [He2 _].
      destruct e2; red_model; rewrite ?Hslot; discriminate.
Qed.

(** A data event that fills the fixed buffer deregisters first and leaves
    the callback finished. *)
Lemma filling_data_deliver (data : list byte) (m m' : Machine ReadCallback) :
  readBuf_ (cb m) = None ->
  deliver (EvReadData data) m = Some m' ->
  length (cb m') = size (buf_ (cb m')) ->
  finished m' = true /\
  trace m' = trace m ++ [CallSetReadCB false; CallCancelTimeout; Post].
Proof.
  intros Hq Hd Hfull.
  destruct (deliver_data_fixed _ _ _ Hq Hd)
    as (_ & _ & _ & _ & _ & _ & _ & _ & _ & _ & _ & _ & Hcase).
  apply N.eqb_eq in Hfull. rewrite Hfull in Hcase.
  destruct Hcase as (Hr & Ht & Htr). unfold finished.
  now rewrite Hr, Ht.
Qed.

Lemma size_sub_zero_le (a : N) : size_sub a 0 <= a.
Proof.
  unfold size_sub. rewrite N.sub_0_r.
  replace (SIZE_MOD + a) with (a + 1 * SIZE_MOD) by lia.
  rewrite N.Div0.mod_add. apply N.Div0.mod_le.
Qed.

(** The transport delivers a data event to an installed callback when it
    carries between one byte and the length [getReadBuffer] offered. *)
Lemma deliver_data_accepted (data : list byte) (m : Machine ReadCallback) :
  readCallback_ (sock m) = true ->
  0 < size data -> size data < SIZE_MOD ->
  size data <= snd (snd (getReadBuffer (cb m))) ->
  exists m', deliver (EvReadData data) m = Some m'.
Proof.
  intros Hr H0 H2 H1.
  cbn [deliver dispatch ReadCallback_callback]. unfold ReadCallback_dispatch.
  rewrite Hr. destruct (getReadBuffer (cb m)) as [c1 [off avail]].
  cbn [fst snd] in H1.
  apply N.ltb_lt in H0, H2. apply N.leb_le in H1. rewrite H0, H1, H2.
  cbn [andb]. eauto.
Qed.

(** A data event that leaves room in the fixed buffer, and every data event
    in growing mode: the callback stays installed, the timer stays as it
    was, and the only action is the post. *)
Lemma partial_data_deliver (data : list byte) (m m' : Machine ReadCallback) :
  deliver (EvReadData data) m = Some m' ->
  (readBuf_ (cb m) = None -> length (cb m') <> size (buf_ (cb m'))) ->
  sock m' = sock m /\ timer m' = timer m /\
  trace m' = trace m ++ [Post] /\
  readCallback_ (sock m') = true /\
  length (cb m') = size_add (length (cb m)) (size data) /\
  error m' = error m /\ cancelRequested m' = cancelRequested m.
Proof.
  intros Hd Hroom. destruct (readBuf_ (cb m)) as [q|] eqn:Hq.
  - destruct (deliver_data_growing _ _ _ _ Hq Hd)
      as (Hr & _ & _ & _ & Hlen & _ & Herr & _ & Hc & _ & Hs & Ht & Htr).
    rewrite Hs. auto 10.
  - destruct (deliver_data_fixed _ _ _ Hq Hd)
      as (Hr & _ & _ & _ & _ & Hlen & _ & _ & Herr & _ & Hc & _ & Hcase).
    specialize (Hroom eq_refl). apply N.eqb_neq in Hroom.
    rewrite Hroom in Hcase. destruct Hcase as (Hs & Ht & Htr).
    rewrite Hs. auto 10.
Qed.

(** What follows such a data event reaches the same callback and posts
    again. *)
Lemma partial_data_then_terminal (data : list byte) (e : Event)
  (m m' : Machine ReadCallback) :
  deliver (EvReadData data) m = Some m' ->
  (readBuf_ (cb m) = None -> length (cb m') <> size (buf_ (cb m'))) ->
  e = EvReadEOF \/ (exists ex, e = EvReadErr ex) ->
  exists m'', deliver e m' = Some m'' /\
    trace m'' = trace m ++ [Post; CallSetReadCB false; CallCancelTimeout; Post].
Proof.
  intros Hd Hroom He.
  destruct (partial_data_deliver _ _ _ Hd Hroom) as (_ & _ & Htr & Hr & _).
  destruct He as [-> | [ex ->]];
    cbn [deliver dispatch ReadCallback_callback ReadCallback_dispatch];
    rewrite Hr; eexists; (split; [reflexivity|]); cbn; rewrite Htr;
    rewrite <- !app_assoc; reflexivity.
Qed.

(** Every data event, end of stream and error that reaches a read callback
    posts once. *)
Lemma read_event_posts (e : Event) (m m' : Machine ReadCallback) :
  deliver e m = Some m' ->
  isData e = true \/ e = EvReadEOF \/ (exists ex, e = EvReadErr ex) ->
  occurrences Post (trace m') = (occurrences Post (trace m) + 1)%nat.
Proof.
  intros Hd [Hdata | [-> | [ex ->]]].
  - destruct e; try discriminate.
    destruct (readBuf_ (cb m)) as [q|] eqn:Hq.
    + destruct (deliver_data_growing _ _ _ _ Hq Hd)
        as (_ & _ & _ & _ & _ & _ & _ & _ & _ & _ & _ & _ & ->).
      now rewrite occurrences_app.
    + destruct (deliver_data_fixed _ _ _ Hq Hd)
        as (_ & _ & _ & _ & _ & _ & _ & _ & _ & _ & _ & _ & Hcase).
      destruct (N.eqb _ _); destruct Hcase as (_ & _ & ->);
        now rewrite occurrences_app.
  - apply deliver_EvReadEOF_inv in Hd as [_ ->].
    unfold occurrences, readEOF. cbn [post log trace set_cb].
    cbn [cancelTimeout setReadCB log trace set_sock set_timer].
    rewrite !filter_app, !length_app. cbn. lia.
  - apply deliver_EvReadErr_inv in Hd as [_ ->].
    unfold occurrences, readErr. cbn [post log trace set_error set_cb].
    cbn [cancelTimeout setReadCB log trace set_sock set_timer].
    rewrite !filter_app, !length_app. cbn. lia.
Qed.

(** Data that leaves room, then end of stream, in one run of the reactor:
    the read is resumed after two posts. *)
Lemma partial_data_eof_read mode timeout s (data : list byte) :
  let env := mkEnv false [] [EvReadData data; EvReadEOF] [] in
  deferredReadEOF_ s = false ->
  0 < size data -> size data < SIZE_MOD ->
  size data <= snd (snd (getReadBuffer (cb (issued mode timeout env s)))) ->
  match mode with
  | Fixed buf => size data < size buf
  | Growing _ _ _ => True
  end ->
  exists o,
    readIn mode timeout env s = Done o /\
    result o = Value (size data) /\
    actions o = trace (issued mode timeout env s)
                ++ [Suspend; Post; CallSetReadCB false; CallCancelTimeout;
                    Post; CallSetReadCB false] /\
    occurrences Post (actions o) = 2%nat.
Proof.
  intros env Hdef H0 H2 Hav Hmode.
  rewrite (readIn_conduct _ _ _ _ Hdef).
  destruct (issued_facts mode timeout env s)
    as (Hc0 & Ho0 & Hp0 & He0 & Hr0 & Hl0 & Hf0 & Htm & Htr0).
  change (tokenCancelled env) with false in Hc0.
  rewrite (conduct_suspends env _ eq_refl Hc0 Hp0).
  set (M := log Suspend (set_observer true (issued mode timeout env s))).
  assert (HrM : readCallback_ (sock M) = true) by exact Hr0.
  destruct (deliver_data_accepted data M HrM H0 H2 Hav) as [m1 Hd1].
  assert (Hroom : readBuf_ (cb M) = None ->
                  length (cb m1) <> size (buf_ (cb m1))).
  { intros Hq. destruct (deliver_data_fixed _ _ _ Hq Hd1)
      as (_ & _ & _ & Hle & _ & Hlen & Hbuf & _).
    destruct mode as [buf|q a b];
      [|subst M; unfold issued, construct, ReadCallback_queue, armTimer in Hq;
        destruct (0 <? timeout)%Z; discriminate Hq].
    change (length (cb M)) with (length (cb (issued (Fixed buf) timeout env s)))
      in *. rewrite Hl0 in *.
    assert (HbM : buf_ (cb M) = buf).
    { subst M. unfold issued, construct, ReadCallback_range, armTimer.
      now destruct (0 <? timeout)%Z. }
    rewrite HbM in *.
    rewrite Hlen, Hbuf. rewrite size_add_small by (rewrite N.add_0_l; exact H2).
    rewrite N.add_0_l. pose proof (size_sub_zero_le (size buf)) as Hz.
    unfold size in *. rewrite store_length by (cbn; lia). lia. }
  destruct (partial_data_deliver _ _ _ Hd1 Hroom)
    as (Hs1 & Ht1 & Htr1 & Hr1 & Hlen1 & Herr1 & Hc1).
  unfold reactor. cbn [loopEvents env deliverAll]. rewrite Hd1.
  cbn [deliver dispatch ReadCallback_callback ReadCallback_dispatch].
  rewrite Hr1. cbn [bind].
  change (length (cb M)) with (length (cb (issued mode timeout env s))) in Hlen1.
  rewrite Hl0, size_add_small in Hlen1 by (rewrite N.add_0_l; exact H2).
  rewrite N.add_0_l in Hlen1.
  change (error M) with (error (issued mode timeout env s)) in Herr1.
  rewrite He0 in Herr1.
  change (cancelRequested M) with (cancelRequested (issued mode timeout env s))
    in Hc1. rewrite Hc0 in Hc1.
  unfold resume.
  cbn -[N.ltb N.leb N.eqb N.add N.sub N.modulo SIZE_MOD size issued].
  rewrite Hc1. cbn [bind fst snd]. unfold readResult.
  cbn -[N.ltb N.leb N.eqb N.add N.sub N.modulo SIZE_MOD size issued].
  unfold error in Herr1. cbn in Herr1. rewrite Herr1, Hlen1.
  eexists. split; [reflexivity|].
  cbn -[N.ltb N.leb N.eqb N.add N.sub N.modulo SIZE_MOD size issued].
  split; [reflexivity|].
  assert (Hact : ((((trace m1 ++ [CallSetReadCB false]) ++ [CallCancelTimeout])
                   ++ [Post]) ++ [CallSetReadCB false])
                 = trace (issued mode timeout env s)
                   ++ [Suspend; Post; CallSetReadCB false; CallCancelTimeout;
                       Post; CallSetReadCB false]).
  { rewrite Htr1. subst M. cbn [log set_observer trace].
    rewrite <- !app_assoc. reflexivity. }
  rewrite Hact. split; [reflexivity|].
  rewrite Htr0. now destruct (0 <? timeout)%Z.
Qed.

(** C6, as the callbacks do it.  A connect or a write callback posts at
    most once over the transport events it receives.  A read callback
    deregisters as its first action on end of stream, on an error and on
    the expiry of its timer, and on a data event that fills the fixed
    buffer; it is then finished: no transport or timer event is delivered
    to it any more, so none can post again.  A data event that leaves room
    in the fixed buffer, and every data event in growing mode, posts
    without deregistering: the callback stays installed and the timer as it
    was, so an end of stream or an error that follows in the same run
    reaches the same callback, and it, like more data, posts again; a read
    that receives such
    data and then the end of the stream before it resumes is resumed after
    two posts.  An operation that suspended has been resumed by at least
    one post. *)
Theorem post_after_deregistration :
  (forall es (m m' : Machine ConnectCallback),
      existsb isCancellation es = false -> deliverAll es m = Some m' ->
      (occurrences Post (trace m') <= occurrences Post (trace m) + 1)%nat) /\
  (forall es (m m' : Machine WriteCallback),
      existsb isCancellation es = false -> deliverAll es m = Some m' ->
      (occurrences Post (trace m') <= occurrences Post (trace m) + 1)%nat) /\
  (forall e (m m' : Machine ReadCallback),
      deliver e m = Some m' ->
      terminal e = true \/
      (isData e = true /\ readBuf_ (cb m) = None /\
       length (cb m') = size (buf_ (cb m'))) ->
      (exists rest, trace m' = trace m ++ CallSetReadCB false :: rest) /\
      finished m' = true) /\
  (forall es (m m' : Machine ReadCallback),
      finished m = true -> existsb isCancellation es = false ->
      deliverAll es m = Some m' -> es = [] /\ m' = m) /\
  (forall data (m m' : Machine ReadCallback),
      deliver (EvReadData data) m = Some m' ->
      (readBuf_ (cb m) = None -> length (cb m') <> size (buf_ (cb m'))) ->
      sock m' = sock m /\ timer m' = timer m /\
      readCallback_ (sock m') = true /\ finished m' = false /\
      trace m' = trace m ++ [Post] /\
      (forall e, e = EvReadEOF \/ (exists ex, e = EvReadErr ex) ->
         exists m'', deliver e m' = Some m'' /\
           trace m'' = trace m ++ [Post; CallSetReadCB false;
                                   CallCancelTimeout; Post]) /\
      (forall e m'', deliver e m' = Some m'' ->
         isData e = true \/ e = EvReadEOF \/ (exists ex, e = EvReadErr ex) ->
         occurrences Post (trace m'')
         = (occurrences Post (trace m) + 2)%nat)) /\
  (forall mode timeout s (data : list byte),
      let env := mkEnv false [] [EvReadData data; EvReadEOF] [] in
      deferredReadEOF_ s = false ->
      0 < size data -> size data < SIZE_MOD ->
      size data <= snd (snd (getReadBuffer (cb (issued mode timeout env s)))) ->
      match mode with
      | Fixed buf => size data < size buf
      | Growing _ _ _ => True
      end ->
      exists o,
        readIn mode timeout env s = Done o /\
        result o = Value (size data) /\
        actions o = trace (issued mode timeout env s)
                    ++ [Suspend; Post; CallSetReadCB false; CallCancelTimeout;
                        Post; CallSetReadCB false] /\
        occurrences Post (actions o) = 2%nat) /\
  (forall op env s r tr,
      perform op env s = Done (r, tr) -> In Suspend tr -> In Post tr).
Proof.
  split; [exact connect_single_notification|].
  split; [exact write_single_notification|].
  split; [|split; [exact finished_deliverAll|
             split; [|split; [exact partial_data_eof_read|]]]].
  - intros e m m' Hd [Hterm | (Hdata & Hq & Hfull)].
    + destruct (terminal_deliver _ _ _ Hterm Hd) as [Hf Htr]. now split.
    + destruct e; try discriminate.
      destruct (filling_data_deliver _ _ _ Hq Hd Hfull) as [Hf Htr].
      split; [eexists; exact Htr | exact Hf].
  - intros data m m' Hd Hroom.
    destruct (partial_data_deliver _ _ _ Hd Hroom)
      as (Hs & Ht & Htr & Hr & _).
    repeat (split; [assumption|]).
    split; [unfold finished; now rewrite Hr|].
    split; [assumption|]. split.
    + intros e He. exact (partial_data_then_terminal _ e _ _ Hd Hroom He).
    + intros e m'' Hd2 He. rewrite (read_event_posts _ _ _ Hd2 He), Htr.
      rewrite occurrences_app. cbn. lia.
  - intros op env s r tr Hrun Hin.
    destruct (issues op s) eqn:Hi.
    + destruct (perform_conduct op env s Hi)
        as (C & HS & HC & HL & m & k & Heq & _ & Hp & _ & _ & Hsu & _ & Hk).
      rewrite Heq in Hrun.
      destruct (conduct env m) as [[w m3]| |] eqn:Hc; cbn [bind] in Hrun;
        try discriminate.
      injection Hrun as Hkr. destruct (Hk (w, m3)) as (l & Hl & Hpas).
      rewrite Hkr in Hl. cbn [snd] in Hl. subst tr.
      assert (Hlog : postLogged m) by (intros Hp'; congruence).
      rewrite in_app_iff in Hin |- *.
      destruct Hin as [Hin | Hin].
      * left. exact (conduct_suspend_posted env m m3 w Hlog Hsu Hc Hin).
      * exfalso.
        exact (no_occurrence_not_In _ _
                 (passive_occurrences Suspend l eq_refl Hpas) Hin).
    + destruct op; try discriminate; cbn [issues] in Hi;
        apply negb_false_iff in Hi; cbn [perform] in Hrun.
      * change (read buf timeout env s)
          with (readIn (Fixed buf) timeout env s) in Hrun.
        rewrite (readIn_deferred _ _ _ _ Hi) in Hrun.
        injection Hrun as _ <-. destruct Hin.
      * change (read_queue readBuf minReadSize newAllocationSize timeout env s)
          with (readIn (Growing readBuf minReadSize newAllocationSize)
                       timeout env s) in Hrun.
        rewrite (readIn_deferred _ _ _ _ Hi) in Hrun.
        injection Hrun as _ <-. destruct Hin.
Qed.

(** C6 as it is written fails: four bytes into a range of ten leave the read
    callback installed, the end of stream that follows in the same run
    reaches the same instance, and the baton is posted twice. *)
Lemma partial_data_then_eof_posts_twice :
  (exists m1 m2,
      deliver (EvReadData ["d"; "a"; "t"; "a"]%byte) ten_byte_read = Some m1 /\
      readCallback_ (sock m1) = true /\
      trace m1 = [CallSetReadCB true; Post] /\
      deliver EvReadEOF m1 = Some m2 /\
      trace m2 = [CallSetReadCB true; Post;
                  CallSetReadCB false; CallCancelTimeout; Post] /\
      occurrences Post (trace m2) = 2%nat) /\
  (exists o,
      read (repeat x00 10) 0%Z data_eof_env fresh_socket = Done o /\
      result o = Value 4 /\
      actions o = [CallSetReadCB true; Suspend; Post; CallSetReadCB false;
                   CallCancelTimeout; Post; CallSetReadCB false] /\
      occurrences Post (actions o) = 2%nat).
Proof.
  split.
  - do 2 eexists. repeat split.
  - eexists. split; [vm_compute; reflexivity|]. repeat split.
Qed.

(** * Further properties *)

(** ** Invariants from the registration to the resumption *)

Section ConductCases.
Context {C : Type} `{CallbackLaws C}.

(** How [conduct] ends, for a property of the machine that deliveries,
    the observer and the suspension keep: either cancelled, through
    [cancel()] from a machine with the property and a cancelled token, or
    with a value, from a machine with the property whose baton is posted
    and whose token is not cancelled. *)
Lemma conduct_cases (P : Machine C -> Prop) (env : Env)
  (m m' : Machine C) (r : Try unit) :
  (forall e m1 m2, In e (allEvents env) -> P m1 ->
                   deliver e m1 = Some m2 -> P m2) ->
  (forall b m1, P m1 -> P (set_observer b m1)) ->
  (forall m1, P m1 -> P (log Suspend m1)) ->
  P m -> conduct env m = Done (r, m') ->
  (r = Exception OperationCancelled /\
   exists m3 m4 b, P m3 /\ cancelRequested m3 = true /\
     deliverAll (closeEvents env) (cancel (log Cancel m3)) = Some m4 /\
     m' = set_observer b m4) \/
  (r = Value tt /\
   exists m2, P m2 /\ posted m2 = true /\ cancelRequested m2 = false /\
     m' = set_observer false m2).
Proof.
  intros Hdel Hobs Hsus Hm.
  assert (Hall : forall es m1 m2, incl es (allEvents env) -> P m1 ->
                   deliverAll es m1 = Some m2 -> P m2).
  { induction es as [|e es IH]; intros m1 m2 Hincl Hp1; cbn [deliverAll].
    - now intros [= <-].
    - destruct (deliver e m1) as [mx|] eqn:Hd; [|discriminate].
      apply IH; [intros x Hx; apply Hincl; now right|].
      apply (Hdel e m1 mx); auto. apply Hincl. now left. }
  assert (Hinl : incl (inlineEvents env) (allEvents env))
    by (intros x Hx; unfold allEvents; rewrite !in_app_iff; auto).
  assert (Hloop : incl (loopEvents env) (allEvents env))
    by (intros x Hx; unfold allEvents; rewrite !in_app_iff; auto).
  unfold conduct.
  destruct (reactor _ m) as [m2| |] eqn:Hr; cbn [bind]; try discriminate.
  apply reactor_Done in Hr. pose proof (Hall _ _ _ Hinl Hm Hr) as Hm2.
  unfold wait. destruct (cancelRequested m2) eqn:Hc2.
  - unfold callCancel.
    destruct (reactor _ _) as [m3| |] eqn:Hcc; cbn [bind]; try discriminate.
    apply reactor_Done in Hcc. intros [= <- <-]. left. split; [reflexivity|].
    exists m2, m3, (observer m3). repeat split; auto.
    now destruct m3.
  - unfold await. change (posted (set_observer true m2)) with (posted m2).
    destruct (posted m2) eqn:Hp2; cbn [bind].
    + change (cancelRequested (set_observer true m2))
        with (cancelRequested m2). rewrite Hc2.
      intros [= <- <-]. right. split; [reflexivity|].
      exists (set_observer true m2). repeat split; auto.
    + destruct (reactor _ _) as [m3| |] eqn:Hr3; cbn [bind]; try discriminate.
      apply reactor_Done in Hr3.
      assert (Hm3 : P m3).
      { apply (Hall _ _ _ Hloop (Hsus _ (Hobs true _ Hm2)) Hr3). }
      destruct (posted m3) eqn:Hp3; cbn [bind]; try discriminate.
      destruct (cancelRequested m3) eqn:Hc3.
      * unfold callCancel.
        destruct (reactor _ _) as [m4| |] eqn:Hcc; cbn [bind];
          try discriminate.
        apply reactor_Done in Hcc. intros [= <- <-]. left.
        split; [reflexivity|]. exists m3, m4, false. repeat split; auto.
      * intros [= <- <-]. right. split; [reflexivity|].
        exists m3. repeat split; auto.
Qed.
End ConductCases.

Lemma existsb_false_In {A} (f : A -> bool) (l : list A) (x : A) :
  existsb f l = false -> In x l -> f x = false.
Proof.
  intros Hn Hin. destruct (f x) eqn:Hf; [|reflexivity].
  assert (Ht : existsb f l = true) by (apply existsb_exists; eauto).
  congruence.
Qed.

Section ConductCounts.
Context {C : Type} `{CallbackLaws C}.

Lemma registrations_app (l1 l2 : list Action) :
  registrations (l1 ++ l2) = (registrations l1 + registrations l2)%nat.
Proof. unfold registrations. now rewrite filter_app, length_app. Qed.

Lemma passive_registrations (l : list Action) :
  forallb passive l = true -> registrations l = 0%nat.
Proof.
  induction l as [|a l IH]; [reflexivity|].
  cbn [forallb]. intros Hl. apply andb_prop in Hl as [Ha Hl].
  unfold registrations in *. cbn [filter].
  destruct a; try discriminate Ha; cbn; try now apply IH.
  destruct install; [discriminate Ha | now apply IH].
Qed.

(** Without any cancellation [conduct] ends with a value. *)
Lemma conduct_without_cancellation (env : Env) (m m' : Machine C)
  (r : Try unit) :
  cancelRequested m = false ->
  existsb isCancellation (allEvents env) = false ->
  conduct env m = Done (r, m') ->
  r = Value tt /\ cancelRequested m' = false /\ posted m' = true.
Proof.
  intros Hc Hn Hrun.
  destruct (conduct_cases (fun x => cancelRequested x = false) env m m' r)
    as [(_ & m3 & _ & _ & Hp3 & Hc3 & _) | (-> & m2 & Hc2 & Hp2 & _ & ->)];
    auto; try congruence.
  intros e m1 m2 Hin Hm1 Hd.
  rewrite (deliver_cancelRequested_same e m1 m2); auto.
  destruct (isCancellation e) eqn:He; [|reflexivity].
  now rewrite (existsb_false_In _ _ _ Hn Hin) in He.
Qed.

(** The coroutine suspends at most once. *)
Lemma conduct_suspends_once (env : Env) (m m' : Machine C) (r : Try unit) :
  conduct env m = Done (r, m') ->
  (occurrences Suspend (trace m')
   <= occurrences Suspend (trace m) + 1)%nat.
Proof.
  unfold conduct.
  destruct (reactor _ m) as [m2| |] eqn:Hr; cbn [bind]; try discriminate.
  apply reactor_Done in Hr.
  destruct (deliverAll_trace _ _ _ Hr) as (l0 & Ht0 & Hl0).
  assert (H2 : occurrences Suspend (trace m2) = occurrences Suspend (trace m)).
  { rewrite Ht0, occurrences_app, (passive_occurrences Suspend l0); auto. }
  assert (Hcancel : forall m3 m4, callCancel env m3 = Done m4 ->
            occurrences Suspend (trace m4) = occurrences Suspend (trace m3)).
  { intros m3 m4 Hcc. destruct (callCancel_trace _ _ _ Hcc) as (l & -> & Hl).
    change (Cancel :: l) with ([Cancel] ++ l).
    rewrite !occurrences_app, (passive_occurrences Suspend l); auto. }
  unfold wait. destruct (cancelRequested m2).
  - destruct (callCancel env m2) as [m3| |] eqn:Hcc; cbn [bind];
      try discriminate.
    intros [= _ <-]. rewrite (Hcancel _ _ Hcc). lia.
  - unfold await. change (posted (set_observer true m2)) with (posted m2).
    destruct (posted m2); cbn [bind].
    + change (cancelRequested (set_observer true m2))
        with (cancelRequested m2).
      destruct (cancelRequested m2).
      * destruct (callCancel env _) as [m3| |] eqn:Hcc; cbn [bind];
          try discriminate.
        intros [= _ <-]. cbn [set_observer trace].
        rewrite (Hcancel _ _ Hcc). cbn [set_observer trace]. lia.
      * intros [= _ <-]. cbn [set_observer trace]. lia.
    + destruct (reactor _ _) as [m3| |] eqn:Hr3; cbn [bind]; try discriminate.
      apply reactor_Done in Hr3.
      destruct (deliverAll_trace _ _ _ Hr3) as (l1 & Ht1 & Hl1).
      cbn [log set_observer trace] in Ht1.
      assert (H3 : occurrences Suspend (trace m3)
                   = (occurrences Suspend (trace m) + 1)%nat).
      { rewrite Ht1, !occurrences_app, (passive_occurrences Suspend l1); auto.
        rewrite H2. cbn. lia. }
      destruct (posted m3); cbn [bind]; try discriminate.
      destruct (cancelRequested m3).
      * destruct (callCancel env m3) as [m4| |] eqn:Hcc; cbn [bind];
          try discriminate.
        intros [= _ <-]. cbn [set_observer trace].
        rewrite (Hcancel _ _ Hcc). lia.
      * intros [= _ <-]. cbn [set_observer trace]. lia.
Qed.

(** A completed [conduct] has posted the baton or entered [cancel()]. *)
Lemma conduct_post_or_cancel (env : Env) (m m' : Machine C) (r : Try unit) :
  postLogged m -> conduct env m = Done (r, m') ->
  In Post (trace m') \/ In Cancel (trace m').
Proof.
  intros Hlog Hrun.
  assert (Hdel : forall e m1 m2, In e (allEvents env) -> postLogged m1 ->
                   deliver e m1 = Some m2 -> postLogged m2).
  { intros e m1 m2 _ Hm1 Hd. eapply postLogged_deliver; eauto. }
  assert (Hobs : forall b m1, postLogged m1 -> postLogged (set_observer b m1))
    by (intros b m1 Hm1; exact Hm1).
  assert (Hsus : forall m1, postLogged m1 -> postLogged (log Suspend m1)).
  { intros m1 Hm1 Hp. cbn [log trace]. rewrite in_app_iff. left.
    apply Hm1. exact Hp. }
  destruct (conduct_cases postLogged env m m' r Hdel Hobs Hsus Hlog Hrun)
    as [(_ & m3 & m4 & b & _ & _ & Hd & ->) | (_ & m2 & Hl2 & Hp2 & _ & ->)].
  - right. destruct (deliverAll_trace _ _ _ Hd) as (l & Ht & _).
    destruct (cancel_continues (log Cancel m3)) as (_ & _ & _ & lc & Hc & _).
    cbn [set_observer trace]. rewrite Ht, Hc. cbn [log trace].
    rewrite !in_app_iff. left. left. right. now left.
  - left. exact (Hl2 Hp2).
Qed.
End ConductCounts.

(** ** Every operation, from its trace *)

Lemma issued_registrations mode timeout env s :
  registrations (trace (issued mode timeout env s)) = 1%nat /\
  occurrences Post (trace (issued mode timeout env s)) = 0%nat.
Proof.
  destruct (issued_facts mode timeout env s)
    as (_ & _ & _ & _ & _ & _ & _ & _ & ->).
  now destruct (0 <? timeout)%Z.
Qed.

(** The first event a freshly registered callback receives posts the baton
    or is the cancellation request. *)
Lemma connect_first_event t env (e : Event) (m1 : Machine ConnectCallback) :
  deliver e (connectIssued t env) = Some m1 ->
  posted m1 = true \/ cancelRequested m1 = true.
Proof.
  destruct e; cbn; try discriminate.
  - intros [= <-]. now left.
  - intros [= <-]. now left.
  - destruct (tokenCancelled env); [discriminate|]. intros [= <-]. now right.
Qed.

Lemma write_first_event call timeout env s (e : Event)
  (m1 : Machine WriteCallback) :
  deliver e (writeIssued call timeout env s) = Some m1 ->
  posted m1 = true \/ cancelRequested m1 = true.
Proof.
  destruct e; red_model; try discriminate.
  - intros [= <-]. now left.
  - destruct (bytes <? SIZE_MOD); [|discriminate]. intros [= <-]. now left.
  - destruct (tokenCancelled env); [discriminate|]. intros [= <-]. now right.
Qed.

Lemma read_first_event mode timeout env s (e : Event)
  (m1 : Machine ReadCallback) :
  deliver e (issued mode timeout env s) = Some m1 ->
  posted m1 = true \/ cancelRequested m1 = true.
Proof.
  intros Hd. destruct (issued_facts mode timeout env s)
    as (_ & _ & _ & _ & _ & Hl0 & _).
  destruct e; try (now apply deliver_read_event in Hd).
  - left. destruct (readBuf_ (cb (issued mode timeout env s))) as [q|] eqn:Hq.
    + now destruct (deliver_data_growing _ _ _ _ Hq Hd)
        as (_ & _ & _ & _ & _ & _ & _ & Hp & _).
    + now destruct (deliver_data_fixed _ _ _ Hq Hd)
        as (_ & _ & _ & _ & _ & _ & _ & _ & _ & Hp & _).
  - apply deliver_EvReadEOF_inv in Hd as [_ ->]. now left.
  - apply deliver_EvReadErr_inv in Hd as [_ ->]. now left.
  - apply deliver_EvTimeoutExpired_inv in Hd as [_ ->].
    unfold timeoutExpired.
    change (length (cb (setReadCB false
                          (set_timer false (issued mode timeout env s)))))
      with (length (cb (issued mode timeout env s))).
    rewrite Hl0. now left.
  - apply requestCancellation_inv in Hd as [_ ->].
    right. now destruct (observer _).
Qed.

(** [perform] through [conduct], with the counts of the registration
    trace. *)
Lemma perform_shape (op : Operation) (env : Env) (s : Socket) :
  issues op s = true ->
  exists (C : Type) (HS : CallbackState C) (HC : Callback C)
         (HL : CallbackLaws C) (m : Machine C)
         (k : Try unit * Machine C -> option exception * list Action),
    perform op env s = (r <- conduct env m ;; Done (k r)) /\
    cancelRequested m = tokenCancelled env /\ posted m = false /\
    registrations (trace m) = 1%nat /\
    occurrences Cancel (trace m) = 0%nat /\
    occurrences Suspend (trace m) = 0%nat /\
    (forall r, exists l, snd (k r) = trace (snd r) ++ l /\
                         forallb passive l = true) /\
    (forall e m1, deliver e m = Some m1 ->
                  posted m1 = true \/ cancelRequested m1 = true).
Proof.
  intros Hi. destruct op; cbn [perform issues] in *.
  - exists ConnectCallback, _, _, _, (connectIssued connectTimeout env),
      (fun r => (failure (fst (connectResult r)), snd (connectResult r))).
    split; [|repeat (split; [reflexivity|]); split].
    + rewrite connect_conduct. destruct (conduct _ _); reflexivity.
    + intros [w m3]. exists []. unfold connectResult. cbn [fst snd].
      rewrite app_nil_r. destruct w; [destruct (error m3)|]; now split.
    + apply connect_first_event.
  - apply negb_true_iff in Hi.
    exists ReadCallback, _, _, _, (issued (Fixed buf) timeout env s),
      (fun r => (failure (result (readResult s (fst r) (snd r))),
                 actions (readResult s (fst r) (snd r)))).
    destruct (issued_facts (Fixed buf) timeout env s)
      as (Hc & _ & Hp & _ & _ & _ & _ & _ & Ht).
    split; [|repeat (split;
               [auto; rewrite Ht; now destruct (0 <? timeout)%Z|]); split].
    + change (read buf timeout env s) with (readIn (Fixed buf) timeout env s).
      rewrite (readIn_conduct _ _ _ _ Hi). destruct (conduct _ _); reflexivity.
    + intros [w m3]. unfold readResult. cbn [fst snd].
      destruct w; [destruct (error m3)|]; cbn [actions snd];
        try (exists []; now rewrite app_nil_r).
      exists [CallSetReadCB false]. now split.
    + apply read_first_event.
  - apply negb_true_iff in Hi.
    set (mode := Growing readBuf minReadSize newAllocationSize).
    exists ReadCallback, _, _, _, (issued mode timeout env s),
      (fun r => (failure (result (readResult s (fst r) (snd r))),
                 actions (readResult s (fst r) (snd r)))).
    destruct (issued_facts mode timeout env s)
      as (Hc & _ & Hp & _ & _ & _ & _ & _ & Ht).
    split; [|repeat (split;
               [auto; rewrite Ht; now destruct (0 <? timeout)%Z|]); split].
    + change (read_queue readBuf minReadSize newAllocationSize timeout env s)
        with (readIn mode timeout env s).
      rewrite (readIn_conduct _ _ _ _ Hi). destruct (conduct _ _); reflexivity.
    + intros [w m3]. unfold readResult. cbn [fst snd].
      destruct w; [destruct (error m3)|]; cbn [actions snd];
        try (exists []; now rewrite app_nil_r).
      exists [CallSetReadCB false]. now split.
    + apply read_first_event.
  - exists WriteCallback, _, _, _,
      (writeIssued (CallWrite (size buf)) timeout env s),
      (fun r => (failure (result (writeResult writeInfo s r)),
                 actions (writeResult writeInfo s r))).
    split; [|repeat (split; [reflexivity|]); split].
    + unfold write. rewrite writeWith_conduct.
      destruct (conduct _ _); reflexivity.
    + intros [w m3]. exists []. unfold writeResult. cbn [fst snd].
      rewrite app_nil_r.
      destruct w; [destruct (WriteCallback_error (cb m3))|]; now split.
    + apply write_first_event.
  - exists WriteCallback, _, _, _,
      (writeIssued (CallWritev (N.of_nat (List.length iovec))) timeout env s),
      (fun r => (failure (result (writeResult writeInfo s r)),
                 actions (writeResult writeInfo s r))).
    split; [|repeat (split; [reflexivity|]); split].
    + unfold write_queue. rewrite writeWith_conduct.
      destruct (conduct _ _); reflexivity.
    + intros [w m3]. exists []. unfold writeResult. cbn [fst snd].
      rewrite app_nil_r.
      destruct w; [destruct (WriteCallback_error (cb m3))|]; now split.
    + apply write_first_event.
Qed.

(** An operation that is not issued is a read that ends at once. *)
Lemma perform_not_issued (op : Operation) (env : Env) (s : Socket) :
  issues op s = false -> perform op env s = Done (None, []).
Proof.
  destruct op; try discriminate; cbn [issues]; intros Hi;
    apply negb_false_iff in Hi; cbn [perform].
  - change (read buf timeout env s) with (readIn (Fixed buf) timeout env s).
    now rewrite (readIn_deferred _ _ _ _ Hi).
  - change (read_queue readBuf minReadSize newAllocationSize timeout env s)
      with (readIn (Growing readBuf minReadSize newAllocationSize)
                   timeout env s).
    now rewrite (readIn_deferred _ _ _ _ Hi).
Qed.

(** X1: a call of the adapter hands a callback to the transport exactly
    once when it is issued and not at all when it is a read that consumes a
    deferred end of stream; and it suspends at most once. *)
Theorem operation_registers_once :
  forall (op : Operation) (env : Env) (s : Socket) r tr,
    perform op env s = Done (r, tr) ->
    registrations tr = (if issues op s then 1 else 0)%nat /\
    (occurrences Suspend tr <= 1)%nat.
Proof.
  intros op env s r tr Hrun. destruct (issues op s) eqn:Hi.
  - destruct (perform_shape op env s Hi)
      as (C & HS & HC & HL & m & k & Heq & _ & _ & Hreg & _ & Hsu & Hk & _).
    rewrite Heq in Hrun.
    destruct (conduct env m) as [[w m3]| |] eqn:Hc; cbn [bind] in Hrun;
      try discriminate.
    injection Hrun as Hkr. destruct (Hk (w, m3)) as (l & Hl & Hpas).
    rewrite Hkr in Hl. cbn [snd] in Hl. subst tr.
    destruct (conduct_trace _ _ _ _ Hc) as (l1 & Ht1 & _ & Hnoreg).
    pose proof (conduct_suspends_once _ _ _ _ Hc) as Hso.
    split.
    + rewrite Ht1, !registrations_app, Hreg, (passive_registrations l Hpas).
      unfold registrations.
      assert (Hf : filter isRegistration l1 = []).
      { clear - Hnoreg. induction l1 as [|a l1 IH]; [reflexivity|].
        cbn [existsb filter] in *. apply orb_false_elim in Hnoreg as [-> Hn].
        now apply IH. }
      now rewrite Hf.
    + rewrite occurrences_app, (passive_occurrences Suspend l eq_refl Hpas).
      lia.
  - rewrite (perform_not_issued _ _ _ Hi) in Hrun. injection Hrun as _ <-.
    split; [reflexivity | cbn; lia].
Qed.

Lemma operation_registers_once_witness :
  exists r tr,
    perform (OpWrite (repeat x00 100) 0%Z None) write_fails_env fresh_socket
    = Done (r, tr) /\
    registrations tr = 1%nat /\ (occurrences Suspend tr <= 1)%nat.
Proof.
  do 2 eexists. split; [vm_compute; reflexivity|].
  apply (operation_registers_once
           (OpWrite (repeat x00 100) 0%Z None) write_fails_env fresh_socket
           (Some (SocketError write_failure))).
  vm_compute. reflexivity.
Defined.

(** X2: an issued operation completes only for a cause: its trace holds a
    post of the baton or an entry into [cancel()]. *)
Theorem completion_has_a_cause :
  forall (op : Operation) (env : Env) (s : Socket) r tr,
    issues op s = true ->
    perform op env s = Done (r, tr) ->
    In Post tr \/ In Cancel tr.
Proof.
  intros op env s r tr Hi Hrun.
  destruct (perform_shape op env s Hi)
    as (C & HS & HC & HL & m & k & Heq & _ & Hp & _ & _ & _ & Hk & _).
  rewrite Heq in Hrun.
  destruct (conduct env m) as [[w m3]| |] eqn:Hc; cbn [bind] in Hrun;
    try discriminate.
  injection Hrun as Hkr. destruct (Hk (w, m3)) as (l & Hl & _).
  rewrite Hkr in Hl. cbn [snd] in Hl. subst tr.
  assert (Hlog : postLogged m) by (intros Hp'; congruence).
  rewrite !in_app_iff.
  destruct (conduct_post_or_cancel env m m3 w Hlog Hc); auto.
Qed.

Lemma completion_has_a_cause_witness :
  exists r tr,
    perform (OpConnect 50%Z) precancelled_env fresh_socket = Done (r, tr) /\
    (In Post tr \/ In Cancel tr).
Proof.
  do 2 eexists. split; [vm_compute; reflexivity|].
  apply (completion_has_a_cause (OpConnect 50%Z) precancelled_env fresh_socket
           (Some OperationCancelled)).
  - reflexivity.
  - vm_compute. reflexivity.
Defined.

(** ** Reads: where results come from *)

Lemma deliver_data_frame (data : list byte) (m m' : Machine ReadCallback) :
  deliver (EvReadData data) m = Some m' ->
  readCallback_ (sock m) = true /\ error m' = error m /\
  eof (cb m') = eof (cb m) /\ cancelRequested m' = cancelRequested m /\
  (timer m' = true -> timer m = true) /\ posted m' = true /\
  0 < size data.
Proof.
  intros Hd.
  assert (Ht : timer m' = true -> timer m = true).
  { intros Ht'. destruct (timer m) eqn:Ht0; [reflexivity|].
    rewrite (timer_stays_off _ _ _ Hd Ht0) in Ht'. discriminate. }
  destruct (readBuf_ (cb m)) as [q|] eqn:Hq.
  - destruct (deliver_data_growing _ _ _ _ Hq Hd)
      as (Hr & H0 & _ & _ & _ & Heof & Herr & Hp & Hc & _). auto 10.
  - destruct (deliver_data_fixed _ _ _ Hq Hd)
      as (Hr & H0 & _ & _ & _ & _ & _ & Heof & Herr & Hp & Hc & _). auto 10.
Qed.

Lemma ReadInv_issued mode timeout env s :
  ReadInv timeout env (issued mode timeout env s).
Proof.
  destruct (issued_facts mode timeout env s)
    as (Hc & _ & _ & He & _ & _ & Hf & Ht & _).
  unfold ReadInv. rewrite He, Hc, Hf, Ht.
  split; [now left|]. split; [congruence|]. split; [auto|].
  split; [apply Z.ltb_lt | discriminate].
Qed.

Lemma ReadInv_deliver timeout env (e : Event) (m m' : Machine ReadCallback) :
  In e (allEvents env) -> ReadInv timeout env m ->
  deliver e m = Some m' -> ReadInv timeout env m'.
Proof.
  intros Hin (Herr & Hreg & Hcan & Harm & Heof) Hd. unfold ReadInv.
  destruct e; try (now apply deliver_read_event in Hd).
  - destruct (deliver_data_frame _ _ _ Hd) as (Hr & -> & -> & -> & Ht & _).
    split; [exact Herr|]. split.
    + intros Hne. rewrite (Hreg Hne) in Hr. discriminate.
    + auto.
  - apply deliver_EvReadEOF_inv in Hd as [_ ->].
    split; [exact Herr|]. repeat split; auto; discriminate.
  - apply deliver_EvReadErr_inv in Hd as [_ ->].
    split; [right; exists ex; split; [reflexivity | now left]|].
    repeat split; auto; discriminate.
  - apply deliver_EvTimeoutExpired_inv in Hd as [Ht ->].
    specialize (Harm Ht). unfold timeoutExpired. red_model.
    destruct (N.eqb _ _).
    + split; [right; exists (timedOut errno); split; [reflexivity|];
              right; exists errno; auto|].
      repeat split; auto; discriminate.
    + split; [exact Herr|]. repeat split; auto; discriminate.
  - apply requestCancellation_inv in Hd as [_ ->].
    destruct (observer m); (split; [exact Herr|]); repeat split; auto.
Qed.

(** A finished read callback stays finished. *)
Lemma finished_stays (es : list Event) (m m' : Machine ReadCallback) :
  finished m = true -> deliverAll es m = Some m' -> finished m' = true.
Proof.
  revert m. induction es as [|e es IH]; intros m Hf; cbn [deliverAll].
  - now intros [= <-].
  - destruct (deliver e m) as [m1|] eqn:Hd; [|discriminate].
    apply IH. now destruct (finished_deliver _ _ _ Hf Hd).
Qed.

(** How an issued read ends, with the invariant at hand. *)
Lemma readIn_cases mode timeout env s o :
  deferredReadEOF_ s = false ->
  readIn mode timeout env s = Done o ->
  (exists m3 m4 b,
      ReadInv timeout env m3 /\ cancelRequested m3 = true /\
      deliverAll (closeEvents env) (cancel (log Cancel m3)) = Some m4 /\
      o = readResult s (Exception OperationCancelled) (set_observer b m4)) \/
  (exists m2,
      ReadInv timeout env m2 /\ posted m2 = true /\
      cancelRequested m2 = false /\
      o = readResult s (Value tt) (set_observer false m2)).
Proof.
  intros Hd Hrun. rewrite (readIn_conduct _ _ _ _ Hd) in Hrun.
  destruct (conduct _ _) as [[w m']| |] eqn:Hc; cbn [bind fst snd] in Hrun;
    try discriminate.
  injection Hrun as <-.
  destruct (conduct_cases (ReadInv timeout env) env _ m' w
              (ReadInv_deliver timeout env)
              (fun b m1 Hm1 => Hm1) (fun m1 Hm1 => Hm1)
              (ReadInv_issued mode timeout env s) Hc)
    as [(-> & m3 & m4 & b & H3 & Hc3 & Hdel & ->)
       | (-> & m2 & H2 & Hp2 & Hc2 & ->)].
  - left. exists m3, m4, b. auto.
  - right. exists m2. auto.
Qed.

(** X3: when an issued read has ended, whatever its result, no read
    callback is installed on the transport any more. *)
Theorem read_leaves_no_callback :
  forall (mode : ReadMode) (timeout : Z) (env : Env) (s : Socket)
         (o : Outcome N ReadBuffers),
    deferredReadEOF_ s = false ->
    readIn mode timeout env s = Done o ->
    readCallback_ (socket_ (self o)) = false.
Proof.
  intros mode timeout env s o Hd Hrun.
  destruct (readIn_cases _ _ _ _ _ Hd Hrun)
    as [(m3 & m4 & b & _ & _ & Hdel & ->) | (m2 & (_ & Hreg & _) & _ & _ & ->)].
  - assert (Hf0 : finished (ReadCallback_cancel (log Cancel m3)) = true)
      by reflexivity.
    assert (Hf : finished m4 = true)
      by (exact (finished_stays _ _ _ Hf0 Hdel)).
    unfold finished in Hf. apply andb_prop in Hf as [Hr _].
    apply negb_true_iff in Hr. exact Hr.
  - unfold readResult.
    change (error (set_observer false m2)) with (error m2).
    destruct (error m2) eqn:He; cbn.
    + apply Hreg. congruence.
    + reflexivity.
Qed.

Lemma read_leaves_no_callback_witness :
  exists o,
    readIn (Growing (mkQueue [] []) 2 8) 50%Z cancel_env fresh_socket = Done o /\
    readCallback_ (socket_ (self o)) = false.
Proof.
  eexists. split; [vm_compute; reflexivity|].
  apply (read_leaves_no_callback (Growing (mkQueue [] []) 2 8) 50%Z
           cancel_env fresh_socket).
  - reflexivity.
  - vm_compute. reflexivity.
Defined.

(** X4: an error a read ends with is never invented.  A socket error is
    one the transport reported through [readErr], or the time-out recorded
    when the timer fired, which happens only for a positive timeout;
    [OperationCancelled] means cancellation was requested. *)
Theorem read_error_provenance :
  forall (mode : ReadMode) (timeout : Z) (env : Env) (s : Socket)
         (o : Outcome N ReadBuffers) (e : exception),
    readIn mode timeout env s = Done o ->
    result o = Exception e ->
    match e with
    | SocketError ex =>
        In (EvReadErr ex) (allEvents env) \/
        exists errno, ex = timedOut errno /\
          In (EvTimeoutExpired errno) (allEvents env) /\ (0 < timeout)%Z
    | OperationCancelled =>
        tokenCancelled env = true \/ In EvCancellation (allEvents env)
    end.
Proof.
  intros mode timeout env s o e Hrun Hres.
  destruct (deferredReadEOF_ s) eqn:Hd.
  - rewrite (readIn_deferred _ _ _ _ Hd) in Hrun. injection Hrun as <-.
    discriminate.
  - destruct (readIn_cases _ _ _ _ _ Hd Hrun)
      as [(m3 & m4 & b & (_ & _ & Hcan & _) & Hc3 & _ & ->)
         | (m2 & (Herr & _) & _ & _ & ->)].
    + cbn in Hres. injection Hres as <-. auto.
    + unfold readResult in Hres.
      change (error (set_observer false m2)) with (error m2) in Hres.
      destruct Herr as [He | (ex & He & Hex)]; rewrite He in Hres.
      * discriminate.
      * cbn in Hres. injection Hres as <-. exact Hex.
Qed.

Lemma read_error_provenance_witness :
  exists o,
    readIn (Fixed (repeat x00 10)) 50%Z timeout_env fresh_socket = Done o /\
    result o = Exception (SocketError (timedOut 110%Z)) /\
    (In (EvReadErr (timedOut 110%Z)) (allEvents timeout_env) \/
     exists errno, timedOut 110%Z = timedOut errno /\
       In (EvTimeoutExpired errno) (allEvents timeout_env) /\ (0 < 50)%Z).
Proof.
  eexists. split; [vm_compute; reflexivity|]. split; [reflexivity|].
  eapply (read_error_provenance (Fixed (repeat x00 10)) 50%Z timeout_env
            fresh_socket _ (SocketError (timedOut 110%Z)));
    [vm_compute; reflexivity | reflexivity].
Defined.

(** X5: an error the transport reports to a suspended read is never
    swallowed: with no cancellation the read ends with that very error,
    also when data was delivered to the same read before it; nothing is
    delivered after it. *)
Theorem read_error_is_surfaced :
  forall (mode : ReadMode) (timeout : Z) (env : Env) (s : Socket)
         (pre post : list Event) (ex : AsyncSocketException),
    deferredReadEOF_ s = false ->
    tokenCancelled env = false ->
    inlineEvents env = [] ->
    loopEvents env = pre ++ EvReadErr ex :: post ->
    existsb isCancellation (loopEvents env) = false ->
    readIn mode timeout env s <> Refused ->
    exists o,
      readIn mode timeout env s = Done o /\
      result o = Exception (SocketError ex) /\
      deferredReadEOF_ (self o) = false /\
      post = [].
Proof.
  intros mode timeout env s pre post ex Hd Htok Hinl Hloop Hnc.
  rewrite (readIn_conduct _ _ _ _ Hd). intros Hnr.
  apply bind_not_Refused in Hnr.
  destruct (issued_facts mode timeout env s) as (Hc0 & _ & Hp0 & _).
  rewrite Htok in Hc0.
  destruct (conduct_suspends_delivered env _ Hinl Hc0 Hp0 Hnr)
    as (m2 & Hdel & ->).
  set (M0 := log Suspend (set_observer true (issued mode timeout env s))) in *.
  rewrite Hloop in Hdel, Hnc. rewrite deliverAll_app in Hdel.
  rewrite existsb_app in Hnc. apply orb_false_elim in Hnc as [Hnpre Hnpost].
  cbn [existsb isCancellation orb] in Hnpost.
  destruct (deliverAll pre M0) as [m1|] eqn:Hpre; [|discriminate].
  cbn [deliverAll] in Hdel.
  destruct (deliver (EvReadErr ex) m1) as [m1'|] eqn:Herr; [|discriminate].
  assert (Hfin : finished m1' = true)
    by (apply (terminal_deliver (EvReadErr ex) m1 m1' eq_refl Herr)).
  destruct (finished_deliverAll _ _ _ Hfin Hnpost Hdel) as [-> ->].
  apply deliver_EvReadErr_inv in Herr as [_ ->].
  pose proof (deliverAll_cancelRequested_same _ _ _ Hnpre Hpre) as Hc1.
  change (cancelRequested M0)
    with (cancelRequested (issued mode timeout env s)) in Hc1.
  rewrite Hc0 in Hc1.
  unfold resume, posted, readResult, error. red_model. rewrite Hc1.
  cbn [bind fst snd]. red_model.
  eexists. split; [reflexivity|]. red_model. rewrite Hd. auto.
Qed.

Lemma read_error_is_surfaced_witness :
  exists o,
    readIn (Fixed (repeat x00 10)) 0%Z data_then_error_env fresh_socket
    = Done o /\
    result o = Exception (SocketError read_error) /\
    deferredReadEOF_ (self o) = false /\
    @nil Event = [].
Proof.
  apply (read_error_is_surfaced (Fixed (repeat x00 10)) 0%Z
           data_then_error_env fresh_socket
           [EvReadData ["a"; "b"; "c"]%byte] [] read_error).
  - reflexivity.
  - reflexivity.
  - reflexivity.
  - reflexivity.
  - reflexivity.
  - vm_compute. discriminate.
Defined.

(** ** Reads: what the caller's buffer holds *)

Lemma store_skipn (off : N) (data region : list byte) (n : nat) :
  (N.to_nat off + List.length data <= n)%nat ->
  (N.to_nat off + List.length data <= List.length region)%nat ->
  skipn n (store off data region) = skipn n region.
Proof.
  intros Hn Hle. unfold store.
  assert (Hl : List.length (firstn (N.to_nat off) region) = N.to_nat off)
    by (rewrite length_firstn; lia).
  rewrite skipn_app, Hl.
  rewrite (skipn_all2 (firstn (N.to_nat off) region)) by lia.
  cbn [app]. rewrite skipn_app.
  rewrite (skipn_all2 data) by lia. cbn [app].
  rewrite skipn_skipn. f_equal. lia.
Qed.

Lemma deliver_nondata_cb (e : Event) (m m' : Machine ReadCallback) :
  isData e = false -> deliver e m = Some m' ->
  buf_ (cb m') = buf_ (cb m) /\ readBuf_ (cb m') = readBuf_ (cb m) /\
  length (cb m') = length (cb m).
Proof.
  intros He Hd. destruct e; try discriminate;
    try (now apply deliver_read_event in Hd).
  - apply deliver_EvReadEOF_inv in Hd as [_ ->]. auto.
  - apply deliver_EvReadErr_inv in Hd as [_ ->]. auto.
  - apply deliver_EvTimeoutExpired_inv in Hd as [_ ->].
    unfold timeoutExpired. red_model. now destruct (N.eqb _ _).
  - apply requestCancellation_inv in Hd as [_ ->]. now destruct (observer m).
Qed.

(** On a fixed buffer the delivered bytes lie in order behind the bytes
    read before, and the rest of the range is untouched. *)
Lemma fixed_contents (S : N) (es : list Event) (m m' : Machine ReadCallback) :
  S < SIZE_MOD -> FixedInv S (cb m) -> deliverAll es m = Some m' ->
  length (cb m') = length (cb m) + bytesDelivered es /\
  firstn (N.to_nat (length (cb m'))) (buf_ (cb m')) =
    firstn (N.to_nat (length (cb m))) (buf_ (cb m)) ++ payload es /\
  skipn (N.to_nat (length (cb m'))) (buf_ (cb m')) =
    skipn (N.to_nat (length (cb m'))) (buf_ (cb m)).
Proof.
  intros HS. revert m. induction es as [|e es IH]; intros m Hinv;
    cbn [deliverAll].
  - intros [= <-]. cbn [bytesDelivered payload].
    rewrite N.add_0_r, app_nil_r. auto.
  - destruct (deliver e m) as [m1|] eqn:Hd; [|discriminate]. intros Hrest.
    pose proof (FixedInv_deliver _ _ _ _ HS Hinv Hd) as Hinv1.
    destruct (IH _ Hinv1 Hrest) as (Hlen & Hfirst & Hskip).
    destruct (isData e) eqn:He.
    + destruct e; try discriminate. cbn [bytesDelivered payload].
      destruct (fixed_step _ _ _ _ HS Hinv Hd) as (Hlen1 & Hbuf1 & _).
      destruct Hinv as (_ & Hsz & Hle). destruct Hinv1 as (_ & Hsz1 & Hle1).
      unfold size in *.
      assert (Hnat1 : N.to_nat (length (cb m1))
                      = (N.to_nat (length (cb m)) + List.length data)%nat)
        by (rewrite Hlen1; lia).
      split; [lia|]. split.
      * rewrite Hfirst, Hbuf1, Hnat1, store_prefix by lia.
        now rewrite app_assoc.
      * rewrite Hskip, Hbuf1. apply store_skipn; lia.
    + destruct (deliver_nondata_cb _ _ _ He Hd) as (Hb & _ & Hl).
      rewrite Hb, Hl in *.
      assert (Hz : bytesDelivered (e :: es) = bytesDelivered es
                   /\ payload (e :: es) = payload es)
        by (destruct e; try discriminate; auto).
      destruct Hz as [-> ->]. auto.
Qed.

(** In growing mode the delivered bytes are appended to the queue. *)
Lemma growing_contents (es : list Event) (q : IOBufQueue)
  (m m' : Machine ReadCallback) :
  readBuf_ (cb m) = Some q -> length (cb m) < SIZE_MOD ->
  deliverAll es m = Some m' ->
  length (cb m') = size_add (length (cb m)) (bytesDelivered es) /\
  exists q', readBuf_ (cb m') = Some q' /\ chain q' = chain q ++ payload es.
Proof.
  revert q m. induction es as [|e es IH]; intros q m Hq Hlt;
    cbn [deliverAll].
  - intros [= <-]. cbn [bytesDelivered payload]. unfold size_add.
    rewrite N.add_0_r, N.mod_small, app_nil_r by exact Hlt. eauto.
  - destruct (deliver e m) as [m1|] eqn:Hd; [|discriminate]. intros Hrest.
    destruct (isData e) eqn:He.
    + destruct e; try discriminate. cbn [bytesDelivered payload].
      destruct (deliver_data_growing _ _ _ _ Hq Hd)
        as (_ & _ & _ & (q1 & Hq1 & Hch1) & Hlen1 & _).
      assert (Hlt1 : length (cb m1) < SIZE_MOD)
        by (rewrite Hlen1; apply size_add_lt).
      destruct (IH _ _ Hq1 Hlt1 Hrest) as (Hlen & q' & Hq' & Hch).
      split; [now rewrite Hlen, Hlen1, size_add_assoc_mod|].
      exists q'. split; [exact Hq'|]. now rewrite Hch, Hch1, app_assoc.
    + destruct (deliver_nondata_cb _ _ _ He Hd) as (_ & Hb & Hl).
      rewrite <- Hb in Hq. rewrite <- Hl in Hlt.
      destruct (IH _ _ Hq Hlt Hrest) as (Hlen & q' & Hq' & Hch).
      assert (Hz : bytesDelivered (e :: es) = bytesDelivered es
                   /\ payload (e :: es) = payload es)
        by (destruct e; try discriminate; auto).
      destruct Hz as [-> ->]. rewrite <- Hl. eauto.
Qed.

(** An issued read that is not cancelled beforehand, with nothing
    delivered from inside [setReadCB] and a value as result: the machine
    it resumed from. *)
Lemma readIn_value_resumed mode timeout env s o n :
  deferredReadEOF_ s = false ->
  tokenCancelled env = false ->
  inlineEvents env = [] ->
  readIn mode timeout env s = Done o ->
  result o = Value n ->
  exists m2,
    deliverAll (loopEvents env)
      (log Suspend (set_observer true (issued mode timeout env s))) = Some m2 /\
    error m2 = None /\
    n = length (cb m2) /\ memory o = buffers (cb m2) /\
    deferredReadEOF_ (self o) = eof (cb m2) && (0 <? length (cb m2)).
Proof.
  intros Hd Htok Hinl Hrun Hres.
  rewrite (readIn_conduct _ _ _ _ Hd) in Hrun.
  destruct (issued_facts mode timeout env s) as (Hc0 & _ & Hp0 & _).
  rewrite Htok in Hc0.
  assert (Hnr : conduct env (issued mode timeout env s) <> Refused).
  { intros Hr. rewrite Hr in Hrun. discriminate. }
  destruct (conduct_suspends_delivered env _ Hinl Hc0 Hp0 Hnr)
    as (m2 & Hdel & Heq).
  rewrite Heq in Hrun. exists m2. split; [exact Hdel|].
  unfold resume in Hrun. destruct (posted m2); [|discriminate].
  destruct (cancelRequested m2).
  - destruct (callCancel env m2); cbn [bind] in Hrun; try discriminate.
    injection Hrun as <-. discriminate.
  - cbn [bind fst snd] in Hrun. injection Hrun as <-.
    unfold readResult in *.
    change (error (set_observer false m2)) with (error m2) in *.
    destruct (error m2); [discriminate|].
    cbn in Hres |- *. injection Hres as <-. auto.
Qed.

(** X6: a fixed-buffer read that returns [n] has received exactly [n]
    bytes; they are the bytes the transport delivered, in order, at the
    front of the caller's range, and the range behind them is as the
    caller passed it. *)
Theorem fixed_read_returns_delivered_bytes :
  forall (buf : list byte) (timeout : Z) (env : Env) (s : Socket)
         (o : Outcome N ReadBuffers) (n : N),
    size buf < SIZE_MOD ->
    deferredReadEOF_ s = false ->
    tokenCancelled env = false ->
    inlineEvents env = [] ->
    read buf timeout env s = Done o ->
    result o = Value n ->
    n = bytesDelivered (loopEvents env) /\
    firstn (N.to_nat n) (fst (memory o)) = payload (loopEvents env) /\
    skipn (N.to_nat n) (fst (memory o)) = skipn (N.to_nat n) buf.
Proof.
  intros buf timeout env s o n HS Hd Htok Hinl Hrun Hres.
  destruct (readIn_value_resumed (Fixed buf) timeout env s o n
              Hd Htok Hinl Hrun Hres) as (m2 & Hdel & _ & -> & -> & _).
  set (M0 := log Suspend (set_observer true
                            (issued (Fixed buf) timeout env s))) in *.
  assert (Hinit : FixedInv (size buf) (cb M0)).
  { unfold M0, issued, construct, ReadCallback_range, armTimer.
    destruct (0 <? timeout)%Z; repeat split; apply N.le_0_l. }
  assert (Hb0 : buf_ (cb M0) = buf /\ length (cb M0) = 0).
  { unfold M0, issued, construct, ReadCallback_range, armTimer.
    destruct (0 <? timeout)%Z; split; reflexivity. }
  destruct Hb0 as [Hb0 Hl0].
  destruct (fixed_contents _ _ _ _ HS Hinit Hdel) as (Hlen & Hfirst & Hskip).
  rewrite Hb0, Hl0 in *. rewrite N.add_0_l in Hlen.
  cbn [N.to_nat firstn app] in Hfirst. cbn [buffers fst].
  auto.
Qed.

Lemma fixed_read_returns_delivered_bytes_witness :
  exists o,
    read (repeat x00 10) 0%Z two_chunks_env fresh_socket = Done o /\
    result o = Value 5 /\
    5 = bytesDelivered (loopEvents two_chunks_env) /\
    firstn (N.to_nat 5) (fst (memory o)) = payload (loopEvents two_chunks_env) /\
    skipn (N.to_nat 5) (fst (memory o)) = skipn (N.to_nat 5) (repeat x00 10).
Proof.
  eexists. split; [vm_compute; reflexivity|]. split; [reflexivity|].
  apply (fixed_read_returns_delivered_bytes (repeat x00 10) 0%Z
           two_chunks_env fresh_socket);
    [reflexivity | reflexivity | reflexivity | reflexivity
    | vm_compute; reflexivity | reflexivity].
Defined.

(** X7: a growing-buffer read that returns a value has appended to the
    caller's queue exactly the bytes the transport delivered, in order,
    and returns their number (modulo the range of [size_t]). *)
Theorem growing_read_appends_delivered_bytes :
  forall (readBuf : IOBufQueue) (minReadSize newAllocationSize : N)
         (timeout : Z) (env : Env) (s : Socket)
         (o : Outcome N ReadBuffers) (n : N),
    deferredReadEOF_ s = false ->
    tokenCancelled env = false ->
    inlineEvents env = [] ->
    read_queue readBuf minReadSize newAllocationSize timeout env s = Done o ->
    result o = Value n ->
    n = bytesDelivered (loopEvents env) mod SIZE_MOD /\
    exists q', snd (memory o) = Some q' /\
               chain q' = chain readBuf ++ payload (loopEvents env).
Proof.
  intros q a b timeout env s o n Hd Htok Hinl Hrun Hres.
  destruct (readIn_value_resumed (Growing q a b) timeout env s o n
              Hd Htok Hinl Hrun Hres) as (m2 & Hdel & _ & -> & -> & _).
  set (M0 := log Suspend (set_observer true
                            (issued (Growing q a b) timeout env s))) in *.
  assert (Hb0 : readBuf_ (cb M0) = Some q /\ length (cb M0) = 0).
  { unfold M0, issued, construct, ReadCallback_queue, armTimer.
    destruct (0 <? timeout)%Z; split; reflexivity. }
  destruct Hb0 as [Hb0 Hl0].
  assert (Hlt : length (cb M0) < SIZE_MOD) by (rewrite Hl0; reflexivity).
  destruct (growing_contents _ _ _ _ Hb0 Hlt Hdel) as (Hlen & q' & Hq' & Hch).
  rewrite Hl0 in Hlen. unfold size_add in Hlen. rewrite N.add_0_l in Hlen.
  split; [exact Hlen|]. exists q'. cbn [buffers snd]. auto.
Qed.

Lemma growing_read_appends_delivered_bytes_witness :
  exists o,
    read_queue (mkQueue ["z"]%byte []) 2 8 0%Z two_chunks_env fresh_socket
    = Done o /\
    result o = Value 5 /\
    5 = bytesDelivered (loopEvents two_chunks_env) mod SIZE_MOD /\
    exists q', snd (memory o) = Some q' /\
      chain q' = chain (mkQueue ["z"]%byte [])
                 ++ payload (loopEvents two_chunks_env).
Proof.
  eexists. split; [vm_compute; reflexivity|]. split; [reflexivity|].
  apply (growing_read_appends_delivered_bytes (mkQueue ["z"]%byte []) 2 8 0%Z
           two_chunks_env fresh_socket);
    [reflexivity | reflexivity | reflexivity
    | vm_compute; reflexivity | reflexivity].
Defined.

(** ** Reads: what 0 and the deferred bit mean *)

(** X8: the deferred end-of-stream bit is set only by a read that went to
    the transport, was delivered the end of stream, and returned a positive
    number of bytes. *)
Theorem deferred_bit_means_eof_after_data :
  forall (mode : ReadMode) (timeout : Z) (env : Env) (s : Socket)
         (o : Outcome N ReadBuffers),
    readIn mode timeout env s = Done o ->
    deferredReadEOF_ (self o) = true ->
    deferredReadEOF_ s = false /\
    In EvReadEOF (allEvents env) /\
    exists n, result o = Value n /\ 0 < n.
Proof.
  intros mode timeout env s o Hrun Hbit.
  destruct (deferredReadEOF_ s) eqn:Hd.
  - rewrite (readIn_deferred _ _ _ _ Hd) in Hrun. injection Hrun as <-.
    discriminate.
  - split; [reflexivity|].
    destruct (readIn_cases _ _ _ _ _ Hd Hrun)
      as [(m3 & m4 & b & _ & _ & _ & ->)
         | (m2 & (_ & _ & _ & _ & Heof) & _ & _ & ->)].
    + cbn in Hbit. congruence.
    + unfold readResult in *.
      change (error (set_observer false m2)) with (error m2) in *.
      destruct (error m2); cbn in Hbit |- *; [congruence|].
      apply andb_prop in Hbit as [He Hl]. apply N.ltb_lt in Hl.
      split; [now apply Heof|]. eauto.
Qed.

Lemma deferred_bit_means_eof_after_data_witness :
  exists o,
    readIn (Fixed (repeat x00 10)) 0%Z data_eof_env fresh_socket = Done o /\
    deferredReadEOF_ (self o) = true /\
    deferredReadEOF_ fresh_socket = false /\
    In EvReadEOF (allEvents data_eof_env) /\
    exists n, result o = Value n /\ 0 < n.
Proof.
  eexists. split; [vm_compute; reflexivity|]. split; [reflexivity|].
  apply (deferred_bit_means_eof_after_data (Fixed (repeat x00 10)) 0%Z
           data_eof_env fresh_socket);
    [vm_compute; reflexivity | reflexivity].
Defined.

Lemma PostCause_deliver (S : N) (e : Event) (m m' : Machine ReadCallback) :
  S < SIZE_MOD -> FixedInv S (cb m) -> PostCause m ->
  deliver e m = Some m' -> PostCause m'.
Proof.
  intros HS Hinv Hpc Hd. unfold PostCause in *.
  destruct e; try (now apply deliver_read_event in Hd).
  - destruct (fixed_step _ _ _ _ HS Hinv Hd) as (Hlen & _).
    destruct (deliver_data_frame _ _ _ Hd) as (_ & _ & _ & _ & _ & _ & H0).
    intros _. left. lia.
  - apply deliver_EvReadEOF_inv in Hd as [_ ->]. intros _. right. now left.
  - apply deliver_EvReadErr_inv in Hd as [_ ->]. intros _. right. right.
    left. discriminate.
  - apply deliver_EvTimeoutExpired_inv in Hd as [_ ->].
    unfold timeoutExpired. red_model. destruct (N.eqb _ _).
    + intros _. right. right. left. discriminate.
    + exact Hpc.
  - apply requestCancellation_inv in Hd as [_ ->].
    destruct (observer m); intros Hp; auto 10.
Qed.

(** X9: a fixed-buffer read that goes to the transport returns 0 only when
    the end of the stream was delivered to it. *)
Theorem fixed_read_zero_means_eof :
  forall (buf : list byte) (timeout : Z) (env : Env) (s : Socket)
         (o : Outcome N ReadBuffers),
    size buf < SIZE_MOD ->
    deferredReadEOF_ s = false ->
    read buf timeout env s = Done o ->
    result o = Value 0 ->
    In EvReadEOF (allEvents env) /\ deferredReadEOF_ (self o) = false.
Proof.
  intros buf timeout env s o HS Hd Hrun Hres.
  change (read buf timeout env s)
    with (readIn (Fixed buf) timeout env s) in Hrun.
  rewrite (readIn_conduct _ _ _ _ Hd) in Hrun.
  destruct (conduct _ _) as [[w m']| |] eqn:Hc; cbn [bind fst snd] in Hrun;
    try discriminate.
  injection Hrun as <-.
  set (P := fun m : Machine ReadCallback =>
              ReadInv timeout env m /\ FixedInv (size buf) (cb m) /\
              PostCause m).
  assert (Hinit : P (issued (Fixed buf) timeout env s)).
  { split; [apply ReadInv_issued|]. split.
    - unfold issued, construct, ReadCallback_range, armTimer.
      destruct (0 <? timeout)%Z; repeat split; apply N.le_0_l.
    - intros Hp.
      destruct (issued_facts (Fixed buf) timeout env s) as (_ & _ & Hp0 & _).
      congruence. }
  assert (Hdel : forall e m1 m2, In e (allEvents env) -> P m1 ->
                   deliver e m1 = Some m2 -> P m2).
  { intros e m1 m2 Hin (H1 & H2 & H3) Hdl. split; [|split].
    - eapply ReadInv_deliver; eauto.
    - eapply FixedInv_deliver; eauto.
    - eapply PostCause_deliver; eauto. }
  destruct (conduct_cases P env _ m' w Hdel
              (fun b m1 Hm1 => Hm1) (fun m1 Hm1 => Hm1) Hinit Hc)
    as [(-> & _) | (-> & m2 & (Hri & Hfi & Hpc) & Hp2 & Hc2 & ->)].
  - discriminate.
  - unfold readResult in *.
    change (error (set_observer false m2)) with (error m2) in *.
    destruct (error m2) eqn:He; [discriminate|].
    cbn in Hres |- *. injection Hres as Hlen. rewrite Hlen.
    destruct Hri as (_ & _ & _ & _ & Heof).
    destruct (Hpc Hp2) as [H1 | [H1 | [H1 | H1]]]; try congruence.
    split; [now apply Heof | apply andb_false_r].
Qed.

Lemma fixed_read_zero_means_eof_witness :
  exists o,
    read (repeat x00 10) 50%Z eof_env fresh_socket = Done o /\
    result o = Value 0 /\
    In EvReadEOF (allEvents eof_env) /\ deferredReadEOF_ (self o) = false.
Proof.
  eexists. split; [vm_compute; reflexivity|]. split; [reflexivity|].
  apply (fixed_read_zero_means_eof (repeat x00 10) 50%Z eof_env fresh_socket);
    [reflexivity | reflexivity | vm_compute; reflexivity | reflexivity].
Defined.

(** ** Connect: where results come from *)

Lemma ConnectInv_deliver env (e : Event) (m m' : Machine ConnectCallback) :
  In e (allEvents env) -> ConnectInv env m ->
  deliver e m = Some m' -> ConnectInv env m'.
Proof.
  intros Hin (Herr & Hpost & Hcan & Hread & Hslot) Hd. unfold ConnectInv.
  destruct e; cbn [deliver dispatch ConnectCallback_callback
                   ConnectCallback_dispatch] in Hd; try discriminate.
  - destruct (connectCallback_ (sock m)); [|discriminate].
    injection Hd as <-. repeat split; auto.
  - destruct (connectCallback_ (sock m)); [|discriminate].
    injection Hd as <-.
    split; [right; exists ex; auto|].
    repeat split; auto. intros _. left. discriminate.
  - destruct (cancelRequested m); [discriminate|]. injection Hd as <-.
    destruct (observer _); repeat split; auto.
Qed.

(** X10: what [connect] returns is justified by what happened.  It yields
    a [Socket] only after the transport reported success, and that socket
    has no connect or read callback installed and no deferred end of
    stream; a socket error is one the transport reported; cancellation
    means it was requested, and [cancelConnect] was then called. *)
Theorem connect_outcome :
  forall (connectTimeout : Z) (env : Env) (r : Try Socket)
         (tr : list Action),
    connect connectTimeout env = Done (r, tr) ->
    match r with
    | Value s =>
        idle (socket_ s) /\ deferredReadEOF_ s = false /\
        In EvConnectSuccess (allEvents env)
    | Exception (SocketError ex) => In (EvConnectErr ex) (allEvents env)
    | Exception OperationCancelled =>
        (tokenCancelled env = true \/ In EvCancellation (allEvents env)) /\
        In CallCancelConnect tr
    end.
Proof.
  intros t env r tr Hrun. rewrite connect_conduct in Hrun.
  destruct (conduct _ _) as [[w m']| |] eqn:Hc; cbn [bind] in Hrun;
    try discriminate.
  injection Hrun as Hres.
  assert (Hinit : ConnectInv env (connectIssued t env)).
  { unfold ConnectInv. cbn. repeat split; auto; discriminate. }
  destruct (conduct_cases (ConnectInv env) env _ m' w
              (ConnectInv_deliver env)
              (fun b m1 Hm1 => Hm1) (fun m1 Hm1 => Hm1) Hinit Hc)
    as [(-> & m3 & m4 & b & (_ & _ & Hcan & _) & Hc3 & Hdel & ->)
       | (-> & m2 & (Herr & Hpost & _ & Hread & Hslot) & Hp2 & Hc2 & ->)].
  - unfold connectResult in Hres. cbn [fst snd] in Hres.
    injection Hres as <- <-. split; [auto|].
    destruct (deliverAll_trace _ _ _ Hdel) as (l & Ht & _).
    cbn [set_observer trace]. rewrite Ht. cbn.
    rewrite !in_app_iff. left. right. now left.
  - unfold connectResult in Hres. cbn [fst snd] in Hres.
    change (error (set_observer false m2)) with (error m2) in Hres.
    destruct Herr as [He | (ex & He & Hex)]; rewrite He in Hres;
      injection Hres as <- <-.
    + cbn [socket_ deferredReadEOF_ set_observer sock].
      split; [|split; [reflexivity|]].
      * split; [|exact Hread].
        destruct (Hslot Hp2) as [Hx | Hx]; congruence.
      * destruct (Hpost Hp2) as [Hx | [Hx | Hx]]; congruence.
    + exact Hex.
Qed.

Lemma connect_outcome_witness :
  exists tr,
    connect 50%Z connect_fails_env
    = Done (Exception (SocketError connect_refused), tr) /\
    In (EvConnectErr connect_refused) (allEvents connect_fails_env).
Proof.
  eexists. split; [vm_compute; reflexivity|].
  eapply (connect_outcome 50%Z connect_fails_env
            (Exception (SocketError connect_refused))).
  vm_compute. reflexivity.
Defined.

(** ** Writes: where results come from, and what they leave alone *)

Lemma WriteInv_deliver env s (e : Event) (m m' : Machine WriteCallback) :
  In e (allEvents env) -> WriteInv env s m ->
  deliver e m = Some m' -> WriteInv env s m'.
Proof.
  intros Hin (Herr & Hpost & Hcan & Hread & Hconn) Hd. unfold WriteInv.
  destruct e; cbn [deliver dispatch WriteCallback_callback
                   WriteCallback_dispatch] in Hd; try discriminate.
  - destruct (writePending_ (sock m)); [|discriminate].
    injection Hd as <-. repeat split; auto.
  - destruct (writePending_ (sock m) && (bytes <? SIZE_MOD)); [|discriminate].
    injection Hd as <-.
    split; [right; exists bytes, ex; auto|].
    repeat split; auto. intros _. left. discriminate.
  - destruct (cancelRequested m); [discriminate|]. injection Hd as <-.
    destruct (observer _); repeat split; auto.
Qed.

Lemma writeIn_cases form timeout writeInfo env s o :
  writeIn form timeout writeInfo env s = Done o ->
  (exists m3 m4 b,
      WriteInv env s m3 /\ cancelRequested m3 = true /\
      deliverAll (closeEvents env) (cancel (log Cancel m3)) = Some m4 /\
      o = writeResult writeInfo s
            (Exception OperationCancelled, set_observer b m4)) \/
  (exists m2,
      WriteInv env s m2 /\ posted m2 = true /\ cancelRequested m2 = false /\
      o = writeResult writeInfo s (Value tt, set_observer false m2)).
Proof.
  intros Hrun. rewrite writeIn_conduct in Hrun.
  destruct (conduct _ _) as [[w m']| |] eqn:Hc; cbn [bind] in Hrun;
    try discriminate.
  injection Hrun as <-.
  assert (Hinit : WriteInv env s (writeIssued (submitCall form) timeout env s)).
  { unfold WriteInv. cbn. repeat split; auto; discriminate. }
  destruct (conduct_cases (WriteInv env s) env _ m' w
              (WriteInv_deliver env s)
              (fun b m1 Hm1 => Hm1) (fun m1 Hm1 => Hm1) Hinit Hc)
    as [(-> & m3 & m4 & b & H3 & Hc3 & Hdel & ->)
       | (-> & m2 & H2 & Hp2 & Hc2 & ->)].
  - left. exists m3, m4, b. auto.
  - right. exists m2. auto.
Qed.

(** X11: what a write ends with is justified by what happened.  It
    succeeds only after the transport reported success, and then leaves a
    supplied [writeInfo] as it was; a socket error is the one of a
    write-error event, and a supplied [writeInfo] then holds the byte count
    of that same event; cancellation means it was requested, and
    [closeWithReset] was then called. *)
Theorem write_outcome :
  forall (form : WriteForm) (timeout : Z) (writeInfo : option WriteInfo)
         (env : Env) (s : Socket) (o : Outcome unit (option WriteInfo)),
    writeIn form timeout writeInfo env s = Done o ->
    match result o with
    | Value _ => memory o = writeInfo /\ In EvWriteSuccess (allEvents env)
    | Exception (SocketError ex) =>
        exists k, In (EvWriteErr k ex) (allEvents env) /\
          memory o = match writeInfo with
                     | Some _ => Some (mkWriteInfo k)
                     | None => None
                     end
    | Exception OperationCancelled =>
        (tokenCancelled env = true \/ In EvCancellation (allEvents env)) /\
        In CallCloseWithReset (actions o)
    end.
Proof.
  intros form timeout writeInfo env s o Hrun.
  destruct (writeIn_cases _ _ _ _ _ _ Hrun)
    as [(m3 & m4 & b & (_ & _ & Hcan & _) & Hc3 & Hdel & ->)
       | (m2 & (Herr & Hpost & _) & Hp2 & Hc2 & ->)].
  - cbn. split; [auto|].
    destruct (deliverAll_trace _ _ _ Hdel) as (l & Ht & _).
    rewrite Ht. cbn. rewrite !in_app_iff. left. right. now left.
  - unfold writeResult. cbn [fst snd set_observer cb].
    destruct Herr as [[He Hb] | (k & ex & He & Hb & Hin)]; rewrite He.
    + cbn. split; [reflexivity|].
      destruct (Hpost Hp2) as [Hx | [Hx | Hx]]; congruence.
    + cbn. exists k. split; [exact Hin|].
      unfold populate. now rewrite Hb.
Qed.

Lemma write_outcome_witness :
  exists o,
    writeIn (Vectored [repeat x00 60; repeat x00 40]) 0%Z
            (Some (mkWriteInfo 7)) write_fails_env fresh_socket = Done o /\
    result o = Exception (SocketError write_failure) /\
    exists k, In (EvWriteErr k write_failure) (allEvents write_fails_env) /\
              memory o = Some (mkWriteInfo k).
Proof.
  eexists. split; [vm_compute; reflexivity|]. split; [reflexivity|].
  match goal with
  | |- context [memory ?O] =>
      apply (write_outcome (Vectored [repeat x00 60; repeat x00 40]) 0%Z
               (Some (mkWriteInfo 7)) write_fails_env fresh_socket O)
  end.
  vm_compute. reflexivity.
Defined.

(** X12: a write never touches the deferred end-of-stream bit, however it
    ends: a deferred end of stream survives writes, and the read after the
    write still returns 0 at once and clears the bit. *)
Theorem write_keeps_deferredReadEOF :
  forall (form : WriteForm) (timeout : Z) (writeInfo : option WriteInfo)
         (env : Env) (s : Socket) (o : Outcome unit (option WriteInfo)),
    writeIn form timeout writeInfo env s = Done o ->
    deferredReadEOF_ (self o) = deferredReadEOF_ s /\
    (deferredReadEOF_ s = true ->
     forall mode timeout' env',
       readIn mode timeout' env' (self o) =
       Done (mkOutcome (Value 0) (mkSocket (socket_ (self o)) false)
                       (untouched mode) [])).
Proof.
  intros form timeout writeInfo env s o Hrun.
  assert (Hd : deferredReadEOF_ (self o) = deferredReadEOF_ s).
  { rewrite writeIn_conduct in Hrun.
    destruct (conduct env _) as [[w m3]| |]; cbn [bind] in Hrun;
      try discriminate.
    injection Hrun as <-. unfold writeResult. cbn [fst snd].
    destruct w; [destruct (WriteCallback_error (cb m3))|]; reflexivity. }
  split; [exact Hd|].
  intros Hs mode timeout' env'. apply readIn_deferred. congruence.
Qed.

Lemma write_keeps_deferredReadEOF_witness :
  exists o,
    writeIn (Single (repeat x00 100)) 0%Z None write_inline_env
            (mkSocket newSocket true) = Done o /\
    deferredReadEOF_ (self o) = true /\
    (deferredReadEOF_ (mkSocket newSocket true) = true ->
     forall mode timeout' env',
       readIn mode timeout' env' (self o) =
       Done (mkOutcome (Value 0) (mkSocket (socket_ (self o)) false)
                       (untouched mode) [])).
Proof.
  eexists. split; [vm_compute; reflexivity|].
  apply (write_keeps_deferredReadEOF (Single (repeat x00 100)) 0%Z None
           write_inline_env (mkSocket newSocket true)).
  vm_compute. reflexivity.
Defined.

(** ** Completion inside the registering call, and the timer *)

Section InlineCompletion.
Context {C : Type} `{CallbackLaws C}.

Lemma conduct_inline_no_suspend (env : Env) (m m' : Machine C)
  (r : Try unit) :
  (forall e m1, deliver e m = Some m1 ->
                posted m1 = true \/ cancelRequested m1 = true) ->
  inlineEvents env <> [] ->
  conduct env m = Done (r, m') ->
  occurrences Suspend (trace m') = occurrences Suspend (trace m).
Proof.
  intros Hfirst Hne. unfold conduct.
  destruct (reactor _ m) as [m2| |] eqn:Hr; cbn [bind]; try discriminate.
  apply reactor_Done in Hr.
  destruct (deliverAll_trace _ _ _ Hr) as (l0 & Ht0 & Hl0).
  assert (H2 : occurrences Suspend (trace m2) = occurrences Suspend (trace m)).
  { rewrite Ht0, occurrences_app, (passive_occurrences Suspend l0); auto. }
  assert (Hdone : posted m2 = true \/ cancelRequested m2 = true).
  { destruct (inlineEvents env) as [|e es]; [congruence|].
    cbn [deliverAll] in Hr.
    destruct (deliver e m) as [m1|] eqn:Hd; [|discriminate].
    destruct (Hfirst _ _ Hd) as [Hp | Hc'].
    - left. eapply deliverAll_posted_mono; eauto.
    - right. eapply deliverAll_cancelRequested_mono; eauto. }
  assert (Hcancel : forall m3 m4, callCancel env m3 = Done m4 ->
            occurrences Suspend (trace m4) = occurrences Suspend (trace m3)).
  { intros m3 m4 Hcc. destruct (callCancel_trace _ _ _ Hcc) as (l & -> & Hl).
    change (Cancel :: l) with ([Cancel] ++ l).
    rewrite !occurrences_app, (passive_occurrences Suspend l); auto. }
  unfold wait. destruct (cancelRequested m2) eqn:Hc2.
  - destruct (callCancel env m2) as [m3| |] eqn:Hcc; cbn [bind];
      try discriminate.
    intros [= _ <-]. rewrite (Hcancel _ _ Hcc). exact H2.
  - destruct Hdone as [Hp2 | Hx]; [|congruence].
    unfold await. change (posted (set_observer true m2)) with (posted m2).
    rewrite Hp2. cbn [bind].
    change (cancelRequested (set_observer true m2))
      with (cancelRequested m2). rewrite Hc2.
    intros [= _ <-]. exact H2.
Qed.
End InlineCompletion.

(** X13: an operation whose callback is already invoked from inside the
    registering call (a connect that fails at once, a write that the
    transport completes at once) never suspends. *)
Theorem inline_completion_never_suspends :
  forall (op : Operation) (env : Env) (s : Socket) r tr,
    inlineEvents env <> [] ->
    perform op env s = Done (r, tr) ->
    occurrences Suspend tr = 0%nat.
Proof.
  intros op env s r tr Hne Hrun. destruct (issues op s) eqn:Hi.
  - destruct (perform_shape op env s Hi)
      as (C & HS & HC & HL & m & k & Heq & _ & _ & _ & _ & Hsu & Hk & Hfirst).
    rewrite Heq in Hrun.
    destruct (conduct env m) as [[w m3]| |] eqn:Hc; cbn [bind] in Hrun;
      try discriminate.
    injection Hrun as Hkr. destruct (Hk (w, m3)) as (l & Hl & Hpas).
    rewrite Hkr in Hl. cbn [snd] in Hl. subst tr.
    rewrite occurrences_app, (passive_occurrences Suspend l eq_refl Hpas).
    rewrite (conduct_inline_no_suspend env m m3 w Hfirst Hne Hc), Hsu.
    reflexivity.
  - rewrite (perform_not_issued _ _ _ Hi) in Hrun. injection Hrun as _ <-.
    reflexivity.
Qed.

Lemma inline_completion_never_suspends_witness :
  exists r tr,
    perform (OpWrite (repeat x00 100) 0%Z None) write_inline_env fresh_socket
    = Done (r, tr) /\
    r = None /\ occurrences Suspend tr = 0%nat.
Proof.
  do 2 eexists. split; [vm_compute; reflexivity|]. split; [reflexivity|].
  apply (inline_completion_never_suspends
           (OpWrite (repeat x00 100) 0%Z None) write_inline_env fresh_socket
           None).
  - discriminate.
  - vm_compute. reflexivity.
Defined.



(** ** The deferred end of stream is reported once *)

(** X15: a read that finds the deferred end-of-stream bit set returns 0
    without touching the transport, whatever the token and the environment,
    and reports it once only: the read after it goes to the transport
    again. *)
Theorem deferred_eof_is_reported_once :
  forall (mode : ReadMode) (timeout : Z) (env : Env) (s : Socket),
    deferredReadEOF_ s = true ->
    exists o,
      readIn mode timeout env s = Done o /\
      result o = Value 0 /\ actions o = [] /\
      socket_ (self o) = socket_ s /\ memory o = untouched mode /\
      (forall mode' timeout' env' o',
          readIn mode' timeout' env' (self o) = Done o' ->
          In (CallSetReadCB true) (actions o')) /\
      (forall mode' timeout',
          readIn mode' timeout' (mkEnv false [] [] []) (self o) = Pending).
Proof.
  intros mode timeout env s Hd. rewrite (readIn_deferred _ _ _ _ Hd).
  eexists. split; [reflexivity|]. cbn. repeat split.
  - intros mode' timeout' env' o'. now apply readIn_registers.
  - intros mode' timeout'. now apply readIn_silent_pending.
Qed.

Lemma deferred_eof_is_reported_once_witness :
  exists o,
    readIn (Fixed (repeat x00 10)) 50%Z precancelled_env
           (mkSocket newSocket true) = Done o /\
    result o = Value 0 /\ actions o = [] /\
    socket_ (self o) = socket_ (mkSocket newSocket true) /\
    memory o = untouched (Fixed (repeat x00 10)) /\
    (forall mode' timeout' env' o',
        readIn mode' timeout' env' (self o) = Done o' ->
        In (CallSetReadCB true) (actions o')) /\
    (forall mode' timeout',
        readIn mode' timeout' (mkEnv false [] [] []) (self o) = Pending).
Proof.
  apply (deferred_eof_is_reported_once (Fixed (repeat x00 10)) 50%Z
           precancelled_env (mkSocket newSocket true)).
  reflexivity.
Defined.

(** ** [cancel()] and the cancelled result go together *)

Lemma conduct_cancel_count {C : Type} `{CallbackLaws C}
  (env : Env) (m m' : Machine C) (w : Try unit) (l : list Action) :
  occurrences Cancel (trace m) = 0%nat ->
  forallb passive l = true ->
  conduct env m = Done (w, m') ->
  occurrences Cancel (trace m' ++ l) = (if hasException w then 1 else 0)%nat.
Proof.
  intros Hz Hl Hc. destruct (conduct_trace _ _ _ _ Hc) as (l1 & Ht & Hn & _).
  rewrite Ht, !occurrences_app, Hz, Hn, (passive_occurrences Cancel l); auto.
Qed.

(** X16: every operation enters [cancel()] exactly when it ends with
    [OperationCancelled], and then exactly once; an operation that ends
    with a value or with a socket error has never called it. *)
Theorem cancel_iff_cancelled :
  forall (op : Operation) (env : Env) (s : Socket) r tr,
    perform op env s = Done (r, tr) ->
    occurrences Cancel tr = (if endedCancelled r then 1 else 0)%nat.
Proof.
  intros op env s r tr Hrun. destruct (issues op s) eqn:Hi.
  2:{ rewrite (perform_not_issued _ _ _ Hi) in Hrun. injection Hrun as <- <-.
      reflexivity. }
  assert (Hread : forall mode timeout,
             deferredReadEOF_ s = false ->
             (o <- readIn mode timeout env s ;;
              Done (failure (result o), actions o)) = Done (r, tr) ->
             occurrences Cancel tr = (if endedCancelled r then 1 else 0)%nat).
  { intros mode timeout Hd Hr. rewrite (readIn_conduct _ _ _ _ Hd) in Hr.
    destruct (conduct _ _) as [[w m']| |] eqn:Hc; cbn [bind fst snd] in Hr;
      try discriminate.
    injection Hr as <- <-.
    assert (H0 : occurrences Cancel (trace (issued mode timeout env s)) = 0%nat).
    { destruct (issued_facts mode timeout env s)
        as (_ & _ & _ & _ & _ & _ & _ & _ & ->).
      now destruct (0 <? timeout)%Z. }
    destruct (conduct_cases (ReadInv timeout env) env _ m' w
                (ReadInv_deliver timeout env)
                (fun b m1 Hm1 => Hm1) (fun m1 Hm1 => Hm1)
                (ReadInv_issued mode timeout env s) Hc)
      as [(-> & _) | (-> & m2 & (Herr & _) & _ & _ & Heq)];
      unfold readResult.
    - cbn [result actions failure endedCancelled].
      rewrite <- (app_nil_r (trace m')).
      exact (conduct_cancel_count env _ m' _ [] H0 eq_refl Hc).
    - assert (He : error m' = error m2) by (rewrite Heq; reflexivity).
      rewrite He.
      destruct Herr as [-> | (ex & -> & _)];
        cbn [result actions failure endedCancelled setReadCB log trace
             set_sock].
      + exact (conduct_cancel_count env _ m' (Value tt) [CallSetReadCB false]
                 H0 eq_refl Hc).
      + rewrite <- (app_nil_r (trace m')).
        exact (conduct_cancel_count env _ m' (Value tt) [] H0 eq_refl Hc). }
  assert (Hwrite : forall form timeout writeInfo,
             (o <- writeIn form timeout writeInfo env s ;;
              Done (failure (result o), actions o)) = Done (r, tr) ->
             occurrences Cancel tr = (if endedCancelled r then 1 else 0)%nat).
  { intros form timeout writeInfo Hr. rewrite writeIn_conduct in Hr.
    destruct (conduct _ _) as [[w m']| |] eqn:Hc; cbn [bind] in Hr;
      try discriminate.
    injection Hr as <- <-.
    assert (H0 : occurrences Cancel
                   (trace (writeIssued (submitCall form) timeout env s))
                 = 0%nat) by (destruct form; reflexivity).
    destruct (conduct_result _ _ _ _ Hc) as [-> | ->];
      unfold writeResult; cbn [fst snd].
    - destruct (WriteCallback_error (cb m'));
        cbn [result actions failure endedCancelled];
        rewrite <- (app_nil_r (trace m'));
        exact (conduct_cancel_count env _ m' (Value tt) [] H0 eq_refl Hc).
    - cbn [result actions failure endedCancelled].
      rewrite <- (app_nil_r (trace m')).
      exact (conduct_cancel_count env _ m' _ [] H0 eq_refl Hc). }
  destruct op; cbn [perform issues] in *.
  - rewrite connect_conduct in Hrun.
    destruct (conduct _ _) as [[w m']| |] eqn:Hc; cbn [bind] in Hrun;
      try discriminate.
    injection Hrun as <- <-.
    assert (Hinit : ConnectInv env (connectIssued connectTimeout env)).
    { unfold ConnectInv. cbn. repeat split; auto; discriminate. }
    destruct (conduct_cases (ConnectInv env) env _ m' w
                (ConnectInv_deliver env)
                (fun b m1 Hm1 => Hm1) (fun m1 Hm1 => Hm1) Hinit Hc)
      as [(-> & _) | (-> & m2 & (Herr & _) & _ & _ & Heq)];
      unfold connectResult; cbn [fst snd].
    + rewrite <- (app_nil_r (trace m')).
      exact (conduct_cancel_count env (connectIssued connectTimeout env) m' _
               [] eq_refl eq_refl Hc).
    + assert (He : error m' = error m2) by (rewrite Heq; reflexivity).
      rewrite He.
      destruct Herr as [-> | (ex & -> & _)];
        cbn [fst snd failure endedCancelled];
        rewrite <- (app_nil_r (trace m'));
        exact (conduct_cancel_count env (connectIssued connectTimeout env) m'
                 (Value tt) [] eq_refl eq_refl Hc).
  - apply negb_true_iff in Hi.
    exact (Hread (Fixed buf) timeout Hi Hrun).
  - apply negb_true_iff in Hi.
    exact (Hread (Growing readBuf minReadSize newAllocationSize) timeout
                 Hi Hrun).
  - exact (Hwrite (Single buf) timeout writeInfo Hrun).
  - exact (Hwrite (Vectored iovec) timeout writeInfo Hrun).
Qed.

Lemma cancel_iff_cancelled_witness :
  exists r tr,
    perform (OpRead (repeat x00 8) 50%Z) cancel_env fresh_socket
    = Done (r, tr) /\
    r = Some OperationCancelled /\ occurrences Cancel tr = 1%nat.
Proof.
  do 2 eexists. split; [vm_compute; reflexivity|]. split; [reflexivity|].
  apply (cancel_iff_cancelled (OpRead (repeat x00 8) 50%Z) cancel_env
           fresh_socket (Some OperationCancelled)).
  vm_compute. reflexivity.
Defined.
